(** * LLM-aware gateway: a shallow embedding of the admission-control core

    The Go packages [breaker], [vector], [middleware], [clustering],
    [config], [gateway], [limiter] and [utils] are embedded as pure functions
    with explicit state passing, together with the parts of the standard
    packages [time] and [regexp] they rely on.  Conventions used throughout:

    - [int64] values are [Z] with the two's-complement wrap-around written
      out ([wrap64]); [float64] values are Rocq's primitive binary64 floats;
      [float32] values are binary32 specification floats ([spec_float] at
      precision 24).
    - [time.Time] is a count of nanoseconds in [Z]; every operation receives
      the reading of [time.Now()] as an argument [now].  An operation runs
      under its mutex, and the clock readings inside one operation are taken
      to be one instant.
    - a Go [map] is a [gmap]; a [range] loop over a map receives the order in
      which the runtime enumerates the keys as an explicit list.
    - a Go [error] is an [option string]: [None] is [nil]. *)

From Stdlib Require Import ZArith Lia List String Ascii Bool.
From Stdlib Require Import Floats.PrimFloat Floats.SpecFloat Floats.FloatOps.
From Stdlib Require Floats.FloatAxioms.
From stdpp Require Import base option list gmap strings pretty.
Import ListNotations.

#[local] Set Warnings "-inexact-float".

Local Open Scope string_scope.
Local Open Scope Z_scope.

(** ** Machine integers and floating point *)

Definition min_int64 : Z := - 2 ^ 63.
Definition max_int64 : Z := 2 ^ 63 - 1.

Definition wrap64 (z : Z) : Z := (z + 2 ^ 63) mod 2 ^ 64 - 2 ^ 63.

Definition in_int64 (z : Z) : bool := (min_int64 <=? z) && (z <=? max_int64).

Definition error : Type := option string.

Definition float64 : Type := float.

(** [float64(n)] for an integer [n]: round to nearest even. *)
Definition float64_of_int (z : Z) : float64 :=
  SF2Prim (binary_normalize 53 1024 z 0 false).

(** [int64(f)]: truncation toward zero.  For NaN, infinities and values
    outside the [int64] range Go leaves the result to the implementation;
    the amd64 result (the smallest [int64]) is used. *)
Definition int64_of_float64 (f : float64) : Z :=
  match Prim2SF f with
  | S754_zero _ => 0
  | S754_finite s m e =>
      let q := if 0 <=? e then Z.pos m * 2 ^ e else Z.pos m / 2 ^ (- e) in
      let v := if s then - q else q in
      if in_int64 v then v else min_int64
  | _ => min_int64
  end.

(** The integer nearest to [f], halves away from zero: the reading of
    "rounded" in the specification of the recovery threshold. *)
Definition round_of_float64 (f : float64) : Z :=
  match Prim2SF f with
  | S754_zero _ => 0
  | S754_finite s m e =>
      let q := if 0 <=? e then Z.pos m * 2 ^ e
               else (2 * Z.pos m + 2 ^ (- e)) / (2 * 2 ^ (- e)) in
      if s then - q else q
  | _ => min_int64
  end.

(** The rational number a finite [float64] denotes, as a numerator and a
    positive denominator; [(0, 1)] for NaN and the infinities. *)
Definition fraction_of_float64 (f : float64) : Z * Z :=
  match Prim2SF f with
  | S754_finite s m e =>
      let n := if s then Z.neg m else Z.pos m in
      if 0 <=? e then (n * 2 ^ e, 1) else (n, 2 ^ (- e))
  | _ => (0, 1)
  end.


(** [float32] as binary32 specification floats. *)
Definition float32 : Type := spec_float.

Definition float32_of_int (z : Z) : float32 := binary_normalize 24 128 z 0 false.
Definition f32_add : float32 -> float32 -> float32 := SFadd 24 128.
Definition f32_sub : float32 -> float32 -> float32 := SFsub 24 128.
Definition f32_mul : float32 -> float32 -> float32 := SFmul 24 128.
Definition f32_div : float32 -> float32 -> float32 := SFdiv 24 128.

(** [float64(x)] for a [float32]: exact. *)
Definition float64_of_float32 (x : float32) : float64 := SF2Prim x.

(** ** Package [time] *)

Module time.

Definition Time : Type := Z.
Definition Duration : Type := Z.

Definition Second : Duration := 1000000000.

(** [t.After(u)] *)
Definition After (t u : Time) : bool := u <? t.

(** [t.Add(d)] *)
Definition Add (t : Time) (d : Duration) : Time := t + d.

(** [t.Sub(u)]: the difference, saturated to the [Duration] range. *)
Definition Sub (t u : Time) : Duration :=
  let d := t - u in
  if d <? min_int64 then min_int64
  else if max_int64 <? d then max_int64 else d.

(** [d.Seconds()] *)
Definition Seconds (d : Duration) : float64 :=
  let sec := Z.quot d Second in
  let nsec := Z.rem d Second in
  PrimFloat.add (float64_of_int sec)
                (PrimFloat.div (float64_of_int nsec) 1e9%float).

End time.

(** ** Package [types] *)

Module RateLimitPolicy.
Record t : Type := mk {
  LimitRate : float64;
  Duration : time.Duration;
}.
End RateLimitPolicy.

Module CircuitBreakPolicy.
Record t : Type := mk {
  BreakDuration : time.Duration;
  RecoveryStep : float64;
}.
End CircuitBreakPolicy.

Definition PolicyTypeRateLimit : string := "RATE_LIMIT".
Definition PolicyTypeCircuitBreak : string := "CIRCUIT_BREAK".
Definition PolicyTypeDegrade : string := "DEGRADE".

Module Policy.
Record t : Type := mk {
  PolicyID : string;
  ClusterID : string;
  PolicyType : string;
  Severity : float64;
  RateLimit : option RateLimitPolicy.t;
  CircuitBreak : option CircuitBreakPolicy.t;
  CreateTime : time.Time;
  ExpireTime : time.Time;
  IsActive : bool;
}.
End Policy.

Inductive BreakerState : Type :=
| BreakerStateClosed
| BreakerStateOpen
| BreakerStateHalfOpen.

Module BreakerConfig.
Record t : Type := mk {
  FailureThreshold : Z;
  RecoveryTimeout : time.Duration;
  RecoveryIncrement : float64;
}.
End BreakerConfig.

Module Cluster.
Record t : Type := mk {
  ID : string;
  Centroid : list float32;
  Members : list string;
  ErrorCount : Z;
  CreateTime : time.Time;
  UpdateTime : time.Time;
  Severity : float64;
  Description : string;
}.
End Cluster.

Module ErrorEvent.
Record t : Type := mk {
  EventID : string;
  TraceID : string;
  SpanID : string;
  RequestPath : string;
  Method : string;
  ServiceName : string;
  StatusCode : Z;
  ErrorMessage : string;
  StackTrace : list string;
  Timestamp : time.Time;
  ClusterID : string;
}.
End ErrorEvent.

Module ClusteringConfig.
Record t : Type := mk {
  SimilarityThreshold : float64;
  ReclusteringInterval : time.Duration;
  MinClusterSize : Z;
  MaxClusters : Z;
}.
End ClusteringConfig.

(** ** Package [breaker]: the per-cluster circuit breaker *)

Module breaker.

Record breakerStats : Type := mkStats {
  TotalRequests : Z;
  FailedRequests : Z;
  SuccessRequests : Z;
  BreakerOpenCount : Z;
  LastStateChange : time.Time;
}.

Record clusterBreaker : Type := mkBreaker {
  ClusterID : string;
  State : BreakerState;
  Policy : option Policy.t;
  FailureCount : Z;
  SuccessCount : Z;
  LastFailTime : time.Time;
  NextRetry : time.Time;
  Config : BreakerConfig.t;
  Stats : breakerStats;
}.

Record clusterCircuitBreaker : Type := mkCCB {
  config : BreakerConfig.t;
  clusters : gmap string clusterBreaker;
}.

(** [breakerStats] methods *)

Definition newBreakerStats (now : time.Time) : breakerStats :=
  mkStats 0 0 0 0 now.

Definition recordRequest (bs : breakerStats) : breakerStats :=
  mkStats (wrap64 (TotalRequests bs + 1)) (FailedRequests bs)
          (SuccessRequests bs) (BreakerOpenCount bs) (LastStateChange bs).

Definition recordSuccess (bs : breakerStats) : breakerStats :=
  mkStats (TotalRequests bs) (FailedRequests bs)
          (wrap64 (SuccessRequests bs + 1)) (BreakerOpenCount bs)
          (LastStateChange bs).

Definition recordFailure (bs : breakerStats) : breakerStats :=
  mkStats (TotalRequests bs) (wrap64 (FailedRequests bs + 1))
          (SuccessRequests bs) (BreakerOpenCount bs) (LastStateChange bs).

Definition recordBreakerOpen (bs : breakerStats) : breakerStats :=
  mkStats (TotalRequests bs) (FailedRequests bs) (SuccessRequests bs)
          (wrap64 (BreakerOpenCount bs + 1)) (LastStateChange bs).

Definition recordStateChange (now : time.Time) (bs : breakerStats)
  : breakerStats :=
  mkStats (TotalRequests bs) (FailedRequests bs) (SuccessRequests bs)
          (BreakerOpenCount bs) now.

(** Field updates of [clusterBreaker] *)

Definition with_State (s : BreakerState) (cb : clusterBreaker) :=
  mkBreaker (ClusterID cb) s (Policy cb) (FailureCount cb) (SuccessCount cb)
            (LastFailTime cb) (NextRetry cb) (Config cb) (Stats cb).

Definition with_Policy (p : option Policy.t) (cb : clusterBreaker) :=
  mkBreaker (ClusterID cb) (State cb) p (FailureCount cb) (SuccessCount cb)
            (LastFailTime cb) (NextRetry cb) (Config cb) (Stats cb).

Definition with_FailureCount (n : Z) (cb : clusterBreaker) :=
  mkBreaker (ClusterID cb) (State cb) (Policy cb) n (SuccessCount cb)
            (LastFailTime cb) (NextRetry cb) (Config cb) (Stats cb).

Definition with_SuccessCount (n : Z) (cb : clusterBreaker) :=
  mkBreaker (ClusterID cb) (State cb) (Policy cb) (FailureCount cb) n
            (LastFailTime cb) (NextRetry cb) (Config cb) (Stats cb).

Definition with_LastFailTime (t : time.Time) (cb : clusterBreaker) :=
  mkBreaker (ClusterID cb) (State cb) (Policy cb) (FailureCount cb)
            (SuccessCount cb) t (NextRetry cb) (Config cb) (Stats cb).

Definition with_NextRetry (t : time.Time) (cb : clusterBreaker) :=
  mkBreaker (ClusterID cb) (State cb) (Policy cb) (FailureCount cb)
            (SuccessCount cb) (LastFailTime cb) t (Config cb) (Stats cb).

Definition with_Config (c : BreakerConfig.t) (cb : clusterBreaker) :=
  mkBreaker (ClusterID cb) (State cb) (Policy cb) (FailureCount cb)
            (SuccessCount cb) (LastFailTime cb) (NextRetry cb) c (Stats cb).

Definition with_Stats (s : breakerStats) (cb : clusterBreaker) :=
  mkBreaker (ClusterID cb) (State cb) (Policy cb) (FailureCount cb)
            (SuccessCount cb) (LastFailTime cb) (NextRetry cb) (Config cb) s.

(** [clusterBreaker.setState] *)
Definition setState (now : time.Time) (state : BreakerState)
           (cb : clusterBreaker) : clusterBreaker :=
  with_Stats (recordStateChange now (Stats cb)) (with_State state cb).

(** [clusterBreaker.reset] *)
Definition reset (cb : clusterBreaker) : clusterBreaker :=
  with_SuccessCount 0 (with_FailureCount 0 cb).

(** The threshold computed in [RecordSuccess]:
    [int64(float64(FailureThreshold) * RecoveryIncrement)]. *)
Definition recoveryThreshold (c : BreakerConfig.t) : Z :=
  int64_of_float64
    (PrimFloat.mul (float64_of_int (BreakerConfig.FailureThreshold c))
                   (BreakerConfig.RecoveryIncrement c)).

(** The body of [Allow] once the breaker of the cluster has been found
    and locked. *)
Definition breaker_Allow (now : time.Time) (cb : clusterBreaker)
  : bool * clusterBreaker :=
  let cb := with_Stats (recordRequest (Stats cb)) cb in
  match State cb with
  | BreakerStateClosed => (true, cb)
  | BreakerStateOpen =>
      if time.After now (NextRetry cb)
      then (true, setState now BreakerStateHalfOpen cb)
      else (false, cb)
  | BreakerStateHalfOpen => (true, cb)
  end.

(** The body of [RecordSuccess] on the locked breaker. *)
Definition breaker_RecordSuccess (now : time.Time) (cb : clusterBreaker)
  : clusterBreaker :=
  let cb := with_SuccessCount (wrap64 (SuccessCount cb + 1)) cb in
  let cb := with_Stats (recordSuccess (Stats cb)) cb in
  match State cb with
  | BreakerStateHalfOpen =>
      if recoveryThreshold (Config cb) <=? SuccessCount cb
      then reset (setState now BreakerStateClosed cb)
      else cb
  | BreakerStateOpen =>
      with_SuccessCount (wrap64 (SuccessCount cb + 1)) cb
  | BreakerStateClosed => cb
  end.

(** The body of [RecordFailure] on the locked breaker. *)
Definition breaker_RecordFailure (now : time.Time) (cb : clusterBreaker)
  : clusterBreaker :=
  let cb := with_FailureCount (wrap64 (FailureCount cb + 1)) cb in
  let cb := with_LastFailTime now cb in
  let cb := with_Stats (recordFailure (Stats cb)) cb in
  let trip (cb : clusterBreaker) :=
    let cb := setState now BreakerStateOpen cb in
    let cb :=
      with_NextRetry
        (time.Add now (BreakerConfig.RecoveryTimeout (Config cb))) cb in
    with_Stats (recordBreakerOpen (Stats cb)) cb in
  match State cb with
  | BreakerStateClosed =>
      if BreakerConfig.FailureThreshold (Config cb) <=? FailureCount cb
      then trip cb
      else cb
  | BreakerStateHalfOpen => trip cb
  | BreakerStateOpen => cb
  end.

(** [NewClusterCircuitBreaker] *)
Definition NewClusterCircuitBreaker (config : BreakerConfig.t)
  : clusterCircuitBreaker :=
  mkCCB config ∅.

(** [clusterCircuitBreaker.Allow] *)
Definition Allow (now : time.Time) (clusterID : string)
           (ccb : clusterCircuitBreaker) : bool * clusterCircuitBreaker :=
  if decide (clusterID = "") then (true, ccb)
  else match clusters ccb !! clusterID with
       | None => (true, ccb)
       | Some b =>
           let '(ok, b') := breaker_Allow now b in
           (ok, mkCCB (config ccb) (<[clusterID := b']> (clusters ccb)))
       end.

(** [clusterCircuitBreaker.RecordSuccess] *)
Definition RecordSuccess (now : time.Time) (clusterID : string)
           (ccb : clusterCircuitBreaker) : error * clusterCircuitBreaker :=
  if decide (clusterID = "") then (None, ccb)
  else match clusters ccb !! clusterID with
       | None => (None, ccb)
       | Some b =>
           (None, mkCCB (config ccb)
                    (<[clusterID := breaker_RecordSuccess now b]>
                       (clusters ccb)))
       end.

(** [clusterCircuitBreaker.RecordFailure] *)
Definition RecordFailure (now : time.Time) (clusterID : string)
           (ccb : clusterCircuitBreaker) : error * clusterCircuitBreaker :=
  if decide (clusterID = "") then (None, ccb)
  else match clusters ccb !! clusterID with
       | None => (None, ccb)
       | Some b =>
           (None, mkCCB (config ccb)
                    (<[clusterID := breaker_RecordFailure now b]>
                       (clusters ccb)))
       end.

(** [clusterCircuitBreaker.GetState] *)
Definition GetState (clusterID : string) (ccb : clusterCircuitBreaker)
  : BreakerState :=
  if decide (clusterID = "") then BreakerStateClosed
  else match clusters ccb !! clusterID with
       | None => BreakerStateClosed
       | Some b => State b
       end.

(** [clusterCircuitBreaker.UpdatePolicy]; a [nil] policy is [None]. *)
Definition UpdatePolicy (now : time.Time) (clusterID : string)
           (policy : option Policy.t) (ccb : clusterCircuitBreaker)
  : error * clusterCircuitBreaker :=
  match policy with
  | None => (Some "policy cannot be nil", ccb)
  | Some p =>
      let b :=
        match clusters ccb !! clusterID with
        | Some b => b
        | None =>
            mkBreaker clusterID BreakerStateClosed None 0 0 0 0
                      (config ccb) (newBreakerStats now)
        end in
      let b := with_Policy (Some p) b in
      let b :=
        match Policy.CircuitBreak p with
        | Some cbp =>
            if decide (Policy.PolicyType p = PolicyTypeCircuitBreak) then
              let b :=
                with_Config
                  (BreakerConfig.mk
                     (BreakerConfig.FailureThreshold (config ccb))
                     (CircuitBreakPolicy.BreakDuration cbp)
                     (CircuitBreakPolicy.RecoveryStep cbp)) b in
              if PrimFloat.leb 0.8%float (Policy.Severity p) then
                let b := setState now BreakerStateOpen b in
                let b :=
                  with_NextRetry
                    (time.Add now (CircuitBreakPolicy.BreakDuration cbp)) b in
                with_Stats (recordBreakerOpen (Stats b)) b
              else b
            else b
        | None => b
        end in
      (None, mkCCB (config ccb) (<[clusterID := b]> (clusters ccb)))
  end.

(** [RecordFailure] called once at each instant of [times]. *)
Definition failures (times : list time.Time) (clusterID : string)
           (ccb : clusterCircuitBreaker) : clusterCircuitBreaker :=
  fold_left (fun ccb now => snd (RecordFailure now clusterID ccb)) times ccb.

(** The calls of the [interfaces.CircuitBreaker] interface. *)
Inductive call : Type :=
| CallAllow (now : time.Time) (clusterID : string)
| CallRecordSuccess (now : time.Time) (clusterID : string)
| CallRecordFailure (now : time.Time) (clusterID : string)
| CallGetState (clusterID : string)
| CallUpdatePolicy (now : time.Time) (clusterID : string)
                   (policy : option Policy.t).

(** The effect of one call on the breaker. *)
Definition exec (c : call) (ccb : clusterCircuitBreaker)
  : clusterCircuitBreaker :=
  match c with
  | CallAllow now clusterID => snd (Allow now clusterID ccb)
  | CallRecordSuccess now clusterID => snd (RecordSuccess now clusterID ccb)
  | CallRecordFailure now clusterID => snd (RecordFailure now clusterID ccb)
  | CallGetState _ => ccb
  | CallUpdatePolicy now clusterID policy =>
      snd (UpdatePolicy now clusterID policy ccb)
  end.

Definition execAll (cs : list call) (ccb : clusterCircuitBreaker)
  : clusterCircuitBreaker :=
  fold_left (fun ccb c => exec c ccb) cs ccb.

(** The cluster a call names. *)
Definition clusterOf (c : call) : string :=
  match c with
  | CallAllow _ clusterID
  | CallRecordSuccess _ clusterID
  | CallRecordFailure _ clusterID
  | CallGetState clusterID
  | CallUpdatePolicy _ clusterID _ => clusterID
  end.

(** [clusterID] is not the subject of an [UpdatePolicy] call. *)
Definition notUpdated (clusterID : string) (c : call) : Prop :=
  match c with
  | CallUpdatePolicy _ clusterID' _ => clusterID' <> clusterID
  | _ => True
  end.

(** What every breaker built from [cfg] keeps: its own configuration, and
    for each cluster an entry filed under the cluster's own id whose failure
    threshold is the configured one. *)
Definition wellFormed (cfg : BreakerConfig.t) (ccb : clusterCircuitBreaker)
  : Prop :=
  config ccb = cfg
  /\ forall k b,
       clusters ccb !! k = Some b ->
       ClusterID b = k
       /\ BreakerConfig.FailureThreshold (Config b)
          = BreakerConfig.FailureThreshold cfg.

(** The outcome of a request as the middleware records it: [true] is a
    [RecordSuccess], [false] a [RecordFailure]. *)
Definition recordCall (clusterID : string) (outcome : bool * time.Time)
  : call :=
  if fst outcome then CallRecordSuccess (snd outcome) clusterID
  else CallRecordFailure (snd outcome) clusterID.

(** The number of failures among the outcomes. *)
Definition failureCount (outcomes : list (bool * time.Time)) : Z :=
  Z.of_nat (length (filter (fun o => fst o = false) outcomes)).

(** The recovery threshold as the specification words it:
    [failure_threshold * recovery_increment], rounded to the nearest
    integer. *)
Definition recoveryThreshold_rounded (c : BreakerConfig.t) : Z :=
  round_of_float64
    (PrimFloat.mul (float64_of_int (BreakerConfig.FailureThreshold c))
                   (BreakerConfig.RecoveryIncrement c)).

End breaker.

(** ** Package [regexp]: the fragment the desensitiser patterns use

    Go's [regexp] finds the match a backtracking engine with greedy
    quantifiers finds first, at the leftmost position where there is one.
    The six patterns of the desensitiser are sequences of word boundaries
    and of greedy repetitions of one character class; a literal character
    is a class repeated exactly once. *)

Module regexp.

Inductive atom : Type :=
| WordBoundary                                                 (* [\b] *)
| Repeat (cls : ascii -> bool) (min : nat) (max : option nat). (* [c{min,max}] *)

Definition Regexp : Type := list atom.

Definition Lit (c : ascii) : atom := Repeat (Ascii.eqb c) 1 (Some 1%nat).

Definition between (lo hi c : ascii) : bool :=
  Nat.leb (nat_of_ascii lo) (nat_of_ascii c)
  && Nat.leb (nat_of_ascii c) (nat_of_ascii hi).

Definition digit (c : ascii) : bool := between "0" "9" c.
Definition upper (c : ascii) : bool := between "A" "Z" c.
Definition lower (c : ascii) : bool := between "a" "z" c.
Definition alnum (c : ascii) : bool := upper c || lower c || digit c.
Definition hex (c : ascii) : bool :=
  digit c || between "a" "f" c || between "A" "F" c.
Definition oneOf (cs : list ascii) (c : ascii) : bool :=
  existsb (Ascii.eqb c) cs.

(** [\w] *)
Definition isWordChar (c : ascii) : bool := alnum c || Ascii.eqb c "_".

(** [\b] holds between [prev] and the head of [s]. *)
Definition atBoundary (prev : option ascii) (s : list ascii) : bool :=
  xorb (match prev with Some c => isWordChar c | None => false end)
       (match s with c :: _ => isWordChar c | [] => false end).

(** A greedy repetition followed by the continuation [k]; the result is the
    number of characters the match consumes. *)
Fixpoint repeat (cls : ascii -> bool) (min : nat) (max : option nat)
         (prev : option ascii) (s : list ascii)
         (k : option ascii -> list ascii -> option nat) : option nat :=
  let stop := match min with O => k prev s | S _ => None end in
  match s with
  | c :: s' =>
      if cls c && negb (bool_decide (max = Some O)) then
        match repeat cls (Nat.pred min) (option_map Nat.pred max)
                     (Some c) s' k with
        | Some n => Some (S n)
        | None => stop
        end
      else stop
  | [] => stop
  end.

(** The match of [re] that starts at the head of [s], if any. *)
Fixpoint matchHere (re : Regexp) (prev : option ascii) (s : list ascii)
  : option nat :=
  match re with
  | [] => Some O
  | WordBoundary :: re' =>
      if atBoundary prev s then matchHere re' prev s else None
  | Repeat cls min max :: re' => repeat cls min max prev s (matchHere re')
  end.

(** The scan of [ReplaceAll]: [skip] characters still belong to the last
    match; [afterMatch] holds at the position where the last match ended
    (an empty match there is not replaced). *)
Fixpoint replaceFrom (re : Regexp) (repl : list ascii) (prev : option ascii)
         (afterMatch : bool) (skip : nat) (s : list ascii) : list ascii :=
  match s with
  | [] =>
      match skip, matchHere re prev [] with
      | O, Some _ => if afterMatch then [] else repl
      | _, _ => []
      end
  | c :: s' =>
      match skip with
      | S k => replaceFrom re repl (Some c) true k s'
      | O =>
          match matchHere re prev s with
          | Some (S n) =>
              (repl ++ replaceFrom re repl (Some c) true n s')%list
          | Some O =>
              ((if afterMatch then [] else repl)
                 ++ c :: replaceFrom re repl (Some c) false O s')%list
          | None => c :: replaceFrom re repl (Some c) false O s'
          end
      end
  end.

(** [Regexp.ReplaceAllString] for a replacement without [$]. *)
Definition ReplaceAllString (re : Regexp) (src repl : string) : string :=
  string_of_list_ascii
    (replaceFrom re (list_ascii_of_string repl) None false O
                 (list_ascii_of_string src)).

(** *** Matches and their absence

    The notions in which the properties of [ReplaceAllString] are
    stated. *)

(** The character before the position reached after [n] characters of [s]. *)
Fixpoint prevAt (prev : option ascii) (s : list ascii) (n : nat)
  : option ascii :=
  match n, s with
  | S n', c :: s' => prevAt (Some c) s' n'
  | _, _ => prev
  end.

(** [re] cannot match without consuming a character: it starts, after an
    optional [\b], with a repetition of at least one character. *)
Definition needsChar (re : Regexp) : bool :=
  match re with
  | Repeat _ (S _) _ :: _ => true
  | WordBoundary :: Repeat _ (S _) _ :: _ => true
  | _ => false
  end.

(** [re] has a [\b]. *)
Definition usesBoundary (re : Regexp) : bool :=
  existsb (fun a => match a with WordBoundary => true | _ => false end) re.

(** [re] is anchored: it starts and ends with [\b]. *)
Definition anchored (re : Regexp) : Prop :=
  exists mid, re = WordBoundary :: (mid ++ [WordBoundary])%list.

(** The characters that open and close a replacement marker. *)
Definition bracket (c : ascii) : bool :=
  Ascii.eqb c "[" || Ascii.eqb c "]".

(** No character class of [re] holds a bracket. *)
Definition bracketFree (re : Regexp) : bool :=
  forallb (fun a => match a with
                    | WordBoundary => true
                    | Repeat cls _ _ =>
                        negb (cls "["%char) && negb (cls "]"%char)
                    end) re.

(** [re] matches at no position of [s], [prev] being the character before
    [s]. *)
Fixpoint quiet (re : Regexp) (prev : option ascii) (s : list ascii) : Prop :=
  matchHere re prev s = None
  /\ match s with
     | [] => True
     | c :: s' => quiet re (Some c) s'
     end.

(** Wherever [rj] does not match in [s], [ri] does not match either. *)
Fixpoint quietWhere (rj ri : Regexp) (prev : option ascii) (s : list ascii)
  : Prop :=
  (matchHere rj prev s = None -> matchHere ri prev s = None)
  /\ match s with
     | [] => True
     | c :: s' => quietWhere rj ri (Some c) s'
     end.

(** What a match that reads [so] after [po] can be replayed on: [st] after
    [pt] agrees with it up to the first bracket, and where boundaries count
    ([wb]) a boundary at the start of [so] is one at the start of [st]. *)
Fixpoint Sim (wb : bool) (po : option ascii) (so : list ascii)
         (pt : option ascii) (st : list ascii) : Prop :=
  (wb = true -> atBoundary po so = true -> atBoundary pt st = true)
  /\ match so with
     | [] => True
     | c :: so' =>
         bracket c = true
         \/ match st with
            | c' :: st' => c' = c /\ Sim wb (Some c) so' (Some c) st'
            | [] => False
            end
     end.

(** [re] matches nowhere in [s]. *)
Definition NoMatch (re : Regexp) (s : string) : Prop :=
  quiet re None (list_ascii_of_string s).

(** [repl] is a bracketed marker inside which [ri] matches nowhere. *)
Definition inertMarker (ri : Regexp) (repl : string) : Prop :=
  exists q,
    list_ascii_of_string repl = ("["%char :: q ++ ["]"%char])%list
    /\ quiet ri (Some "["%char) (q ++ ["]"%char])%list.

End regexp.

(** ** Package [utils]: vector arithmetic, the TTL cache, the token bucket
    and the desensitiser *)

Inductive result (A : Type) : Type :=
| Ok (a : A)
| Err (e : string).
Arguments Ok {A} a.
Arguments Err {A} e.

Module utils.

(** The accumulation loop of [CosineSimilarity]. *)
Fixpoint cosine_sums (a b : list float32) (dotProduct normA normB : float64)
  : float64 * float64 * float64 :=
  match a, b with
  | x :: a', y :: b' =>
      let x := float64_of_float32 x in
      let y := float64_of_float32 y in
      cosine_sums a' b'
        (PrimFloat.add dotProduct (PrimFloat.mul x y))
        (PrimFloat.add normA (PrimFloat.mul x x))
        (PrimFloat.add normB (PrimFloat.mul y y))
  | _, _ => (dotProduct, normA, normB)
  end.

(** [CosineSimilarity] *)
Definition CosineSimilarity (a b : list float32) : float64 :=
  if negb (Nat.eqb (length a) (length b)) then 0%float
  else
    let '(dotProduct, normA, normB) :=
      cosine_sums a b 0%float 0%float 0%float in
    if PrimFloat.eqb normA 0%float || PrimFloat.eqb normB 0%float
    then 0%float
    else PrimFloat.div dotProduct
           (PrimFloat.mul (PrimFloat.sqrt normA) (PrimFloat.sqrt normB)).

(** [Truncate]; [maxLen] is an [int].  [None] is the run-time panic of the
    slice expression [s[:maxLen]] for a negative bound. *)
Definition Truncate (s : string) (maxLen : Z) : option string :=
  if Z.of_nat (String.length s) <=? maxLen then Some s
  else if maxLen <? 0 then None
  else Some (String.substring 0 (Z.to_nat maxLen) s +:+ "...").

(** The TTL cache.  Only strings are ever stored by the gateway; the
    capacity bound of the underlying LRU list is not represented. *)
Record cacheItem : Type := mkItem {
  value : string;
  expiredAt : time.Time;
}.

Definition cache : Type := gmap string cacheItem.

(** [cache.Get] *)
Definition Get (now : time.Time) (key : string) (c : cache)
  : option string * cache :=
  match c !! key with
  | None => (None, c)
  | Some item =>
      if time.After now (expiredAt item) then (None, delete key c)
      else (Some (value item), c)
  end.

(** [cache.Set]; the zero [time.Time] is instant [0]. *)
Definition Set_ (now : time.Time) (key value : string) (ttl : Z) (c : cache)
  : cache :=
  let expiredAt :=
    if 0 <? ttl then time.Add now (wrap64 (ttl * time.Second)) else 0 in
  <[key := mkItem value expiredAt]> c.

(** [cache.Delete] *)
Definition Delete (key : string) (c : cache) : cache := delete key c.

(** [cache.Clear] *)
Definition Clear (c : cache) : cache := ∅.

(** [cache.cleanupExpired]: entries whose expiry instant is not the zero
    instant and has passed are removed. *)
Definition cleanupExpired (now : time.Time) (c : cache) : cache :=
  filter (fun kv => ~ (expiredAt (snd kv) <> 0
                       /\ time.After now (expiredAt (snd kv)) = true)) c.

(** [strings.Split] for a separator of one character. *)
Fixpoint Split (sep : ascii) (s : string) : list string :=
  match s with
  | EmptyString => [""]
  | String c s' =>
      if Ascii.eqb c sep then "" :: Split sep s'
      else match Split sep s' with
           | part :: parts => String c part :: parts
           | [] => [String c ""]
           end
  end.

(** [ExtractServiceName], on the path of the request URL. *)
Definition ExtractServiceName (path : string) : string :=
  match Split "/" path with
  | _ :: part :: _ => if decide (part = "") then "unknown" else part
  | _ => "unknown"
  end.

(** The token bucket of package [utils]. *)
Module tokenBucket.

Record t : Type := mk {
  capacity : Z;
  tokens : Z;
  refillRate : float64;
  lastRefill : time.Time;
}.

(** [NewTokenBucket] *)
Definition NewTokenBucket (now : time.Time) (capacity : Z)
           (refillRate : float64) : t :=
  mk capacity capacity refillRate now.

(** [min] *)
Definition min (a b : Z) : Z := if a <? b then a else b.

(** [tokenBucket.refill] *)
Definition refill (now : time.Time) (tb : t) : t :=
  let elapsed := time.Seconds (time.Sub now (lastRefill tb)) in
  if PrimFloat.ltb 0%float elapsed then
    let tokensToAdd :=
      int64_of_float64 (PrimFloat.mul elapsed (refillRate tb)) in
    mk (capacity tb)
       (min (capacity tb) (wrap64 (tokens tb + tokensToAdd)))
       (refillRate tb) now
  else tb.

(** [tokenBucket.Allow] *)
Definition Allow (now : time.Time) (tb : t) : bool * t :=
  let tb := refill now tb in
  if 0 <? tokens tb
  then (true, mk (capacity tb) (wrap64 (tokens tb - 1)) (refillRate tb)
                 (lastRefill tb))
  else (false, tb).

(** [tokenBucket.SetRate] *)
Definition SetRate (now : time.Time) (rate : float64) (tb : t) : t :=
  let tb := refill now tb in
  mk (capacity tb) (tokens tb) rate (lastRefill tb).

(** [tokenBucket.GetTokens] *)
Definition GetTokens (now : time.Time) (tb : t) : Z * t :=
  let tb := refill now tb in
  (tokens tb, tb).

(** [tokenBucket.GetCapacity] *)
Definition GetCapacity (tb : t) : Z := capacity tb.

End tokenBucket.

(** The desensitiser. *)
Module desensitizer.

Record patternInfo : Type := mkPattern {
  regex : regexp.Regexp;
  replacement : string;
}.

Record t : Type := mk {
  patterns : gmap string patternInfo;
}.

(** [desensitizer.AddPattern]; [compiled] is the result of
    [regexp.Compile] on the pattern text, [None] when it fails. *)
Definition AddPattern (name : string) (compiled : option regexp.Regexp)
           (replacement : string) (d : t) : t :=
  match compiled with
  | None => d
  | Some re => mk (<[name := mkPattern re replacement]> (patterns d))
  end.

Import regexp.

(** [\b\d{11}\b] *)
Definition phone : Regexp :=
  [WordBoundary; Repeat digit 11 (Some 11%nat); WordBoundary].

(** [\b[A-Za-z0-9._%+-]+@[A-Za-z0-9.-]+\.[A-Z|a-z]{2,}\b] *)
Definition email : Regexp :=
  [WordBoundary;
   Repeat (fun c => alnum c || oneOf ["."; "_"; "%"; "+"; "-"]%char c)
          1 None;
   Lit "@";
   Repeat (fun c => alnum c || oneOf ["."; "-"]%char c) 1 None;
   Lit ".";
   Repeat (fun c => upper c || lower c || Ascii.eqb c "|") 2 None;
   WordBoundary].

(** [\b[A-Za-z0-9]{20,}\b] *)
Definition token : Regexp :=
  [WordBoundary; Repeat alnum 20 None; WordBoundary].

(** [\b\d{1,3}\.\d{1,3}\.\d{1,3}\.\d{1,3}\b] *)
Definition ip : Regexp :=
  [WordBoundary;
   Repeat digit 1 (Some 3%nat); Lit ".";
   Repeat digit 1 (Some 3%nat); Lit ".";
   Repeat digit 1 (Some 3%nat); Lit ".";
   Repeat digit 1 (Some 3%nat);
   WordBoundary].

(** [[0-9a-fA-F]{8}-[0-9a-fA-F]{4}-[0-9a-fA-F]{4}-[0-9a-fA-F]{4}-[0-9a-fA-F]{12}] *)
Definition uuid : Regexp :=
  [Repeat hex 8 (Some 8%nat); Lit "-";
   Repeat hex 4 (Some 4%nat); Lit "-";
   Repeat hex 4 (Some 4%nat); Lit "-";
   Repeat hex 4 (Some 4%nat); Lit "-";
   Repeat hex 12 (Some 12%nat)].

(** [\b\d{4}[- ]?\d{4}[- ]?\d{4}[- ]?\d{4}\b] *)
Definition creditcard : Regexp :=
  let sep := Repeat (oneOf ["-"; " "]%char) 0 (Some 1%nat) in
  [WordBoundary;
   Repeat digit 4 (Some 4%nat); sep;
   Repeat digit 4 (Some 4%nat); sep;
   Repeat digit 4 (Some 4%nat); sep;
   Repeat digit 4 (Some 4%nat);
   WordBoundary].

(** [NewDesensitizer] *)
Definition NewDesensitizer : t :=
  AddPattern "creditcard" (Some creditcard) "[CARD]"
    (AddPattern "uuid" (Some uuid) "[UUID]"
       (AddPattern "ip" (Some ip) "[IP]"
          (AddPattern "token" (Some token) "[TOKEN]"
             (AddPattern "email" (Some email) "[EMAIL]"
                (AddPattern "phone" (Some phone) "[PHONE]" (mk ∅)))))).

(** The default rules and the replacement markers. *)
Definition rules : list (string * patternInfo) :=
  [("phone", mkPattern phone "[PHONE]");
   ("email", mkPattern email "[EMAIL]");
   ("token", mkPattern token "[TOKEN]");
   ("ip", mkPattern ip "[IP]");
   ("uuid", mkPattern uuid "[UUID]");
   ("creditcard", mkPattern creditcard "[CARD]")].

Definition markers : list string :=
  ["[PHONE]"; "[EMAIL]"; "[TOKEN]"; "[IP]"; "[UUID]"; "[CARD]"].

(** One iteration of the loop of [Desensitize]. *)
Definition applyPattern (d : t) (result : string) (name : string) : string :=
  match patterns d !! name with
  | None => result
  | Some pattern =>
      ReplaceAllString (regex pattern) result (replacement pattern)
  end.

(** [desensitizer.Desensitize]; [order] is the order in which
    [range d.patterns] yields the pattern names. *)
Definition Desensitize (order : list string) (text : string) (d : t)
  : string :=
  if decide (text = "") then text
  else fold_left (applyPattern d) order text.

End desensitizer.

End utils.

(** ** Package [vector]: the data-plane vector agent *)

Module EmbeddingService.
(** The [interfaces.EmbeddingService] methods the core calls. *)
Record t : Type := mk {
  EmbedText : string -> result (list float32);
  PreprocessText : string -> string;
}.
End EmbeddingService.

Module vector.

Record vectorAgent : Type := mkAgent {
  embeddingService : option EmbeddingService.t;
  clusters : gmap string Cluster.t;
  cache : utils.cache;
  similarityThreshold : float64;
}.

(** [NewVectorAgent] *)
Definition NewVectorAgent (embeddingService : option EmbeddingService.t)
           (cache : utils.cache) : vectorAgent :=
  mkAgent embeddingService ∅ cache 0.82%float.

(** [vectorAgent.GenerateVector] *)
Definition GenerateVector (text : string) (va : vectorAgent)
  : result (list float32) :=
  match embeddingService va with
  | None => Err "embedding service not available"
  | Some es =>
      EmbeddingService.EmbedText es (EmbeddingService.PreprocessText es text)
  end.

(** One iteration of the loop of [findMostSimilarCluster]. *)
Definition findStep (va : vectorAgent) (vector : list float32)
           (best : string * float64) (clusterID : string)
  : string * float64 :=
  match clusters va !! clusterID with
  | None => best
  | Some cluster =>
      if Nat.eqb (length (Cluster.Centroid cluster)) 0 then best
      else
        let similarity :=
          utils.CosineSimilarity vector (Cluster.Centroid cluster) in
        if PrimFloat.ltb (snd best) similarity
           && PrimFloat.leb (similarityThreshold va) similarity
        then (clusterID, similarity)
        else best
  end.

(** [vectorAgent.findMostSimilarCluster]; [order] is the order in which
    [range va.clusters] yields the cluster ids. *)
Definition findMostSimilarCluster (order : list string)
           (vector : list float32) (va : vectorAgent) : string :=
  fst (fold_left (findStep va vector) order ("", 0%float)).

(** [vectorAgent.IdentifyCluster] *)
Definition IdentifyCluster (now : time.Time) (order : list string)
           (errorSignature : string) (va : vectorAgent)
  : result string * vectorAgent :=
  if decide (errorSignature = "") then (Ok "", va)
  else
    let '(cached, c) := utils.Get now errorSignature (cache va) in
    let va :=
      mkAgent (embeddingService va) (clusters va) c (similarityThreshold va) in
    match cached with
    | Some clusterID => (Ok clusterID, va)
    | None =>
        match GenerateVector errorSignature va with
        | Err e => (Err ("failed to generate vector: " +:+ e), va)
        | Ok vector =>
            let clusterID := findMostSimilarCluster order vector va in
            if decide (clusterID = "") then (Ok clusterID, va)
            else
              (Ok clusterID,
               mkAgent (embeddingService va) (clusters va)
                 (utils.Set_ now errorSignature clusterID 300 (cache va))
                 (similarityThreshold va))
        end
    end.

(** The deep copy of a cluster made by [UpdateClusters] and [GetCluster]. *)
Definition clusterCopy (cluster : Cluster.t) : Cluster.t :=
  Cluster.mk (Cluster.ID cluster) (Cluster.Centroid cluster)
             (Cluster.Members cluster) (Cluster.ErrorCount cluster)
             (Cluster.CreateTime cluster) (Cluster.UpdateTime cluster)
             (Cluster.Severity cluster) (Cluster.Description cluster).

(** [vectorAgent.UpdateClusters] *)
Definition UpdateClusters (newClusters : gmap string Cluster.t)
           (va : vectorAgent) : error * vectorAgent :=
  (None,
   mkAgent (embeddingService va) (clusterCopy <$> newClusters)
           (utils.Clear (cache va)) (similarityThreshold va)).

(** [vectorAgent.getClusterCount] *)
Definition getClusterCount (va : vectorAgent) : Z :=
  Z.of_nat (size (clusters va)).

(** [vectorAgent.setSimilarityThreshold] *)
Definition setSimilarityThreshold (threshold : float64) (va : vectorAgent)
  : vectorAgent :=
  mkAgent (embeddingService va) (clusters va) (cache va) threshold.

(** The similarity [findMostSimilarCluster] computes for [clusterID]:
    [None] when the loop skips it. *)
Definition similarityOf (va : vectorAgent) (vector : list float32)
           (clusterID : string) : option float64 :=
  match clusters va !! clusterID with
  | None => None
  | Some cluster =>
      if Nat.eqb (length (Cluster.Centroid cluster)) 0 then None
      else Some (utils.CosineSimilarity vector (Cluster.Centroid cluster))
  end.

End vector.

(** ** Package [middleware]: the circuit-breaker handler *)

Module middleware.

(** The part of the [gin.Context] the handler reads and writes: the value
    stored under the key ["error"] (the text of its [Error()]) and the value
    stored under ["cluster_id"]. *)
Record Context : Type := mkCtx {
  ctx_error : option string;
  ctx_cluster_id : option string;
}.

(** The fields of [Middleware] the handler uses; [None] is a [nil]
    interface. *)
Record Middleware : Type := mkMiddleware {
  circuitBreaker : option breaker.clusterCircuitBreaker;
  vectorAgent : option vector.vectorAgent;
}.

(** [utils.ExtractErrorSignature] *)
Definition ExtractErrorSignature (c : Context) : string :=
  match ctx_error c with
  | Some e => e
  | None => ""
  end.

(** What the handler does with the request. *)
Inductive Decision : Type :=
| Next                                  (* [c.Next()] is called *)
| Abort (status : Z) (code : string).   (* [c.JSON(status, ...); c.Abort()] *)

(** The cluster id the handler computes before it asks the breaker. *)
Definition identify (now : time.Time) (order : list string) (c : Context)
           (m : Middleware) : string * option vector.vectorAgent :=
  match vectorAgent m with
  | None => ("", None)
  | Some va =>
      let errorSignature := ExtractErrorSignature c in
      if decide (errorSignature = "") then ("", Some va)
      else
        match vector.IdentifyCluster now order errorSignature va with
        | (Ok id, va') => (id, Some va')
        | (Err _, va') => ("", Some va')
        end
  end.

(** The handler of [Middleware.CircuitBreaker] up to and including the
    admission decision. *)
Definition CircuitBreaker_admit (now : time.Time) (order : list string)
           (c : Context) (m : Middleware)
  : Decision * string * Context * Middleware :=
  match circuitBreaker m with
  | None => (Next, "", c, m)
  | Some ccb =>
      let '(clusterID, va) := identify now order c m in
      let '(ok, ccb') := breaker.Allow now clusterID ccb in
      let m' := mkMiddleware (Some ccb') va in
      if ok
      then (Next, clusterID, mkCtx (ctx_error c) (Some clusterID), m')
      else (Abort 503 "CIRCUIT_BREAKER_OPEN", clusterID, c, m')
  end.

(** The handler after [c.Next()] has returned with response [status]. *)
Definition CircuitBreaker_record (now : time.Time) (clusterID : string)
           (status : Z) (m : Middleware) : Middleware :=
  match circuitBreaker m with
  | None => m
  | Some ccb =>
      let ccb' :=
        if 500 <=? status
        then snd (breaker.RecordFailure now clusterID ccb)
        else snd (breaker.RecordSuccess now clusterID ccb) in
      mkMiddleware (Some ccb') (vectorAgent m)
  end.

(** The whole handler of [Middleware.CircuitBreaker]: [next] is the rest of
    the chain, which returns the response status and the context; [now'] is
    the instant at which the outcome is recorded. *)
Definition CircuitBreaker (now : time.Time) (order : list string)
           (next : Context -> Z * Context) (now' : time.Time)
           (c : Context) (m : Middleware) : Z * Context * Middleware :=
  match CircuitBreaker_admit now order c m with
  | (Abort status _, _, c', m') => (status, c', m')
  | (Next, clusterID, c', m') =>
      let '(status, c'') := next c' in
      (status, c'', CircuitBreaker_record now' clusterID status m')
  end.

(** The handler of [Middleware.ErrorSampling]: [next] returns the response
    status, the texts of [c.Errors] and the context; [sampler] tells whether
    an error sampler is set; [StatusText] is [http.StatusText].  The error is
    stored under ["error"] after the rest of the chain has run. *)
Definition ErrorSampling (sampler : bool) (StatusText : Z -> string)
           (next : Context -> Z * list string * Context) (c : Context)
  : Z * Context :=
  let '(status, errors, c') := next c in
  if (negb (Nat.eqb (length errors) 0) || (400 <=? status)) && sampler
  then
    let err := match List.last (Some <$> errors) None with
               | Some e => e
               | None => StatusText status
               end in
    (status, mkCtx (Some err) (ctx_cluster_id c'))
  else (status, c').

End middleware.

(** ** Package [limiter]: the token bucket of the rate limiter *)

Module limiter.

Module TokenBucket.

Record t : Type := mk {
  capacity : Z;
  tokens : Z;
  refillRate : float64;
  lastRefill : time.Time;
}.

(** [NewTokenBucket] *)
Definition NewTokenBucket (now : time.Time) (capacity : Z)
           (refillRate : float64) : t :=
  mk capacity capacity refillRate now.

(** The number of tokens [refill] adds: [int64(elapsed * refillRate)]. *)
Definition tokensToAdd (now : time.Time) (tb : t) : Z :=
  int64_of_float64
    (PrimFloat.mul (time.Seconds (time.Sub now (lastRefill tb)))
                   (refillRate tb)).

(** [TokenBucket.refill] *)
Definition refill (now : time.Time) (tb : t) : t :=
  let elapsed := time.Seconds (time.Sub now (lastRefill tb)) in
  if PrimFloat.ltb 0%float elapsed then
    let tokens := wrap64 (tokens tb + tokensToAdd now tb) in
    let tokens := if capacity tb <? tokens then capacity tb else tokens in
    mk (capacity tb) tokens (refillRate tb) now
  else tb.

(** [TokenBucket.Allow] *)
Definition Allow (now : time.Time) (tb : t) : bool * t :=
  let tb := refill now tb in
  if 0 <? tokens tb
  then (true, mk (capacity tb) (wrap64 (tokens tb - 1)) (refillRate tb)
                 (lastRefill tb))
  else (false, tb).

(** [TokenBucket.AllowN] *)
Definition AllowN (now : time.Time) (n : Z) (tb : t) : bool * t :=
  let tb := refill now tb in
  if n <=? tokens tb
  then (true, mk (capacity tb) (wrap64 (tokens tb - n)) (refillRate tb)
                 (lastRefill tb))
  else (false, tb).

(** [TokenBucket.SetRate] *)
Definition SetRate (rate : float64) (tb : t) : t :=
  mk (capacity tb) (tokens tb) rate (lastRefill tb).

(** [TokenBucket.GetTokens] *)
Definition GetTokens (now : time.Time) (tb : t) : Z * t :=
  let tb := refill now tb in
  (tokens tb, tb).

(** [TokenBucket.GetRate] *)
Definition GetRate (tb : t) : float64 := refillRate tb.

(** [TokenBucket.IsEmpty] *)
Definition IsEmpty (now : time.Time) (tb : t) : bool * t :=
  let tb := refill now tb in
  (tokens tb =? 0, tb).

(** [TokenBucket.IsFull] *)
Definition IsFull (now : time.Time) (tb : t) : bool * t :=
  let tb := refill now tb in
  (tokens tb =? capacity tb, tb).

(** [TokenBucket.GetCapacity] *)
Definition GetCapacity (tb : t) : Z := capacity tb.

(** [TokenBucket.Reset] *)
Definition Reset (now : time.Time) (tb : t) : t :=
  mk (capacity tb) (capacity tb) (refillRate tb) now.

(** [TokenBucket.SetCapacity] *)
Definition SetCapacity (capacity : Z) (tb : t) : t :=
  mk capacity (if capacity <? tokens tb then capacity else tokens tb)
     (refillRate tb) (lastRefill tb).

(** A sequence of [Allow] calls at the instants [times]: the answers and
    the final bucket. *)
Fixpoint run (times : list time.Time) (tb : t) : list bool * t :=
  match times with
  | [] => ([], tb)
  | now :: rest =>
      let '(ok, tb') := Allow now tb in
      let '(oks, tb'') := run rest tb' in
      (ok :: oks, tb'')
  end.

(** The number of calls of [run] that answer [true]. *)
Definition admitted (times : list time.Time) (tb : t) : Z :=
  Z.of_nat (length (filter (fun b => b = true) (fst (run times tb)))).




(** The operations of a [TokenBucket] that change it. *)
Inductive op : Type :=
| OpAllow (now : time.Time)
| OpAllowN (now : time.Time) (n : Z)
| OpSetRate (rate : float64)
| OpGetTokens (now : time.Time)
| OpIsEmpty (now : time.Time)
| OpIsFull (now : time.Time)
| OpReset (now : time.Time)
| OpSetCapacity (capacity : Z).

Definition step (o : op) (tb : t) : t :=
  match o with
  | OpAllow now => snd (Allow now tb)
  | OpAllowN now n => snd (AllowN now n tb)
  | OpSetRate rate => SetRate rate tb
  | OpGetTokens now => snd (GetTokens now tb)
  | OpIsEmpty now => snd (IsEmpty now tb)
  | OpIsFull now => snd (IsFull now tb)
  | OpReset now => Reset now tb
  | OpSetCapacity capacity => SetCapacity capacity tb
  end.

Definition steps (ops : list op) (tb : t) : t :=
  fold_left (fun tb o => step o tb) ops tb.

(** [AllowN] is asked for a non-negative number of tokens, and a capacity
    is an [int64]. *)
Definition legal (o : op) : Prop :=
  match o with
  | OpAllowN _ n => 0 <= n
  | OpSetCapacity capacity => min_int64 <= capacity <= max_int64
  | _ => True
  end.

(** A bucket of package [utils] read as a bucket of this package. *)
Definition ofUtils (tb : utils.tokenBucket.t) : t :=
  mk (utils.tokenBucket.capacity tb) (utils.tokenBucket.tokens tb)
     (utils.tokenBucket.refillRate tb) (utils.tokenBucket.lastRefill tb).

(** [⌊r·T⌋] for the real number the rate [r] denotes and a duration [T]
    in nanoseconds. *)
Definition floor_rate_times (r : float64) (T : Z) : Z :=
  let '(n, d) := fraction_of_float64 r in
  (n * T) / (d * time.Second).

(** The floating-point arithmetic of [refill] at [now] is exact enough:
    [elapsed > 0] holds exactly when time has passed, and then the number
    of tokens added is non-negative and at most the floor of the exact
    product. *)
Definition refill_exact (now : time.Time) (tb : t) : bool :=
  let d := time.Sub now (lastRefill tb) in
  Bool.eqb (PrimFloat.ltb 0%float (time.Seconds d)) (0 <? d)
  && (if 0 <? d
      then (0 <=? tokensToAdd now tb)
           && (tokensToAdd now tb <=? floor_rate_times (refillRate tb) d)
      else true).

(** [refill_exact] at every call of [run]. *)
Fixpoint run_exact (times : list time.Time) (tb : t) : bool :=
  match times with
  | [] => true
  | now :: rest => refill_exact now tb && run_exact rest (snd (Allow now tb))
  end.

(** The instants [times] do not decrease, starting from [from]. *)
Fixpoint monotone (from : time.Time) (times : list time.Time) : Prop :=
  match times with
  | [] => True
  | now :: rest => from <= now /\ monotone now rest
  end.

End TokenBucket.

End limiter.

(** ** Package [clustering]: the control-plane clustering engine *)

Module clustering.

Record clusteringEngine : Type := mkEngine {
  config : ClusteringConfig.t;
  embeddingService : EmbeddingService.t;
  vectorDB : gmap string (list float32);
  clusters : gmap string Cluster.t;
  memberToCluster : gmap string string;
}.

Definition with_clusters (cs : gmap string Cluster.t)
           (m2c : gmap string string) (db : gmap string (list float32))
           (ce : clusteringEngine) : clusteringEngine :=
  mkEngine (config ce) (embeddingService ce) db cs m2c.

(** [vectorDB.AddVector]: [dbErr] is the error the store returns; the
    engine only logs it. *)
Definition AddVector (dbErr : error) (id : string) (vector : list float32)
           (db : gmap string (list float32)) : gmap string (list float32) :=
  match dbErr with
  | None => <[id := vector]> db
  | Some _ => db
  end.

(** [clusteringEngine.buildErrorSignature] *)
Definition buildErrorSignature (event : ErrorEvent.t) : string :=
  let signature :=
    "service:" +:+ ErrorEvent.ServiceName event
    +:+ " method:" +:+ ErrorEvent.Method event
    +:+ " path:" +:+ ErrorEvent.RequestPath event
    +:+ " error:" +:+ ErrorEvent.ErrorMessage event in
  match ErrorEvent.StackTrace event with
  | [] => signature
  | f0 :: rest =>
      let signature := signature +:+ " stack:" +:+ f0 in
      match rest with
      | [] => signature
      | f1 :: _ => signature +:+ " " +:+ f1
      end
  end.

(** [clusteringEngine.generateClusterDescription]; at the bound 100
    [Truncate] cannot panic. *)
Definition generateClusterDescription (event : ErrorEvent.t) : string :=
  "Service: " +:+ ErrorEvent.ServiceName event
  +:+ ", Method: " +:+ ErrorEvent.Method event
  +:+ ", Error: "
  +:+ default "" (utils.Truncate (ErrorEvent.ErrorMessage event) 100).

(** One iteration of the loop of [FindMostSimilarCluster]. *)
Definition findStep (ce : clusteringEngine) (vector : list float32)
           (best : string * float64) (clusterID : string)
  : string * float64 :=
  match clusters ce !! clusterID with
  | None => best
  | Some cluster =>
      if Nat.eqb (length (Cluster.Centroid cluster)) 0 then best
      else
        let similarity :=
          utils.CosineSimilarity vector (Cluster.Centroid cluster) in
        if PrimFloat.ltb (snd best) similarity
        then (clusterID, similarity)
        else best
  end.

(** [clusteringEngine.FindMostSimilarCluster]; [order] is the order in
    which [range ce.clusters] yields the cluster ids.  The returned error
    is always [nil]. *)
Definition FindMostSimilarCluster (order : list string)
           (vector : list float32) (ce : clusteringEngine)
  : string * float64 * error :=
  (fold_left (findStep ce vector) order ("", 0%float), None).

(** [clusteringEngine.CreateNewCluster]; [newID] is the identifier that
    [utils.GenerateClusterID] draws. *)
Definition CreateNewCluster (now : time.Time) (newID : string)
           (dbErr : error) (event : ErrorEvent.t) (vector : list float32)
           (ce : clusteringEngine) : result string * clusteringEngine :=
  if ClusteringConfig.MaxClusters (config ce) <=? Z.of_nat (size (clusters ce))
  then
    (Err ("maximum number of clusters ("
          +:+ pretty (ClusteringConfig.MaxClusters (config ce))
          +:+ ") reached"), ce)
  else
    let cluster :=
      Cluster.mk newID vector [ErrorEvent.EventID event] 1 now now 0%float
                 (generateClusterDescription event) in
    (Ok newID,
     with_clusters (<[newID := cluster]> (clusters ce))
                   (<[ErrorEvent.EventID event := newID]> (memberToCluster ce))
                   (AddVector dbErr (ErrorEvent.EventID event) vector
                              (vectorDB ce))
                   ce).

(** [clusteringEngine.updateCentroid]; [members] is the member list after
    the new event has been appended. *)
Definition updateCentroid (members : list string) (centroid : list float32)
           (newVector : list float32) : list float32 :=
  if negb (Nat.eqb (length centroid) (length newVector)) then centroid
  else
    let n := float32_of_int (Z.of_nat (length members)) in
    zip_with
      (fun c v =>
         f32_div (f32_add (f32_mul c (f32_sub n (float32_of_int 1))) v) n)
      centroid newVector.

(** [clusteringEngine.addEventToCluster] *)
Definition addEventToCluster (now : time.Time) (dbErr : error)
           (clusterID : string) (event : ErrorEvent.t)
           (vector : list float32) (ce : clusteringEngine)
  : error * clusteringEngine :=
  match clusters ce !! clusterID with
  | None => (Some ("cluster not found: " +:+ clusterID), ce)
  | Some cluster =>
      let members :=
        (Cluster.Members cluster ++ [ErrorEvent.EventID event])%list in
      let cluster' :=
        Cluster.mk (Cluster.ID cluster)
          (updateCentroid members (Cluster.Centroid cluster) vector)
          members
          (wrap64 (Cluster.ErrorCount cluster + 1))
          (Cluster.CreateTime cluster) now
          (Cluster.Severity cluster) (Cluster.Description cluster) in
      (None,
       with_clusters (<[clusterID := cluster']> (clusters ce))
                     (<[ErrorEvent.EventID event := clusterID]>
                        (memberToCluster ce))
                     (AddVector dbErr (ErrorEvent.EventID event) vector
                                (vectorDB ce))
                     ce)
  end.

Definition set_ClusterID (id : string) (e : ErrorEvent.t) : ErrorEvent.t :=
  ErrorEvent.mk (ErrorEvent.EventID e) (ErrorEvent.TraceID e)
    (ErrorEvent.SpanID e) (ErrorEvent.RequestPath e) (ErrorEvent.Method e)
    (ErrorEvent.ServiceName e) (ErrorEvent.StatusCode e)
    (ErrorEvent.ErrorMessage e) (ErrorEvent.StackTrace e)
    (ErrorEvent.Timestamp e) id.

(** [clusteringEngine.ProcessErrorEvent]; the event is passed by pointer,
    so the updated event is returned with the engine. *)
Definition ProcessErrorEvent (now : time.Time) (order : list string)
           (newID : string) (dbErr : error) (event : ErrorEvent.t)
           (ce : clusteringEngine)
  : error * ErrorEvent.t * clusteringEngine :=
  let errorText := buildErrorSignature event in
  match EmbeddingService.EmbedText (embeddingService ce) errorText with
  | Err e => (Some ("failed to embed text: " +:+ e), event, ce)
  | Ok vector =>
      match FindMostSimilarCluster order vector ce with
      | (_, _, Some e) =>
          (Some ("failed to find similar cluster: " +:+ e), event, ce)
      | (clusterID, similarity, None) =>
          if bool_decide (clusterID = "")
             || PrimFloat.ltb similarity
                  (ClusteringConfig.SimilarityThreshold (config ce))
          then
            match CreateNewCluster now newID dbErr event vector ce with
            | (Err e, ce') =>
                (Some ("failed to create new cluster: " +:+ e), event, ce')
            | (Ok newClusterID, ce') =>
                (None, set_ClusterID newClusterID event, ce')
            end
          else
            match addEventToCluster now dbErr clusterID event vector ce with
            | (Some e, ce') =>
                (Some ("failed to add event to cluster: " +:+ e), event, ce')
            | (None, ce') => (None, set_ClusterID clusterID event, ce')
            end
      end
  end.

(** [NewClusteringEngine] *)
Definition NewClusteringEngine (config : ClusteringConfig.t)
           (embeddingService : EmbeddingService.t)
           (vectorDB : gmap string (list float32)) : clusteringEngine :=
  mkEngine config embeddingService vectorDB ∅ ∅.

(** [clusteringEngine.GetCluster] *)
Definition GetCluster (clusterID : string) (ce : clusteringEngine)
  : result Cluster.t :=
  match clusters ce !! clusterID with
  | None => Err ("cluster not found: " +:+ clusterID)
  | Some cluster => Ok (vector.clusterCopy cluster)
  end.

(** [clusteringEngine.GetAllClusters]; the returned error is always [nil]. *)
Definition GetAllClusters (ce : clusteringEngine) : gmap string Cluster.t :=
  vector.clusterCopy <$> clusters ce.

(** One call of [ProcessErrorEvent] with what it draws from outside: the
    clock, the order of the [range] loop, the identifier
    [utils.GenerateClusterID] would return, and the answer of the vector
    store. *)
Record request : Type := mkRequest {
  req_now : time.Time;
  req_order : list string;
  req_newID : string;
  req_dbErr : error;
  req_event : ErrorEvent.t;
}.

(** The engine after a sequence of [ProcessErrorEvent] calls. *)
Definition processAll (reqs : list request) (ce : clusteringEngine)
  : clusteringEngine :=
  fold_left
    (fun ce r =>
       snd (ProcessErrorEvent (req_now r) (req_order r) (req_newID r)
                              (req_dbErr r) (req_event r) ce))
    reqs ce.

(** The book-keeping of the engine: every cluster is filed under its own
    id and counts as many errors as it has members, and every event is
    mapped to a cluster that lists it. *)
Definition consistent (ce : clusteringEngine) : Prop :=
  (forall k c,
      clusters ce !! k = Some c ->
      Cluster.ID c = k
      /\ Cluster.ErrorCount c
         = wrap64 (Z.of_nat (length (Cluster.Members c))))
  /\ (forall e k,
        memberToCluster ce !! e = Some k ->
        exists c, clusters ce !! k = Some c /\ e ∈ Cluster.Members c).

(** The similarity [FindMostSimilarCluster] computes for [clusterID]:
    [None] when the loop skips it. *)
Definition similarityOf (ce : clusteringEngine) (vector : list float32)
           (clusterID : string) : option float64 :=
  match clusters ce !! clusterID with
  | None => None
  | Some cluster =>
      if Nat.eqb (length (Cluster.Centroid cluster)) 0 then None
      else Some (utils.CosineSimilarity vector (Cluster.Centroid cluster))
  end.

End clustering.

(** ** Package [config]: the policy watcher *)

Module config.

Inductive EventType : Type := EventTypePut | EventTypeDelete.

(** A key-value pair of the store.  [Value] is the outcome of
    [json.Unmarshal] on the stored bytes: [None] when decoding fails. *)
Record KeyValue : Type := mkKV {
  Key : string;
  Value : option Policy.t;
}.

Record Event : Type := mkEvent {
  Type_ : EventType;
  Kv : KeyValue;
}.

(** A registered [PolicyUpdateCallback] is identified by a name. *)
Record configWatcher : Type := mkWatcher {
  policies : gmap string Policy.t;
  callbacks : list string;
}.

(** A callback invocation started by the watcher. *)
Inductive Notification : Type :=
| OnPolicyUpdate (callback : string) (clusterID : string) (policy : Policy.t)
| OnPolicyDelete (callback : string) (clusterID : string).

(** [strings.TrimPrefix] *)
Definition TrimPrefix (s prefix : string) : string :=
  if String.prefix prefix s
  then String.substring (String.length prefix)
                        (String.length s - String.length prefix) s
  else s.

(** [configWatcher.GetPolicy]; the returned error is always [nil]. *)
Definition GetPolicy (now : time.Time) (clusterID : string)
           (cw : configWatcher) : option Policy.t :=
  match policies cw !! clusterID with
  | None => None
  | Some policy =>
      if time.After now (Policy.ExpireTime policy) then None
      else Some policy
  end.

(** [configWatcher.RegisterCallback] *)
Definition RegisterCallback (callback : string) (cw : configWatcher)
  : configWatcher :=
  mkWatcher (policies cw) (callbacks cw ++ [callback])%list.

(** [configWatcher.notifyPolicyUpdate] *)
Definition notifyPolicyUpdate (clusterID : string) (policy : Policy.t)
           (cw : configWatcher) : list Notification :=
  map (fun cb => OnPolicyUpdate cb clusterID policy) (callbacks cw).

(** [configWatcher.notifyPolicyDelete] *)
Definition notifyPolicyDelete (clusterID : string) (cw : configWatcher)
  : list Notification :=
  map (fun cb => OnPolicyDelete cb clusterID) (callbacks cw).

(** The loop body of [loadExistingPolicies] for one key-value pair. *)
Definition loadOne (acc : configWatcher * list Notification) (kv : KeyValue)
  : configWatcher * list Notification :=
  let '(cw, out) := acc in
  let clusterID := TrimPrefix (Key kv) "/policies/" in
  match Value kv with
  | None => (cw, out)
  | Some policy =>
      let cw' := mkWatcher (<[clusterID := policy]> (policies cw))
                           (callbacks cw) in
      (cw', (out ++ notifyPolicyUpdate clusterID policy cw')%list)
  end.

(** [configWatcher.loadExistingPolicies]; [resp] is the answer of the
    store to the prefix read. *)
Definition loadExistingPolicies (resp : result (list KeyValue))
           (cw : configWatcher) : error * configWatcher * list Notification :=
  match resp with
  | Err e => (Some e, cw, [])
  | Ok kvs =>
      let '(cw', out) := fold_left loadOne kvs (cw, []) in
      (None, cw', out)
  end.

(** [configWatcher.handleConfigEvent] *)
Definition handleConfigEvent (event : Event) (cw : configWatcher)
  : configWatcher * list Notification :=
  let clusterID := TrimPrefix (Key (Kv event)) "/policies/" in
  match Type_ event with
  | EventTypePut =>
      match Value (Kv event) with
      | None => (cw, [])
      | Some policy =>
          let cw' := mkWatcher (<[clusterID := policy]> (policies cw))
                               (callbacks cw) in
          (cw', notifyPolicyUpdate clusterID policy cw')
      end
  | EventTypeDelete =>
      let cw' := mkWatcher (delete clusterID (policies cw)) (callbacks cw) in
      (cw', notifyPolicyDelete clusterID cw')
  end.

(** The watcher that [NewConfigWatcher] returns: no policy, no callback. *)
Definition NewConfigWatcher : configWatcher := mkWatcher ∅ [].

(** The watch loop on a sequence of events. *)
Definition handleEvents (events : list Event) (cw : configWatcher)
  : configWatcher * list Notification :=
  fold_left (fun acc event =>
               let '(cw', out) := handleConfigEvent event (fst acc) in
               (cw', (snd acc ++ out)%list))
            events (cw, []).

(** [configWatcher.WatchPolicyUpdates] up to the start of the watch loop: the
    error of the initial load is logged and [nil] is returned. *)
Definition WatchPolicyUpdates (resp : result (list KeyValue))
           (cw : configWatcher) : error * configWatcher * list Notification :=
  let '(_, cw', out) := loadExistingPolicies resp cw in
  (None, cw', out).

(** [configWatcher.Start] *)
Definition Start (resp : result (list KeyValue)) (cw : configWatcher)
  : error * configWatcher * list Notification :=
  WatchPolicyUpdates resp cw.

End config.

(** ** Package [gateway]: the policy callback of the gateway *)

Module gateway.

(** The gateway registers itself with the watcher; [OnPolicyUpdate] hands
    the policy to the rate limiter and to the circuit breaker and returns
    [nil] whatever they answer.  The cluster rate limiter is an interface
    value; its state type [L] and its [UpdatePolicy] are arguments. *)
Record Gateway (L : Type) : Type := mkGateway {
  rateLimiter : L;
  circuitBreaker : breaker.clusterCircuitBreaker;
}.
Arguments mkGateway {L} _ _.
Arguments rateLimiter {L} _.
Arguments circuitBreaker {L} _.

Definition OnPolicyUpdate {L : Type}
           (limiter_UpdatePolicy : string -> Policy.t -> L -> error * L)
           (now : time.Time) (clusterID : string) (policy : Policy.t)
           (g : Gateway L) : error * Gateway L :=
  let '(_, l') := limiter_UpdatePolicy clusterID policy (rateLimiter g) in
  let '(_, b') :=
    breaker.UpdatePolicy now clusterID (Some policy) (circuitBreaker g) in
  (None, mkGateway l' b').

(** [Gateway.OnPolicyDelete] *)
Definition OnPolicyDelete {L : Type} (clusterID : string) (g : Gateway L)
  : error * Gateway L :=
  (None, g).

(** The gateway's callback run on one notification of the watcher. *)
Definition deliver {L : Type}
           (limiter_UpdatePolicy : string -> Policy.t -> L -> error * L)
           (now : time.Time) (n : config.Notification) (g : Gateway L)
  : Gateway L :=
  match n with
  | config.OnPolicyUpdate _ clusterID policy =>
      snd (OnPolicyUpdate limiter_UpdatePolicy now clusterID policy g)
  | config.OnPolicyDelete _ clusterID => snd (OnPolicyDelete clusterID g)
  end.

(** The part of [Gateway.Start] that concerns the watcher: the error sampler
    is started ([samplerErr] is what it returns), then the watcher, and only
    then the gateway registers itself as a callback. *)
Definition Start (samplerErr : error) (resp : result (list config.KeyValue))
           (cw : config.configWatcher)
  : error * config.configWatcher * list config.Notification :=
  match samplerErr with
  | Some e => (Some ("failed to start error sampler: " +:+ e), cw, [])
  | None =>
      match config.Start resp cw with
      | (Some e, cw', out) =>
          (Some ("failed to start config watcher: " +:+ e), cw', out)
      | (None, cw', out) =>
          (None, config.RegisterCallback "gateway" cw', out)
      end
  end.

(** The gateway's callback run on the notifications of the watcher, one
    after the other. *)
Definition deliverAll {L : Type}
           (limiter_UpdatePolicy : string -> Policy.t -> L -> error * L)
           (now : time.Time) (out : list config.Notification) (g : Gateway L)
  : Gateway L :=
  fold_left (fun g n => deliver limiter_UpdatePolicy now n g) out g.

End gateway.

(** ** Enumeration orders of a map *)

(** [order] is an order in which [range m] can yield the keys of [m]: every
    key once. *)
Definition rangeOrder {A : Type} (m : gmap string A) (order : list string)
  : Prop :=
  order ≡ₚ elements (dom m).

(** The loop of the two cluster lookups, abstracted over what it computes
    for a key ([simOf]) and over the extra admission test ([ok]). *)
Definition scanStep (simOf : string -> option float64) (ok : float64 -> bool)
           (best : string * float64) (k : string) : string * float64 :=
  match simOf k with
  | None => best
  | Some sim => if PrimFloat.ltb (snd best) sim && ok sim then (k, sim) else best
  end.

(** ** Concrete scenarios *)

Module scenario.

(** A breaker configuration: three failures trip, one second to retry. *)
Definition breakerConfig : BreakerConfig.t :=
  BreakerConfig.mk 3 1000000000 0.5%float.

(** A rate-limit policy for cluster ["k"]; it registers the cluster with
    the breaker without touching its thresholds. *)
Definition rateLimitPolicy : Policy.t :=
  Policy.mk "p1" "k" PolicyTypeRateLimit 0.5%float
            (Some (RateLimitPolicy.mk 0.5%float 60000000000)) None
            0 60000000000 true.

(** The breaker after the policy for ["k"] has arrived at instant 0. *)
Definition registered : breaker.clusterCircuitBreaker :=
  snd (breaker.UpdatePolicy 0 "k" (Some rateLimitPolicy)
         (breaker.NewClusterCircuitBreaker breakerConfig)).

(** The breaker of ["k"] in [registered]. *)
Definition closedBreaker : breaker.clusterBreaker :=
  breaker.mkBreaker "k" BreakerStateClosed (Some rateLimitPolicy) 0 0 0 0
                    breakerConfig (breaker.newBreakerStats 0).

(** A half-open breaker with cleared counters. *)
Definition halfOpenBreaker : breaker.clusterBreaker :=
  breaker.mkBreaker "k" BreakerStateHalfOpen (Some rateLimitPolicy) 0 0 0 0
                    breakerConfig (breaker.newBreakerStats 0).

(** A breaker that holds [halfOpenBreaker] for cluster ["k"]. *)
Definition halfOpen : breaker.clusterCircuitBreaker :=
  breaker.mkCCB breakerConfig {[ "k" := halfOpenBreaker ]}.

(** The configuration of the repository's test: threshold 10, increment 0.2. *)
Definition testConfig : BreakerConfig.t :=
  BreakerConfig.mk 10 30000000000 0.2%float.

(** Five successes while closed, ten failures, then a probe after the
    recovery timeout: cluster ["k"] is half-open. *)
Definition probing : breaker.clusterCircuitBreaker :=
  breaker.execAll
    ([breaker.CallUpdatePolicy 0 "k" (Some rateLimitPolicy)]
       ++ map (fun t => breaker.CallRecordSuccess t "k") [1; 2; 3; 4; 5]
       ++ map (fun t => breaker.CallRecordFailure t "k")
              [11; 12; 13; 14; 15; 16; 17; 18; 19; 20]
       ++ [breaker.CallAllow 40000000000 "k"])%list
    (breaker.NewClusterCircuitBreaker testConfig).

(** The gateway's vector agent: no embedding service, an empty cache. *)
Definition agent : vector.vectorAgent := vector.NewVectorAgent None ∅.

(** The breaker after three failures of cluster ["k"]: open, to be retried
    after instant [1000000003]. *)
Definition tripped : breaker.clusterCircuitBreaker :=
  breaker.failures [1; 2; 3] "k" registered.

(** The middleware around [tripped] and [agent]. *)
Definition trippedMiddleware : middleware.Middleware :=
  middleware.mkMiddleware (Some tripped) (Some agent).

(** A request context that carries an error text. *)
Definition failingContext : middleware.Context :=
  middleware.mkCtx (Some "connection refused") None.

(** A circuit-break policy of severity 0.9 for cluster ["k"] that expired at
    instant 100. *)
Definition expiredPolicy : Policy.t :=
  Policy.mk "p2" "k" PolicyTypeCircuitBreak 0.9%float None
            (Some (CircuitBreakPolicy.mk 60000000000 0.2%float))
            0 100 true.

(** A watcher with the gateway registered as its only callback. *)
Definition watcher : config.configWatcher :=
  config.RegisterCallback "gateway" (config.mkWatcher ∅ []).

(** The store entry and the watch event that carry [expiredPolicy]. *)
Definition expiredEntry : config.KeyValue :=
  config.mkKV "/policies/k" (Some expiredPolicy).

Definition expiredPut : config.Event :=
  config.mkEvent config.EventTypePut expiredEntry.

(** A gateway whose rate limiter keeps no state. *)
Definition plainGateway : gateway.Gateway unit :=
  gateway.mkGateway tt (breaker.NewClusterCircuitBreaker breakerConfig).

Definition noLimiter (clusterID : string) (policy : Policy.t) (l : unit)
  : error * unit := (None, l).

(** Vectors of dimension two. *)
Definition e1 : list float32 := [float32_of_int 1; float32_of_int 0].
Definition e2 : list float32 := [float32_of_int 0; float32_of_int 1].

Definition clusterAt (id : string) (centroid : list float32) : Cluster.t :=
  Cluster.mk id centroid ["m0"] 1 0 0 0%float "".

(** An embedding service that maps every text to [e2]. *)
Definition embedE2 : EmbeddingService.t :=
  EmbeddingService.mk (fun _ => Ok e2) (fun text => text).

(** An engine at its limit of one cluster, whose centroid is [e1]. *)
Definition fullEngine : clustering.clusteringEngine :=
  clustering.mkEngine
    (ClusteringConfig.mk 0.82%float 3600000000000 2 1)
    embedE2 ∅ {[ "c1" := clusterAt "c1" e1 ]} {[ "m0" := "c1" ]}.

Definition event : ErrorEvent.t :=
  ErrorEvent.mk "ev1" "" "" "/api/orders" "GET" "api" 500
                "connection refused" [] 7 "".

(** An engine with two clusters ["a"] and ["b"] that share the centroid
    [e1], and a vector agent with the same snapshot. *)
Definition twinEngine : clustering.clusteringEngine :=
  clustering.mkEngine
    (ClusteringConfig.mk 0.82%float 3600000000000 2 10)
    embedE2 ∅
    (<["a" := clusterAt "a" e1]> {[ "b" := clusterAt "b" e1 ]})
    ∅.

Definition twinAgent : vector.vectorAgent :=
  vector.mkAgent None
    (<["a" := clusterAt "a" e1]> {[ "b" := clusterAt "b" e1 ]})
    ∅ 0.82%float.

(** A bucket of capacity one at one token per second, empty at instant 0. *)
Definition emptyBucket : limiter.TokenBucket.t :=
  limiter.TokenBucket.mk 1 0 1%float 0.

Definition emptyUtilsBucket : utils.tokenBucket.t :=
  utils.tokenBucket.mk 1 0 1%float 0.

(** Calls every half second for two seconds. *)
Definition halfSeconds : list time.Time :=
  [500000000; 1000000000; 1500000000; 2000000000].

(** A full bucket of capacity two at one token per second, created at
    instant 0. *)
Definition fullBucket : limiter.TokenBucket.t :=
  limiter.TokenBucket.NewTokenBucket 0 2 1%float.

(** The calls that follow a first call at instant 0: at 0 s, 0 s, 1 s,
    1.5 s, 3 s and 3 s. *)
Definition burst : list time.Time :=
  [0; 0; 1000000000; 1500000000; 3000000000; 3000000000].

(** The rules in the order of their registration, and with the UUID rule
    first. *)
Definition registrationOrder : list string :=
  ["phone"; "email"; "token"; "ip"; "uuid"; "creditcard"].

Definition uuidFirst : list string :=
  ["uuid"; "phone"; "email"; "token"; "ip"; "creditcard"].

(** Eleven digits directly followed by a UUID. *)
Definition gluedText : string :=
  "1234567890112345678-1234-1234-1234-123456789012".

(** A breaker whose cluster ["k"] holds [halfOpenBreaker] opened: the state
    after a failed probe is reached from it. *)
Definition openBreaker : breaker.clusterBreaker :=
  breaker.mkBreaker "k" BreakerStateOpen (Some rateLimitPolicy) 3 0 3
                    1000000003 breakerConfig (breaker.newBreakerStats 0).

Definition opened : breaker.clusterCircuitBreaker :=
  breaker.mkCCB breakerConfig {[ "k" := openBreaker ]}.

(** A circuit-break policy of severity 0.9 that is still valid. *)
Definition breakPolicy : Policy.t :=
  Policy.mk "p3" "k" PolicyTypeCircuitBreak 0.9%float None
            (Some (CircuitBreakPolicy.mk 60000000000 0.2%float))
            0 600000000000 true.

(** The middleware as [NewGateway] wires it: the breaker of [opened] and a
    vector agent without embedding service. *)
Definition openedMiddleware : middleware.Middleware :=
  middleware.mkMiddleware (Some opened) (Some agent).

(** An agent with an embedding service that maps every text to [e1]. *)
Definition embedE1 : EmbeddingService.t :=
  EmbeddingService.mk (fun _ => Ok e1) (fun text => text).

Definition liveAgent : vector.vectorAgent :=
  vector.mkAgent (Some embedE1)
    {[ "a" := clusterAt "a" e1; "b" := clusterAt "b" e2 ]} ∅ 0.82%float.

(** An engine with room for ten clusters and no cluster yet. *)
Definition newEngine : clustering.clusteringEngine :=
  clustering.NewClusteringEngine
    (ClusteringConfig.mk 0.82%float 3600000000000 2 10) embedE2 ∅.

Definition event2 : ErrorEvent.t :=
  ErrorEvent.mk "ev2" "" "" "/api/orders" "GET" "api" 500
                "connection refused" [] 8 "".

(** Two events with the same embedding: the first creates ["c1"], the
    second joins it. *)
Definition twoRequests : list clustering.request :=
  [clustering.mkRequest 7 [] "c1" None event;
   clustering.mkRequest 8 ["c1"] "c2" None event2].

(** An agent whose only cluster has a centroid of dimension three. *)
Definition widerAgent : vector.vectorAgent :=
  vector.mkAgent (Some embedE1)
    {[ "a" := clusterAt "a" e1;
       "w" := clusterAt "w" [float32_of_int 1; float32_of_int 0;
                             float32_of_int 0] ]} ∅ 0.82%float.



End scenario.

(** * Properties *)

(** ** Machine integers *)

Lemma wrap64_id (z : Z) : min_int64 <= z <= max_int64 -> wrap64 z = z.
Proof.
  unfold wrap64, min_int64, max_int64. intros Hz.
  rewrite Z.mod_small; lia.
Qed.

Lemma wrap64_range (z : Z) : min_int64 <= wrap64 z <= max_int64.
Proof.
  unfold wrap64, min_int64, max_int64.
  pose proof (Z.mod_pos_bound (z + 2 ^ 63) (2 ^ 64) ltac:(lia)). lia.
Qed.

Lemma wrap64_le (z : Z) : min_int64 <= z -> wrap64 z <= z.
Proof.
  unfold wrap64, min_int64. intros Hz.
  pose proof (Z.mod_le (z + 2 ^ 63) (2 ^ 64) ltac:(lia) ltac:(lia)). lia.
Qed.

(** ** The circuit breaker *)

Section BreakerFacts.
Import breaker.

Implicit Types (ccb : clusterCircuitBreaker) (b : clusterBreaker).

Lemma Allow_found now cid ccb b :
  cid <> "" -> clusters ccb !! cid = Some b ->
  Allow now cid ccb =
    (fst (breaker_Allow now b),
     mkCCB (config ccb)
           (<[cid := snd (breaker_Allow now b)]> (clusters ccb))).
Proof.
  intros Hne Hb. unfold Allow. rewrite decide_False by done. rewrite Hb.
  by destruct (breaker_Allow now b).
Qed.

Lemma RecordFailure_found now cid ccb b :
  cid <> "" -> clusters ccb !! cid = Some b ->
  RecordFailure now cid ccb =
    (None, mkCCB (config ccb)
                 (<[cid := breaker_RecordFailure now b]> (clusters ccb))).
Proof.
  intros Hne Hb. unfold RecordFailure. rewrite decide_False by done.
  by rewrite Hb.
Qed.

Lemma RecordSuccess_found now cid ccb b :
  cid <> "" -> clusters ccb !! cid = Some b ->
  RecordSuccess now cid ccb =
    (None, mkCCB (config ccb)
                 (<[cid := breaker_RecordSuccess now b]> (clusters ccb))).
Proof.
  intros Hne Hb. unfold RecordSuccess. rewrite decide_False by done.
  by rewrite Hb.
Qed.


(** A failure below the threshold leaves a closed breaker closed. *)
Lemma breaker_RecordFailure_below now b :
  State b = BreakerStateClosed ->
  0 <= FailureCount b ->
  FailureCount b + 1 < BreakerConfig.FailureThreshold (Config b) ->
  BreakerConfig.FailureThreshold (Config b) <= max_int64 ->
  State (breaker_RecordFailure now b) = BreakerStateClosed
  /\ FailureCount (breaker_RecordFailure now b) = FailureCount b + 1
  /\ Config (breaker_RecordFailure now b) = Config b.
Proof.
  intros Hs Hge Hlt Hmax. unfold breaker_RecordFailure. cbn. rewrite Hs.
  rewrite wrap64_id by (unfold min_int64; lia).
  destruct (Z.leb_spec (BreakerConfig.FailureThreshold (Config b))
                       (FailureCount b + 1)); [lia | done].
Qed.

(** The failure that reaches the threshold opens the breaker. *)
Lemma breaker_RecordFailure_reach now b :
  State b = BreakerStateClosed ->
  0 <= FailureCount b ->
  FailureCount b + 1 = BreakerConfig.FailureThreshold (Config b) ->
  BreakerConfig.FailureThreshold (Config b) <= max_int64 ->
  State (breaker_RecordFailure now b) = BreakerStateOpen
  /\ NextRetry (breaker_RecordFailure now b)
     = now + BreakerConfig.RecoveryTimeout (Config b).
Proof.
  intros Hs Hge Heq Hmax. unfold breaker_RecordFailure. cbn. rewrite Hs.
  rewrite wrap64_id by (unfold min_int64; lia).
  destruct (Z.leb_spec (BreakerConfig.FailureThreshold (Config b))
                       (FailureCount b + 1)); [done | lia].
Qed.




End BreakerFacts.


Section BreakerTheorems.
Import breaker.

Implicit Types (ccb : clusterCircuitBreaker) (b : clusterBreaker).

Lemma GetState_found cid ccb b :
  cid <> "" -> clusters ccb !! cid = Some b -> GetState cid ccb = State b.
Proof.
  intros Hne Hb. unfold GetState. rewrite decide_False by done. by rewrite Hb.
Qed.

(** A call that names another cluster leaves the entry of [cid] alone. *)
Lemma exec_other c ccb cid :
  clusterOf c <> cid -> clusters (exec c ccb) !! cid = clusters ccb !! cid.
Proof.
  intros Hne. destruct c as [now k|now k|now k|k|now k p]; cbn in *.
  - unfold Allow. destruct (decide (k = "")); [done|].
    destruct (clusters ccb !! k); [|done].
    destruct (breaker_Allow now c). cbn. by rewrite lookup_insert_ne.
  - unfold RecordSuccess. destruct (decide (k = "")); [done|].
    destruct (clusters ccb !! k); [|done]. cbn. by rewrite lookup_insert_ne.
  - unfold RecordFailure. destruct (decide (k = "")); [done|].
    destruct (clusters ccb !! k); [|done]. cbn. by rewrite lookup_insert_ne.
  - done.
  - unfold UpdatePolicy. destruct p; [|done]. cbn. by rewrite lookup_insert_ne.
Qed.

(** Without an [UpdatePolicy] for it, a cluster gets no entry. *)
Lemma exec_absent c ccb cid :
  notUpdated cid c -> clusters ccb !! cid = None ->
  clusters (exec c ccb) !! cid = None.
Proof.
  intros Hc Hnone. destruct (decide (clusterOf c = cid)) as [Heq|Hne].
  - destruct c as [now k|now k|now k|k|now k p]; cbn in *; subst cid.
    + unfold Allow. destruct (decide (k = "")); [done|]. by rewrite Hnone.
    + unfold RecordSuccess. destruct (decide (k = "")); [done|].
      by rewrite Hnone.
    + unfold RecordFailure. destruct (decide (k = "")); [done|].
      by rewrite Hnone.
    + done.
    + done.
  - by rewrite exec_other.
Qed.

Lemma execAll_absent cs : forall ccb cid,
  Forall (notUpdated cid) cs -> clusters ccb !! cid = None ->
  clusters (execAll cs ccb) !! cid = None.
Proof.
  induction cs as [|c cs IH]; intros ccb cid Hcs Hnone; [done|].
  inversion Hcs; subst. cbn. apply IH; [done|]. by apply exec_absent.
Qed.

(** C10: a cluster id that was never passed to [UpdatePolicy] has no entry in
    the breaker map after any sequence of calls on a new breaker; [Allow]
    answers [true], [GetState] answers CLOSED, and [RecordFailure] and
    [RecordSuccess] return [nil], all of them leaving the whole breaker
    unchanged. *)
Theorem C10_no_policy_no_breaker :
  forall (cfg : BreakerConfig.t) (cs : list call) (cid : string),
    Forall (notUpdated cid) cs ->
    let ccb := execAll cs (NewClusterCircuitBreaker cfg) in
    clusters ccb !! cid = None
    /\ forall now,
         Allow now cid ccb = (true, ccb)
         /\ GetState cid ccb = BreakerStateClosed
         /\ RecordFailure now cid ccb = (None, ccb)
         /\ RecordSuccess now cid ccb = (None, ccb).
Proof.
  intros cfg cs cid Hcs ccb.
  assert (Hnone : clusters ccb !! cid = None).
  { apply execAll_absent; [done|]. apply lookup_empty. }
  split; [done|]. intros now.
  unfold Allow, GetState, RecordFailure, RecordSuccess.
  destruct (decide (cid = "")); [done|]. by rewrite Hnone.
Qed.

(** The breaker of ["k"] never trips on failures alone when no policy was
    distributed for it. *)
Lemma C10_no_policy_no_breaker_witness :
  let ccb :=
    execAll [CallRecordFailure 1 "k"; CallRecordFailure 2 "k";
             CallRecordFailure 3 "k"; CallRecordFailure 4 "k"]
            (NewClusterCircuitBreaker scenario.breakerConfig) in
  clusters ccb !! "k" = None
  /\ forall now,
       Allow now "k" ccb = (true, ccb)
       /\ GetState "k" ccb = BreakerStateClosed
       /\ RecordFailure now "k" ccb = (None, ccb)
       /\ RecordSuccess now "k" ccb = (None, ccb).
Proof.
  apply (C10_no_policy_no_breaker scenario.breakerConfig
           [CallRecordFailure 1 "k"; CallRecordFailure 2 "k";
            CallRecordFailure 3 "k"; CallRecordFailure 4 "k"] "k").
  repeat constructor.
Defined.



(** Once [next_retry_at] has passed the breaker probes: cluster ["k"] starts
    CLOSED with a threshold of three; after three failures (at instants 1,
    2, 3, recovery timeout one second) an [Allow] five seconds later answers
    [true]. *)
Example Allow_after_retry_instant_probes :
  clusters scenario.registered !! "k" = Some scenario.closedBreaker
  /\ BreakerConfig.FailureThreshold (Config scenario.closedBreaker) = 3
  /\ fst (Allow 5000000000 "k" (failures [1; 2; 3] "k" scenario.registered))
     = true.
Proof. vm_compute. auto. Qed.

Lemma GetState_insert cid (cfg : BreakerConfig.t)
      (m : gmap string clusterBreaker) b :
  cid <> "" -> GetState cid (mkCCB cfg (<[cid := b]> m)) = State b.
Proof.
  intros Hne. apply GetState_found; [done|]. cbn. apply lookup_insert_eq.
Qed.

(** C7, as the code has it: for a breaker in HALF_OPEN, a call of the
    breaker interface leaves the cluster CLOSED exactly when it is a
    [RecordSuccess] for that cluster that brings the breaker's success
    counter to at least
    [int64(float64(failure_threshold) * recovery_increment)], the product
    truncated toward zero.  On that transition the failure counter and the
    success counter are both zero. *)
Theorem C7_half_open_recovery :
  forall ccb (cid : string) b (c : call),
    cid <> "" ->
    clusters ccb !! cid = Some b ->
    State b = BreakerStateHalfOpen ->
    (GetState cid (exec c ccb) = BreakerStateClosed
     <-> exists now,
          c = CallRecordSuccess now cid
          /\ recoveryThreshold (Config b) <= wrap64 (SuccessCount b + 1))
    /\ (GetState cid (exec c ccb) = BreakerStateClosed ->
        exists b',
          clusters (exec c ccb) !! cid = Some b'
          /\ FailureCount b' = 0 /\ SuccessCount b' = 0).
Proof.
  intros ccb cid b c Hne Hb Hs.
  destruct (decide (clusterOf c = cid)) as [Heq|Hother].
  2:{ assert (Hst : GetState cid (exec c ccb) = BreakerStateHalfOpen).
      { rewrite <- Hs. apply GetState_found; [done|]. by rewrite exec_other. }
      rewrite Hst. split; [|discriminate]. split; [discriminate|].
      intros (now & -> & _). by cbn in Hother. }
  destruct c as [now k|now k|now k|k|now k p]; cbn in Heq; subst k;
    cbn [exec].
  - rewrite (Allow_found now cid ccb b) by done. cbn [snd].
    rewrite GetState_insert by done.
    unfold breaker_Allow. cbn. rewrite Hs. cbn. rewrite Hs.
    split; [|discriminate]. split; [discriminate|].
    intros (now' & Hc & _). discriminate.
  - rewrite (RecordSuccess_found now cid ccb b) by done. cbn [snd clusters].
    rewrite GetState_insert, lookup_insert_eq by done.
    unfold breaker_RecordSuccess. cbn. rewrite Hs.
    destruct (Z.leb_spec (recoveryThreshold (Config b))
                         (wrap64 (SuccessCount b + 1))) as [Hle|Hlt]; cbn.
    + split; [|eauto]. split; [|done]. intros _. by exists now.
    + rewrite Hs. split; [|discriminate]. split; [discriminate|].
      intros (now' & _ & Hle). lia.
  - rewrite (RecordFailure_found now cid ccb b) by done. cbn [snd].
    rewrite GetState_insert by done.
    unfold breaker_RecordFailure. cbn. rewrite Hs. cbn.
    split; [|discriminate]. split; [discriminate|].
    intros (now' & Hc & _). discriminate.
  - rewrite (GetState_found cid ccb b), Hs by done.
    split; [|discriminate]. split; [discriminate|].
    intros (now' & Hc & _). discriminate.
  - assert (Hst : GetState cid (snd (UpdatePolicy now cid p ccb))
                  <> BreakerStateClosed).
    { unfold UpdatePolicy. destruct p as [p|]; cbn [snd].
      - rewrite GetState_insert, Hb by done.
        destruct (Policy.CircuitBreak p); [|by cbn; rewrite Hs].
        destruct (decide _); [|by cbn; rewrite Hs].
        destruct (PrimFloat.leb _ _); cbn; [done | by rewrite Hs].
      - rewrite (GetState_found cid ccb b), Hs by done. done. }
    split; [|done]. split; [done|].
    intros (now' & Hc & _). discriminate.
Qed.

Lemma C7_half_open_recovery_witness :
  (GetState "k" (exec (CallRecordSuccess 10 "k") scenario.halfOpen)
   = BreakerStateClosed
   <-> exists now,
        CallRecordSuccess 10 "k" = CallRecordSuccess now "k"
        /\ recoveryThreshold (Config scenario.halfOpenBreaker)
           <= wrap64 (SuccessCount scenario.halfOpenBreaker + 1))
  /\ (GetState "k" (exec (CallRecordSuccess 10 "k") scenario.halfOpen)
      = BreakerStateClosed ->
      exists b',
        clusters (exec (CallRecordSuccess 10 "k") scenario.halfOpen) !! "k"
        = Some b'
        /\ FailureCount b' = 0 /\ SuccessCount b' = 0).
Proof.
  apply (C7_half_open_recovery scenario.halfOpen "k" scenario.halfOpenBreaker
           (CallRecordSuccess 10 "k")).
  - done.
  - vm_compute. reflexivity.
  - reflexivity.
Defined.

(** C7 as stated fails: with a threshold of 3 and an increment of 0.5 the
    product 1.5 rounds to 2, yet a half-open breaker whose counters are zero
    is CLOSED after one recorded success. *)
Lemma C7_counterexample :
  State scenario.halfOpenBreaker = BreakerStateHalfOpen
  /\ SuccessCount scenario.halfOpenBreaker = 0
  /\ recoveryThreshold_rounded (Config scenario.halfOpenBreaker) = 2
  /\ recoveryThreshold (Config scenario.halfOpenBreaker) = 1
  /\ State (breaker_RecordSuccess 10 scenario.halfOpenBreaker)
     = BreakerStateClosed.
Proof. vm_compute. auto 6. Qed.

(** The success counter is not cleared on the way to HALF_OPEN: with the
    test configuration (threshold 2 after the product) five successes
    recorded while CLOSED make the first success of the probe close the
    breaker. *)
Example half_open_counts_earlier_successes :
  GetState "k" scenario.probing = BreakerStateHalfOpen
  /\ recoveryThreshold scenario.testConfig = 2
  /\ GetState "k" (exec (CallRecordSuccess 40000000001 "k") scenario.probing)
     = BreakerStateClosed.
Proof. vm_compute. auto. Qed.

End BreakerTheorems.

(** ** Fail-open admission *)

Section MiddlewareTheorems.
Import middleware.

(** C6: when [IdentifyCluster] returns an error at admission time, the
    circuit-breaker handler lets the request through: it asks the breaker
    with the empty cluster id, which answers [true] and leaves the breaker
    as it was. *)
Theorem C6_fail_open :
  forall (now : time.Time) (order : list string) (c : Context)
         (m : Middleware) ccb va (e : string) va',
    circuitBreaker m = Some ccb ->
    vectorAgent m = Some va ->
    vector.IdentifyCluster now order (ExtractErrorSignature c) va
    = (Err e, va') ->
    CircuitBreaker_admit now order c m
    = (Next, "", mkCtx (ctx_error c) (Some ""),
       mkMiddleware (Some ccb) (Some va')).
Proof.
  intros now order c m ccb va e va' Hcb Hva Hid.
  unfold CircuitBreaker_admit, identify. rewrite Hcb, Hva.
  destruct (decide (ExtractErrorSignature c = "")) as [Hsig|Hsig].
  - rewrite Hsig in Hid. unfold vector.IdentifyCluster in Hid.
    rewrite decide_True in Hid by done. discriminate.
  - rewrite Hid. reflexivity.
Qed.

Lemma C6_fail_open_witness :
  CircuitBreaker_admit 4 [] scenario.failingContext scenario.trippedMiddleware
  = (Next, "", mkCtx (Some "connection refused") (Some ""),
     mkMiddleware (Some scenario.tripped) (Some scenario.agent)).
Proof.
  apply (C6_fail_open 4 [] scenario.failingContext scenario.trippedMiddleware
           scenario.tripped scenario.agent
           "failed to generate vector: embedding service not available"
           scenario.agent).
  - reflexivity.
  - reflexivity.
  - vm_compute. reflexivity.
Defined.

(** The same request is refused when the cluster is known: the denial comes
    from the open breaker, not from the error path. *)
Example open_breaker_denies :
  fst (breaker.Allow 4 "k" scenario.tripped) = false.
Proof. vm_compute. reflexivity. Qed.

End MiddlewareTheorems.

(** ** The policy watcher *)

Section WatcherTheorems.
Import config.

(** [GetPolicy] hides a stored policy whose expiry time has passed. *)
Lemma GetPolicy_expired (now : time.Time) (cid : string) (cw : configWatcher)
      (p : Policy.t) :
  policies cw !! cid = Some p ->
  Policy.ExpireTime p < now ->
  GetPolicy now cid cw = None.
Proof.
  intros Hp Hexp. unfold GetPolicy, time.After. rewrite Hp.
  destruct (Z.ltb_spec (Policy.ExpireTime p) now); [done | lia].
Qed.

(** A put event with a decodable value is stored and handed to every
    registered callback, whatever its expiry time. *)
Lemma handleConfigEvent_put (kv : KeyValue) (p : Policy.t)
      (cw : configWatcher) :
  Value kv = Some p ->
  handleConfigEvent (mkEvent EventTypePut kv) cw
  = (mkWatcher (<[TrimPrefix (Key kv) "/policies/" := p]> (policies cw))
               (callbacks cw),
     map (fun cb => OnPolicyUpdate cb (TrimPrefix (Key kv) "/policies/") p)
         (callbacks cw)).
Proof. intros Hv. unfold handleConfigEvent. cbn. by rewrite Hv. Qed.

(** C8, the code at the failing input: at instant 200 the watcher receives
    a policy for cluster ["k"] that expired at instant 100.  Through the
    watch event and through the initial load alike it stores the policy and
    starts the gateway's callback with it, although its own [GetPolicy]
    already answers that there is no policy; the callback opens the breaker
    and the next request of the cluster is refused. *)
Theorem C8_expired_policy_is_delivered :
  Policy.ExpireTime scenario.expiredPolicy < 200
  /\ snd (handleConfigEvent scenario.expiredPut scenario.watcher)
     = [OnPolicyUpdate "gateway" "k" scenario.expiredPolicy]
  /\ snd (loadExistingPolicies (Ok [scenario.expiredEntry]) scenario.watcher)
     = [OnPolicyUpdate "gateway" "k" scenario.expiredPolicy]
  /\ GetPolicy 200 "k"
       (fst (handleConfigEvent scenario.expiredPut scenario.watcher))
     = None
  /\ fst (breaker.Allow 200 "k"
            (gateway.circuitBreaker
               (snd (gateway.OnPolicyUpdate scenario.noLimiter 200 "k"
                       scenario.expiredPolicy scenario.plainGateway))))
     = false.
Proof. vm_compute. repeat split; reflexivity. Qed.

End WatcherTheorems.

(** ** The clustering engine *)

Section ClusteringTheorems.
Import clustering.

(** C2, as the code has it: when no cluster is similar enough and the
    cluster table is full, [ProcessErrorEvent] returns the error of
    [CreateNewCluster] and changes neither the engine nor the event; the
    event is not merged into the nearest cluster. *)
Theorem C2_full_table_rejects :
  forall (now : time.Time) (order : list string) (newID : string)
         (dbErr : error) (ev : ErrorEvent.t) (ce : clusteringEngine)
         (vector : list float32) (cid : string) (sim : float64),
    EmbeddingService.EmbedText (embeddingService ce) (buildErrorSignature ev)
    = Ok vector ->
    FindMostSimilarCluster order vector ce = (cid, sim, None) ->
    cid = ""
    \/ PrimFloat.ltb sim (ClusteringConfig.SimilarityThreshold (config ce))
       = true ->
    ClusteringConfig.MaxClusters (config ce) <= Z.of_nat (size (clusters ce)) ->
    ProcessErrorEvent now order newID dbErr ev ce
    = (Some ("failed to create new cluster: maximum number of clusters ("
             +:+ pretty (ClusteringConfig.MaxClusters (config ce))
             +:+ ") reached"),
       ev, ce).
Proof.
  intros now order newID dbErr ev ce vector cid sim Hemb Hfind Hfar Hfull.
  unfold ProcessErrorEvent. rewrite Hemb, Hfind.
  assert (Hnew : bool_decide (cid = "")
                 || PrimFloat.ltb sim
                      (ClusteringConfig.SimilarityThreshold (config ce))
                 = true).
  { destruct Hfar as [-> | ->]; [done | apply orb_true_r]. }
  rewrite Hnew. unfold CreateNewCluster.
  destruct (Z.leb_spec (ClusteringConfig.MaxClusters (config ce))
                       (Z.of_nat (size (clusters ce)))); [done | lia].
Qed.

Lemma C2_full_table_rejects_witness :
  ProcessErrorEvent 9 ["c1"] "c2" None scenario.event scenario.fullEngine
  = (Some ("failed to create new cluster: maximum number of clusters ("
           +:+ pretty 1 +:+ ") reached"),
     scenario.event, scenario.fullEngine).
Proof.
  apply (C2_full_table_rejects 9 ["c1"] "c2" None scenario.event
           scenario.fullEngine scenario.e2 "" 0%float).
  - reflexivity.
  - vm_compute. reflexivity.
  - left. reflexivity.
  - vm_compute. discriminate.
Defined.

(** C2 as stated fails: the engine holds its maximum of one cluster, the
    event's vector is orthogonal to the centroid, and [ProcessErrorEvent]
    returns an error; the cluster keeps its single member. *)
Lemma C2_counterexample :
  rangeOrder (clusters scenario.fullEngine) ["c1"]
  /\ ProcessErrorEvent 9 ["c1"] "c2" None scenario.event scenario.fullEngine
     = (Some "failed to create new cluster: maximum number of clusters (1) reached",
        scenario.event, scenario.fullEngine)
  /\ Cluster.Members <$> clusters scenario.fullEngine !! "c1" = Some ["m0"].
Proof.
  split; [|split].
  - unfold rangeOrder. vm_compute. reflexivity.
  - vm_compute. reflexivity.
  - vm_compute. reflexivity.
Qed.

End ClusteringTheorems.

(** ** Cluster lookup and the enumeration order *)

Section LookupTheorems.

Lemma engine_findStep_similarityOf ce vector best k :
  clustering.findStep ce vector best k
  = match clustering.similarityOf ce vector k with
    | None => best
    | Some sim => if PrimFloat.ltb (snd best) sim then (k, sim) else best
    end.
Proof.
  unfold clustering.findStep, clustering.similarityOf.
  destruct (clustering.clusters ce !! k); [|done].
  by destruct (Nat.eqb _ _).
Qed.

Lemma agent_findStep_similarityOf va vector best k :
  vector.findStep va vector best k
  = match vector.similarityOf va vector k with
    | None => best
    | Some sim =>
        if PrimFloat.ltb (snd best) sim
           && PrimFloat.leb (vector.similarityThreshold va) sim
        then (k, sim) else best
    end.
Proof.
  unfold vector.findStep, vector.similarityOf.
  destruct (vector.clusters va !! k); [|done].
  by destruct (Nat.eqb _ _).
Qed.

Lemma fold_left_pointwise {A B : Type} (f g : A -> B -> A) (l : list B) :
  (forall a b, f a b = g a b) ->
  forall a, fold_left f l a = fold_left g l a.
Proof.
  intros Hfg. induction l as [|b l IH]; intros a; [done|].
  cbn. rewrite Hfg. apply IH.
Qed.

(** Below [s] before the scan and below [s] at every key: below [s] after. *)
Lemma scan_below simOf ok (s : float64) (l : list string) :
  forall best,
    PrimFloat.ltb (snd best) s = true ->
    (forall k s', k ∈ l -> simOf k = Some s' -> PrimFloat.ltb s' s = true) ->
    PrimFloat.ltb (snd (fold_left (scanStep simOf ok) l best)) s = true.
Proof.
  induction l as [|k l IH]; intros best Hbest Hl; [done|].
  cbn [fold_left]. apply IH.
  - unfold scanStep. destruct (simOf k) as [s'|] eqn:Hk; [|done].
    destruct (_ && _); [|done]. cbn. apply (Hl k); [left | done].
  - intros k' s' Hin. apply Hl. by right.
Qed.

(** No key of the rest beats the current best: the best stays. *)
Lemma scan_keep simOf ok (cid : string) (s : float64) (l : list string) :
  (forall k s', k ∈ l -> simOf k = Some s' -> PrimFloat.ltb s s' = false) ->
  fold_left (scanStep simOf ok) l (cid, s) = (cid, s).
Proof.
  induction l as [|k l IH]; intros Hl; [done|].
  cbn [fold_left].
  assert (Hstep : scanStep simOf ok (cid, s) k = (cid, s)).
  { unfold scanStep. destruct (simOf k) as [s'|] eqn:Hk; [|done].
    cbn. rewrite (Hl k s'); [done | left | done]. }
  rewrite Hstep. apply IH. intros k' s' Hin. apply Hl. by right.
Qed.

Lemma scan_first_maximal simOf ok (l1 l2 : list string) (cid : string)
      (s : float64) :
  simOf cid = Some s ->
  PrimFloat.ltb 0%float s = true ->
  ok s = true ->
  (forall k s', k ∈ l1 -> simOf k = Some s' -> PrimFloat.ltb s' s = true) ->
  (forall k s', k ∈ l2 -> simOf k = Some s' -> PrimFloat.ltb s s' = false) ->
  fold_left (scanStep simOf ok) (l1 ++ cid :: l2) ("", 0%float) = (cid, s).
Proof.
  intros Hcid Hpos Hok Hl1 Hl2. rewrite fold_left_app. cbn [fold_left].
  pose proof (scan_below simOf ok s l1 ("", 0%float) Hpos Hl1) as Hbelow.
  assert (Hstep : scanStep simOf ok
                    (fold_left (scanStep simOf ok) l1 ("", 0%float)) cid
                  = (cid, s)).
  { unfold scanStep at 1. by rewrite Hcid, Hbelow, Hok. }
  rewrite Hstep. by apply scan_keep.
Qed.

Lemma scan_none simOf ok (l : list string) :
  (forall k s', k ∈ l -> simOf k = Some s' ->
                PrimFloat.ltb 0%float s' && ok s' = false) ->
  fold_left (scanStep simOf ok) l ("", 0%float) = ("", 0%float).
Proof.
  induction l as [|k l IH]; intros Hl; [done|].
  cbn [fold_left].
  assert (Hstep : scanStep simOf ok ("", 0%float) k = ("", 0%float)).
  { unfold scanStep. destruct (simOf k) as [s'|] eqn:Hk; [|done].
    cbn [snd]. rewrite (Hl k s'); [done | left | done]. }
  rewrite Hstep. apply IH. intros k' s' Hin. apply Hl. by right.
Qed.

(** C5, as the code has it: the lookup keeps the cluster that the [range]
    loop meets first among those of greatest similarity, provided that
    similarity is positive.  When the loop enumerates [l1], then [cid], then
    [l2], the similarity [s] of [cid] is positive (and, for the vector
    agent, at least the threshold), exceeds every similarity in [l1] and is
    exceeded by none in [l2], the result is [cid]; a cluster in [l2] with
    the same similarity does not replace it, whatever its id.  When no
    cluster of the loop has a positive similarity (for the vector agent: a
    positive similarity that reaches the threshold), equal or not, the
    result is the empty id, with similarity 0 in the engine. *)
Theorem C5_first_in_range_order_wins :
  (forall (ce : clustering.clusteringEngine) (vector : list float32)
          (l1 l2 : list string) (cid : string) (s : float64),
      clustering.similarityOf ce vector cid = Some s ->
      PrimFloat.ltb 0%float s = true ->
      (forall k s', k ∈ l1 -> clustering.similarityOf ce vector k = Some s' ->
                    PrimFloat.ltb s' s = true) ->
      (forall k s', k ∈ l2 -> clustering.similarityOf ce vector k = Some s' ->
                    PrimFloat.ltb s s' = false) ->
      clustering.FindMostSimilarCluster (l1 ++ cid :: l2) vector ce
      = (cid, s, None))
  /\ (forall (va : vector.vectorAgent) (vector : list float32)
             (l1 l2 : list string) (cid : string) (s : float64),
         vector.similarityOf va vector cid = Some s ->
         PrimFloat.ltb 0%float s = true ->
         PrimFloat.leb (vector.similarityThreshold va) s = true ->
         (forall k s', k ∈ l1 -> vector.similarityOf va vector k = Some s' ->
                       PrimFloat.ltb s' s = true) ->
         (forall k s', k ∈ l2 -> vector.similarityOf va vector k = Some s' ->
                       PrimFloat.ltb s s' = false) ->
         vector.findMostSimilarCluster (l1 ++ cid :: l2) vector va = cid)
  /\ (forall (ce : clustering.clusteringEngine) (vector : list float32)
             (order : list string),
         (forall k s', k ∈ order ->
                       clustering.similarityOf ce vector k = Some s' ->
                       PrimFloat.ltb 0%float s' = false) ->
         clustering.FindMostSimilarCluster order vector ce
         = ("", 0%float, None))
  /\ (forall (va : vector.vectorAgent) (vector : list float32)
             (order : list string),
         (forall k s', k ∈ order ->
                       vector.similarityOf va vector k = Some s' ->
                       PrimFloat.ltb 0%float s'
                       && PrimFloat.leb (vector.similarityThreshold va) s'
                       = false) ->
         vector.findMostSimilarCluster order vector va = "").
Proof.
  split; [|split; [|split]].
  - intros ce vector l1 l2 cid s Hcid Hpos Hl1 Hl2.
    unfold clustering.FindMostSimilarCluster. f_equal.
    rewrite <- (scan_first_maximal (clustering.similarityOf ce vector)
                  (fun _ => true) l1 l2 cid s) by done.
    apply fold_left_pointwise. intros best k.
    rewrite engine_findStep_similarityOf. unfold scanStep.
    destruct (clustering.similarityOf ce vector k); [|done].
    by rewrite andb_true_r.
  - intros va vector l1 l2 cid s Hcid Hpos Hthr Hl1 Hl2.
    unfold vector.findMostSimilarCluster.
    replace (fold_left (vector.findStep va vector) (l1 ++ cid :: l2)
                       ("", 0%float))
      with (cid, s); [done|].
    rewrite <- (scan_first_maximal (vector.similarityOf va vector)
                  (PrimFloat.leb (vector.similarityThreshold va))
                  l1 l2 cid s) by done.
    apply fold_left_pointwise. intros best k.
    by rewrite agent_findStep_similarityOf.
  - intros ce vector order Hall.
    unfold clustering.FindMostSimilarCluster. f_equal.
    transitivity (fold_left (scanStep (clustering.similarityOf ce vector)
                               (fun _ => true)) order ("", 0%float)).
    + apply fold_left_pointwise. intros best k.
      rewrite engine_findStep_similarityOf. unfold scanStep.
      destruct (clustering.similarityOf ce vector k); [|done].
      by rewrite andb_true_r.
    + apply scan_none. intros k s' Hin Hk. rewrite andb_true_r.
      by apply (Hall k).
  - intros va vector order Hall.
    unfold vector.findMostSimilarCluster.
    replace (fold_left (vector.findStep va vector) order ("", 0%float))
      with ("", 0%float); [done|]. symmetry.
    transitivity (fold_left (scanStep (vector.similarityOf va vector)
                               (PrimFloat.leb (vector.similarityThreshold va)))
                            order ("", 0%float)).
    + apply fold_left_pointwise. intros best k.
      by rewrite agent_findStep_similarityOf.
    + by apply scan_none.
Qed.

Lemma C5_first_in_range_order_wins_witness :
  clustering.FindMostSimilarCluster ([] ++ "b" :: ["a"]) scenario.e1
                                    scenario.twinEngine
  = ("b", 1%float, None)
  /\ vector.findMostSimilarCluster ([] ++ "b" :: ["a"]) scenario.e1
                                   scenario.twinAgent
     = "b"
  /\ clustering.FindMostSimilarCluster ["a"; "b"] scenario.e2
                                       scenario.twinEngine
     = ("", 0%float, None)
  /\ vector.findMostSimilarCluster ["a"; "b"] scenario.e2 scenario.twinAgent
     = "".
Proof.
  split; [|split; [|split]].
  - apply (proj1 C5_first_in_range_order_wins scenario.twinEngine scenario.e1
                 [] ["a"] "b" 1%float).
    + vm_compute. reflexivity.
    + reflexivity.
    + intros k s' Hin. by apply elem_of_nil in Hin.
    + intros k s' Hin Hk. apply list_elem_of_singleton in Hin. subst k.
      vm_compute in Hk. injection Hk as <-. reflexivity.
  - apply (proj1 (proj2 C5_first_in_range_order_wins) scenario.twinAgent
                 scenario.e1 [] ["a"] "b" 1%float).
    + vm_compute. reflexivity.
    + reflexivity.
    + reflexivity.
    + intros k s' Hin. by apply elem_of_nil in Hin.
    + intros k s' Hin Hk. apply list_elem_of_singleton in Hin. subst k.
      vm_compute in Hk. injection Hk as <-. reflexivity.
  - apply (proj1 (proj2 (proj2 C5_first_in_range_order_wins))
                 scenario.twinEngine scenario.e2 ["a"; "b"]).
    intros k s' Hin Hk.
    apply elem_of_cons in Hin as [->|Hin];
      [|apply list_elem_of_singleton in Hin; subst k];
      vm_compute in Hk; injection Hk as <-; reflexivity.
  - apply (proj2 (proj2 (proj2 C5_first_in_range_order_wins))
                 scenario.twinAgent scenario.e2 ["a"; "b"]).
    intros k s' Hin Hk.
    apply elem_of_cons in Hin as [->|Hin];
      [|apply list_elem_of_singleton in Hin; subst k];
      vm_compute in Hk; injection Hk as <-; reflexivity.
Defined.

(** C5 as stated fails: clusters ["a"] and ["b"] have the same centroid, so
    both attain the greatest similarity to the query; when the map is
    enumerated as ["b"], ["a"] both lookups return ["b"], which is not the
    lexicographically smallest id, and when it is enumerated as ["a"], ["b"]
    they return ["a"]: the result depends on the enumeration order. *)
Lemma C5_counterexample :
  rangeOrder (clustering.clusters scenario.twinEngine) ["b"; "a"]
  /\ rangeOrder (clustering.clusters scenario.twinEngine) ["a"; "b"]
  /\ clustering.similarityOf scenario.twinEngine scenario.e1 "a"
     = clustering.similarityOf scenario.twinEngine scenario.e1 "b"
  /\ String.ltb "a" "b" = true
  /\ clustering.FindMostSimilarCluster ["b"; "a"] scenario.e1
                                       scenario.twinEngine
     = ("b", 1%float, None)
  /\ clustering.FindMostSimilarCluster ["a"; "b"] scenario.e1
                                       scenario.twinEngine
     = ("a", 1%float, None)
  /\ vector.findMostSimilarCluster ["b"; "a"] scenario.e1 scenario.twinAgent
     = "b"
  /\ vector.findMostSimilarCluster ["a"; "b"] scenario.e1 scenario.twinAgent
     = "a".
Proof.
  unfold rangeOrder. vm_compute.
  repeat split; try reflexivity. apply perm_swap.
Qed.

End LookupTheorems.

(** ** The token bucket *)

Section BucketTheorems.
Import limiter.TokenBucket.

Implicit Types (tb : t) (now : time.Time).

Lemma clamp_min (c x : Z) : (if c <? x then c else x) = Z.min c x.
Proof. destruct (Z.ltb_spec c x); lia. Qed.

Lemma refill_unfold now tb :
  refill now tb
  = if PrimFloat.ltb 0%float (time.Seconds (time.Sub now (lastRefill tb)))
    then mk (capacity tb)
            (Z.min (capacity tb) (wrap64 (tokens tb + tokensToAdd now tb)))
            (refillRate tb) now
    else tb.
Proof.
  unfold refill. destruct (PrimFloat.ltb _ _); [|done]. by rewrite clamp_min.
Qed.

Lemma utils_refill_unfold now (tb : utils.tokenBucket.t) :
  ofUtils (utils.tokenBucket.refill now tb) = refill now (ofUtils tb).
Proof.
  rewrite refill_unfold. unfold utils.tokenBucket.refill, ofUtils. cbn.
  destruct (PrimFloat.ltb _ _); [|done]. cbn.
  unfold utils.tokenBucket.min, tokensToAdd. cbn. by rewrite clamp_min.
Qed.

(** What [refill] does: nothing unless [elapsed > 0]; when [elapsed > 0] it
    sets the tokens to [min(C, t + int64(elapsed * r))] and the last-refill
    instant to [now], whether or not a token was added.  [Allow], [AllowN],
    [GetTokens], [IsEmpty] and [IsFull] start with it, and the bucket of
    package [utils] refills in the same way, also at the start of its
    [SetRate]. *)
Lemma refill_rule :
  forall now tb,
    refill now tb
    = (if PrimFloat.ltb 0%float (time.Seconds (time.Sub now (lastRefill tb)))
       then mk (capacity tb)
               (Z.min (capacity tb) (wrap64 (tokens tb + tokensToAdd now tb)))
               (refillRate tb) now
       else tb)
    /\ snd (GetTokens now tb) = refill now tb
    /\ snd (IsEmpty now tb) = refill now tb
    /\ snd (IsFull now tb) = refill now tb
    /\ snd (Allow now tb)
       = (if 0 <? tokens (refill now tb)
          then mk (capacity tb) (wrap64 (tokens (refill now tb) - 1))
                  (refillRate tb) (lastRefill (refill now tb))
          else refill now tb)
    /\ (forall n, snd (AllowN now n tb)
                  = if n <=? tokens (refill now tb)
                    then mk (capacity tb) (wrap64 (tokens (refill now tb) - n))
                            (refillRate tb) (lastRefill (refill now tb))
                    else refill now tb)
    /\ (forall utb : utils.tokenBucket.t,
          ofUtils (utils.tokenBucket.refill now utb) = refill now (ofUtils utb))
    /\ (forall (utb : utils.tokenBucket.t) (rate : float64),
          ofUtils (utils.tokenBucket.SetRate now rate utb)
          = SetRate rate (refill now (ofUtils utb))).
Proof.
  intros now tb.
  assert (Hcap : capacity (refill now tb) = capacity tb).
  { rewrite refill_unfold. by destruct (PrimFloat.ltb _ _). }
  assert (Hrate : refillRate (refill now tb) = refillRate tb).
  { rewrite refill_unfold. by destruct (PrimFloat.ltb _ _). }
  split; [apply refill_unfold|]. do 3 (split; [done|]).
  split; [|split; [|split]].
  - unfold Allow. destruct (0 <? tokens (refill now tb)); [|done].
    cbn. by rewrite Hcap, Hrate.
  - intros n. unfold AllowN. destruct (n <=? tokens (refill now tb)); [|done].
    cbn. by rewrite Hcap, Hrate.
  - intros utb. apply utils_refill_unfold.
  - intros utb rate. rewrite <- utils_refill_unfold. reflexivity.
Qed.

(** C4, the code at the failing input: an empty bucket at one token per
    second, last refilled at instant 0, is asked at 0.5 s.  No token is
    added, yet the last-refill instant moves from 0 to 0.5 s, in both
    implementations; the half second is lost.  Asked every half second for
    two seconds the bucket never sees a whole second elapse and refuses all
    four calls, where one token per second makes two available. *)
Theorem C4_refill_discards_elapsed_time :
  refillRate scenario.emptyBucket = 1%float
  /\ lastRefill scenario.emptyBucket = 0
  /\ tokensToAdd 500000000 scenario.emptyBucket = 0
  /\ tokens (refill 500000000 scenario.emptyBucket) = 0
  /\ lastRefill (refill 500000000 scenario.emptyBucket) = 500000000
  /\ utils.tokenBucket.lastRefill
       (utils.tokenBucket.refill 500000000 scenario.emptyUtilsBucket)
     = 500000000
  /\ scenario.halfSeconds
     = [500000000; 1000000000; 1500000000; 2000000000]
  /\ fst (run scenario.halfSeconds scenario.emptyBucket)
     = [false; false; false; false].
Proof. vm_compute. repeat split; reflexivity. Qed.

(** *** Conservation *)

Lemma fraction_den_pos (r : float64) : 0 < snd (fraction_of_float64 r).
Proof.
  unfold fraction_of_float64.
  destruct (Prim2SF r) as [s|s| |s m e]; cbn; try lia.
  destruct (Z.leb_spec 0 e); cbn; [lia|]. apply Z.pow_pos_nonneg; lia.
Qed.

Lemma floor_rate_times_0 (r : float64) : floor_rate_times r 0 = 0.
Proof.
  unfold floor_rate_times. destruct (fraction_of_float64 r) as [n d].
  by rewrite Z.mul_0_r.
Qed.

(** The floor is superadditive in the duration. *)
Lemma floor_rate_times_add (r : float64) (a b : Z) :
  floor_rate_times r a + floor_rate_times r b <= floor_rate_times r (a + b).
Proof.
  unfold floor_rate_times. pose proof (fraction_den_pos r) as Hd.
  destruct (fraction_of_float64 r) as [n d]. cbn in Hd.
  assert (HD : 0 < d * time.Second) by (unfold time.Second; lia).
  apply Z.div_le_lower_bound; [done|].
  pose proof (Z.mul_div_le (n * a) (d * time.Second) HD).
  pose proof (Z.mul_div_le (n * b) (d * time.Second) HD).
  lia.
Qed.

Lemma floor_rate_times_mono (r : float64) (a b : Z) :
  0 <= fst (fraction_of_float64 r) -> a <= b ->
  floor_rate_times r a <= floor_rate_times r b.
Proof.
  unfold floor_rate_times. pose proof (fraction_den_pos r) as Hd.
  destruct (fraction_of_float64 r) as [n d]. cbn in *. intros Hn Hab.
  apply Z.div_le_mono; [unfold time.Second; lia | nia].
Qed.

(** A non-negative floor over a positive duration: the rate is not
    negative. *)
Lemma floor_rate_times_sign (r : float64) (d : Z) :
  0 < d -> 0 <= floor_rate_times r d -> 0 <= fst (fraction_of_float64 r).
Proof.
  unfold floor_rate_times. pose proof (fraction_den_pos r) as Hd.
  destruct (fraction_of_float64 r) as [n q]. cbn in *. intros Hpos Hfl.
  destruct (Z.le_gt_cases 0 n) as [|Hneg]; [done|].
  assert (n * d / (q * time.Second) < 0); [|lia].
  apply Z.div_lt_upper_bound; [unfold time.Second; lia | nia].
Qed.

Lemma Sub_monotone now (from : time.Time) :
  from <= now ->
  0 <= time.Sub now from <= now - from
  /\ (0 < time.Sub now from <-> from < now).
Proof.
  unfold time.Sub, min_int64, max_int64. intros Hle.
  destruct (Z.ltb_spec (now - from) (- 2 ^ 63)); [lia|].
  destruct (Z.ltb_spec (2 ^ 63 - 1) (now - from)); lia.
Qed.

(** One [refill] under [refill_exact]. *)
Lemma refill_step now tb :
  lastRefill tb <= now ->
  min_int64 <= tokens tb <= max_int64 ->
  min_int64 <= capacity tb <= max_int64 ->
  refill_exact now tb = true ->
  lastRefill (refill now tb) = now
  /\ refillRate (refill now tb) = refillRate tb
  /\ capacity (refill now tb) = capacity tb
  /\ min_int64 <= tokens (refill now tb) <= max_int64
  /\ Z.max 0 (tokens (refill now tb))
     <= Z.max 0 (tokens tb)
        + floor_rate_times (refillRate tb) (now - lastRefill tb)
  /\ (tokens tb <= capacity tb -> tokens (refill now tb) <= capacity tb).
Proof.
  intros Hfrom Htok Hcap Hex. unfold refill_exact in Hex.
  apply andb_true_iff in Hex as [Hpos Hadd]. apply Bool.eqb_prop in Hpos.
  destruct (Sub_monotone now (lastRefill tb) Hfrom) as [Hd Hdpos].
  rewrite refill_unfold, Hpos.
  destruct (0 <? time.Sub now (lastRefill tb)) eqn:Hlt.
  - apply Z.ltb_lt in Hlt.
    apply andb_true_iff in Hadd as [Hadd0 Hadd1].
    apply Z.leb_le in Hadd0, Hadd1. cbn.
    pose proof (floor_rate_times_sign (refillRate tb) _ Hlt ltac:(lia))
      as Hsign.
    pose proof (floor_rate_times_mono (refillRate tb)
                  (time.Sub now (lastRefill tb)) (now - lastRefill tb)
                  Hsign ltac:(lia)) as Hmono.
    pose proof (wrap64_range (tokens tb + tokensToAdd now tb)) as Hrange.
    pose proof (wrap64_le (tokens tb + tokensToAdd now tb) ltac:(lia)) as Hle.
    repeat split; lia.
  - apply Z.ltb_ge in Hlt.
    assert (lastRefill tb = now) as Heq by lia.
    rewrite Heq, Z.sub_diag, floor_rate_times_0. repeat split; lia.
Qed.

(** One [Allow] under [refill_exact]: the answer is paid for by a token. *)
Lemma Allow_step now tb :
  lastRefill tb <= now ->
  min_int64 <= tokens tb <= max_int64 ->
  min_int64 <= capacity tb <= max_int64 ->
  refill_exact now tb = true ->
  lastRefill (snd (Allow now tb)) = now
  /\ refillRate (snd (Allow now tb)) = refillRate tb
  /\ capacity (snd (Allow now tb)) = capacity tb
  /\ min_int64 <= tokens (snd (Allow now tb)) <= max_int64
  /\ (if fst (Allow now tb) then 1 else 0)
     + Z.max 0 (tokens (snd (Allow now tb)))
     <= Z.max 0 (tokens tb)
        + floor_rate_times (refillRate tb) (now - lastRefill tb)
  /\ (tokens tb <= capacity tb ->
      (if fst (Allow now tb) then 1 else 0)
      + Z.max 0 (tokens (snd (Allow now tb)))
      <= Z.max 0 (capacity tb)).
Proof.
  intros Hfrom Htok Hcap Hex.
  destruct (refill_step now tb Hfrom Htok Hcap Hex)
    as (HL & Hr & Hc & Hrange & Hbound & Hfull).
  unfold Allow. destruct (Z.ltb_spec 0 (tokens (refill now tb))) as [Hpos|Hle].
  - cbn. rewrite wrap64_id by (unfold min_int64 in *; lia).
    unfold min_int64, max_int64 in *. repeat split; try done; try lia.
  - cbn. repeat split; try done; try lia.
Qed.

Lemma run_cons now (rest : list time.Time) tb :
  run (now :: rest) tb
  = (fst (Allow now tb) :: fst (run rest (snd (Allow now tb))),
     snd (run rest (snd (Allow now tb)))).
Proof.
  cbn [run]. destruct (Allow now tb) as [ok tb']. cbn [fst snd].
  by destruct (run rest tb').
Qed.

Lemma admitted_cons now (rest : list time.Time) tb :
  admitted (now :: rest) tb
  = (if fst (Allow now tb) then 1 else 0) + admitted rest (snd (Allow now tb)).
Proof.
  unfold admitted. rewrite run_cons. cbn [fst].
  destruct (fst (Allow now tb)).
  - rewrite filter_cons_True by done. cbn [length]. lia.
  - rewrite filter_cons_False by done. lia.
Qed.

Lemma admitted_le_length (times : list time.Time) :
  forall tb, 0 <= admitted times tb <= Z.of_nat (length times).
Proof.
  induction times as [|now rest IH]; intros tb.
  - unfold admitted. cbn. lia.
  - rewrite admitted_cons. specialize (IH (snd (Allow now tb))).
    cbn [length]. destruct (fst (Allow now tb)); lia.
Qed.

Lemma last_cons (now from : time.Time) (rest : list time.Time) :
  List.last (now :: rest) from = List.last rest now.
Proof.
  revert now from. induction rest as [|x rest IH]; intros now from; [done|].
  change (List.last (now :: x :: rest) from) with (List.last (x :: rest) from).
  by rewrite (IH x from), (IH x now).
Qed.

(** Every admitted call is paid for by a token that was in the bucket or
    that the elapsed time has added. *)
Lemma run_bound (times : list time.Time) :
  forall tb,
    monotone (lastRefill tb) times ->
    min_int64 <= tokens tb <= max_int64 ->
    min_int64 <= capacity tb <= max_int64 ->
    run_exact times tb = true ->
    admitted times tb + Z.max 0 (tokens (snd (run times tb)))
    <= Z.max 0 (tokens tb)
       + floor_rate_times (refillRate tb)
           (List.last times (lastRefill tb) - lastRefill tb).
Proof.
  induction times as [|now rest IH]; intros tb Hmono Htok Hcap Hex.
  - unfold admitted. cbn. rewrite Z.sub_diag, floor_rate_times_0. lia.
  - destruct Hmono as [Hfrom Hmono]. cbn [run_exact] in Hex.
    apply andb_true_iff in Hex as [Hex1 Hex2].
    destruct (Allow_step now tb Hfrom Htok Hcap Hex1)
      as (HL & Hr & Hc & Hrange & Hbound & _).
    specialize (IH (snd (Allow now tb))).
    rewrite HL, Hr, Hc in IH. specialize (IH Hmono Hrange Hcap Hex2).
    rewrite admitted_cons, run_cons, last_cons. cbn [snd].
    pose proof (floor_rate_times_add (refillRate tb) (now - lastRefill tb)
                  (List.last rest now - now)) as Hadd.
    replace (now - lastRefill tb + (List.last rest now - now))
      with (List.last rest now - lastRefill tb) in Hadd by lia.
    lia.
Qed.

(** Where the floating-point product that [refill] truncates stays within
    the exact one ([run_exact]), a bucket of capacity [C] that is full when
    the first of a sequence of [Allow] calls arrives admits at most
    [min(C + ⌊r·T⌋, calls)] of them, where [T] is the time between the first
    and the last call and [r·T] is the exact product. *)
Lemma conservation_when_products_are_exact :
  forall tb (first : time.Time) (rest : list time.Time),
    0 <= capacity tb <= max_int64 ->
    tokens tb = capacity tb ->
    monotone (lastRefill tb) (first :: rest) ->
    run_exact (first :: rest) tb = true ->
    admitted (first :: rest) tb
    <= Z.min (capacity tb
              + floor_rate_times (refillRate tb) (List.last rest first - first))
             (Z.of_nat (length (first :: rest))).
Proof.
  intros tb first rest Hcap Hfull [Hfrom Hmono] Hex.
  apply Z.min_glb; [|apply admitted_le_length].
  cbn [run_exact] in Hex. apply andb_true_iff in Hex as [Hex1 Hex2].
  assert (Hcap' : min_int64 <= capacity tb <= max_int64)
    by (unfold min_int64; lia).
  assert (Htok : min_int64 <= tokens tb <= max_int64) by lia.
  destruct (Allow_step first tb Hfrom Htok Hcap' Hex1)
    as (HL & Hr & Hc & Hrange & _ & Hfirst).
  pose proof (run_bound rest (snd (Allow first tb))) as Hrest.
  rewrite HL, Hr, Hc in Hrest. specialize (Hrest Hmono Hrange Hcap' Hex2).
  rewrite admitted_cons. specialize (Hfirst ltac:(lia)). lia.
Qed.

(** Four of the seven calls of [burst] after instant 0 are admitted; the
    bound is [C + ⌊r·T⌋ = 2 + 3]. *)
Example burst_admitted :
  fst (run (0 :: scenario.burst) scenario.fullBucket)
  = [true; true; false; true; false; true; false]
  /\ floor_rate_times (refillRate scenario.fullBucket) 3000000000 = 3.
Proof. vm_compute. split; reflexivity. Qed.

(** Where [run_exact] draws the line: the [float64] nearest to 0.3 is
    slightly less than 3/10, so the exact product with ten seconds is less
    than 3, while the [float64] product rounds to 3.0 and [refill] adds three
    tokens; a [float64] evaluation of the bound gives 3 as well. *)
Example float_product_rounds_up :
  tokensToAdd 10000000000 (NewTokenBucket 0 10 0.3%float) = 3
  /\ floor_rate_times 0.3%float 10000000000 = 2
  /\ int64_of_float64 (PrimFloat.mul 0.3%float 10%float) = 3
  /\ refill_exact 10000000000 (NewTokenBucket 0 10 0.3%float) = false.
Proof. vm_compute. repeat split; reflexivity. Qed.

(** *** Conservation in the arithmetic of the code *)













End BucketTheorems.

(** ** The desensitiser *)

(** ** The matcher and the replacement *)

Section RegexpMatcher.
Import regexp.

Implicit Types (re : Regexp) (prev : option ascii) (s : list ascii).

Lemma repeat_inv cls min max prev s k n :
  repeat cls min max prev s k = Some n ->
  (min = O /\ k prev s = Some n)
  \/ (exists c s' n',
         s = c :: s' /\ cls c = true /\ max <> Some O
         /\ repeat cls (Nat.pred min) (option_map Nat.pred max) (Some c) s' k
            = Some n'
         /\ n = S n').
Proof.
  destruct s as [|c s']; cbn [repeat].
  - destruct min; [auto|discriminate].
  - destruct (cls c) eqn:Hc; cbn [andb].
    + destruct (bool_decide (max = Some O)) eqn:Hmax; cbn [negb].
      * destruct min; [auto|discriminate].
      * apply bool_decide_eq_false in Hmax.
        destruct (repeat cls (Nat.pred min) (option_map Nat.pred max)
                         (Some c) s' k) as [n'|] eqn:Hrec.
        -- intros [= <-]. right. exists c, s', n'. auto.
        -- destruct min; [auto|discriminate].
    + destruct min; [auto|discriminate].
Qed.

Lemma repeat_stop cls max prev s k :
  is_Some (k prev s) -> is_Some (repeat cls O max prev s k).
Proof.
  intros Hk. destruct s as [|c s']; cbn [repeat]; [done|].
  destruct (cls c && negb (bool_decide (max = Some O))); [|done].
  by destruct (repeat cls _ _ (Some c) s' k).
Qed.

Lemma repeat_more cls min max prev c s' k :
  cls c = true -> max <> Some O ->
  is_Some (repeat cls (Nat.pred min) (option_map Nat.pred max) (Some c) s' k) ->
  is_Some (repeat cls min max prev (c :: s') k).
Proof.
  intros Hc Hmax [n Hn]. cbn [repeat]. rewrite Hc.
  rewrite bool_decide_eq_false_2 by done. cbn. by rewrite Hn.
Qed.


Lemma prevAt_cons prev c s n : prevAt prev (c :: s) (S n) = prevAt (Some c) s n.
Proof. reflexivity. Qed.

Lemma prevAt_0 prev s : prevAt prev s 0 = prev.
Proof. by destruct s. Qed.

(** A match is no longer than the text. *)
Lemma matchHere_length re :
  forall prev s n, matchHere re prev s = Some n -> (n <= length s)%nat.
Proof.
  induction re as [|[|cls min max] re IH]; intros prev s n; cbn [matchHere].
  - intros [= <-]. lia.
  - destruct (atBoundary prev s); [apply IH|discriminate].
  - revert prev min max n.
    induction s as [|c s IHs]; intros prev min max n Hn;
      apply repeat_inv in Hn as [[_ Hk]|(c' & s' & n' & Hs & _ & _ & Hrec & ->)].
    + by apply IH in Hk.
    + discriminate.
    + by apply IH in Hk.
    + injection Hs as <- <-. apply IHs in Hrec. cbn [length]. lia.
Qed.

(** A match of a pattern that ends with [\b] ends at a word boundary. *)
Lemma matchHere_end re :
  forall prev s n,
    matchHere (re ++ [WordBoundary])%list prev s = Some n ->
    atBoundary (prevAt prev s n) (drop n s) = true.
Proof.
  induction re as [|[|cls min max] re IH]; intros prev s n;
    cbn [matchHere app].
  - destruct (atBoundary prev s) eqn:Hb; [|discriminate].
    intros [= <-]. by rewrite prevAt_0, drop_0.
  - destruct (atBoundary prev s); [apply IH|discriminate].
  - revert prev min max n.
    induction s as [|c s IHs]; intros prev min max n Hn;
      apply repeat_inv in Hn as [[_ Hk]|(c' & s' & n' & Hs & _ & _ & Hrec & ->)].
    + by apply IH in Hk.
    + discriminate.
    + by apply IH in Hk.
    + injection Hs as <- <-. apply IHs in Hrec. by rewrite prevAt_cons, skipn_cons.
Qed.

Lemma needsChar_cases re :
  needsChar re = true ->
  exists cls min max re',
    re = Repeat cls (S min) max :: re'
    \/ re = WordBoundary :: Repeat cls (S min) max :: re'.
Proof.
  destruct re as [|[|cls [|min] max] re]; try discriminate.
  - destruct re as [|[|cls [|min] max] re]; try discriminate.
    intros _. exists cls, min, max, re. by right.
  - intros _. exists cls, min, max, re. by left.
Qed.

Lemma repeat_positive cls min max prev s k n :
  repeat cls (S min) max prev s k = Some n -> n <> O.
Proof.
  intros Hn.
  apply repeat_inv in Hn as [[? _]|(c' & s' & n' & _ & _ & _ & _ & ->)];
    [discriminate|lia].
Qed.

(** A pattern that needs a character matches at least one. *)
Lemma matchHere_positive re prev s n :
  needsChar re = true -> matchHere re prev s = Some n -> n <> O.
Proof.
  intros (cls & min & max & re' & [-> | ->])%needsChar_cases; cbn [matchHere].
  - apply repeat_positive.
  - destruct (atBoundary prev s); [apply repeat_positive|discriminate].
Qed.

Lemma matchHere_nil re prev :
  needsChar re = true -> matchHere re prev [] = None.
Proof.
  intros Hre. destruct (matchHere re prev []) as [n|] eqn:Hn; [|done].
  pose proof (matchHere_length _ _ _ _ Hn) as Hlen.
  pose proof (matchHere_positive _ _ _ _ Hre Hn). cbn in Hlen. lia.
Qed.

Lemma bracketFree_WordBoundary re :
  bracketFree (WordBoundary :: re) = true -> bracketFree re = true.
Proof. done. Qed.

Lemma bracketFree_Repeat cls min max re :
  bracketFree (Repeat cls min max :: re) = true ->
  cls "["%char = false /\ cls "]"%char = false /\ bracketFree re = true.
Proof.
  unfold bracketFree. cbn [forallb].
  intros [[H1 H2]%andb_true_iff H]%andb_true_iff.
  by apply negb_true_iff in H1, H2.
Qed.

Lemma bracket_cases c : bracket c = true -> c = "["%char \/ c = "]"%char.
Proof.
  unfold bracket. intros [H|H]%orb_true_iff; apply Ascii.eqb_eq in H; auto.
Qed.

(** A pattern that needs a character does not match at a bracket. *)
Lemma matchHere_bracket re prev b s :
  needsChar re = true -> bracketFree re = true -> bracket b = true ->
  matchHere re prev (b :: s) = None.
Proof.
  intros Hre Hfree Hb.
  assert (Hcls : forall cls min max k,
             (cls "["%char = false /\ cls "]"%char = false) ->
             repeat cls (S min) max prev (b :: s) k = None).
  { intros cls min max k [H1 H2]. cbn [repeat].
    destruct (bracket_cases _ Hb) as [-> | ->]; by rewrite ?H1, ?H2. }
  apply needsChar_cases in Hre as (cls & min & max & re' & [-> | ->]);
    cbn [matchHere].
  - apply Hcls. by apply bracketFree_Repeat in Hfree as (? & ? & _).
  - destruct (atBoundary prev (b :: s)); [|done].
    apply Hcls. apply bracketFree_WordBoundary in Hfree.
    by apply bracketFree_Repeat in Hfree as (? & ? & _).
Qed.

(** A match on a text is a match on every text that simulates it. *)
Lemma matchHere_Sim wb re :
  bracketFree re = true -> (usesBoundary re = true -> wb = true) ->
  forall po so pt st,
    Sim wb po so pt st ->
    is_Some (matchHere re po so) -> is_Some (matchHere re pt st).
Proof.
  induction re as [|[|cls min max] re IH]; intros Hfree Hwb po so pt st HS;
    cbn [matchHere].
  - done.
  - assert (Hw : wb = true) by (by apply Hwb).
    destruct (atBoundary po so) eqn:Hb; [|by intros [? ?]].
    assert (Hb' : atBoundary pt st = true).
    { destruct so; apply HS; done. }
    rewrite Hb'. apply bracketFree_WordBoundary in Hfree.
    by apply IH.
  - apply bracketFree_Repeat in Hfree as (Hc1 & Hc2 & Hfree').
    specialize (IH Hfree' Hwb). clear Hwb.
    revert po pt st min max HS.
    induction so as [|c so IHs]; intros po pt st min max HS [n Hn];
      apply repeat_inv in Hn
        as [[-> Hk]|(c' & s' & n' & Hs & Hc & Hmax & Hrec & ->)].
    + apply repeat_stop, (IH _ _ _ _ HS). by rewrite Hk.
    + discriminate.
    + apply repeat_stop, (IH _ _ _ _ HS). by rewrite Hk.
    + injection Hs as <- <-.
      destruct HS as [_ [Hbar|HS]].
      { destruct (bracket_cases _ Hbar) as [-> | ->]; congruence. }
      destruct st as [|c' st]; [done|]. destruct HS as [-> HS].
      apply repeat_more; [done..|]. apply (IHs _ _ _ _ _ HS). by rewrite Hrec.
Qed.

End RegexpMatcher.

Section RegexpReplacement.
Import regexp.

Implicit Types (re ri rj : Regexp) (prev po pt : option ascii)
         (s t repl : list ascii).

(** Where the pattern matches nowhere, nothing is replaced. *)
Lemma replaceFrom_quiet re repl :
  forall s prev am, quiet re prev s -> replaceFrom re repl prev am O s = s.
Proof.
  induction s as [|c s IH]; intros prev am [Hhd Htl]; cbn [replaceFrom].
  - by rewrite Hhd.
  - rewrite Hhd. by rewrite IH.
Qed.

(** The characters of a match are skipped. *)
Lemma replaceFrom_skip re repl :
  forall k s prev,
    (k <= length s)%nat ->
    replaceFrom re repl prev true k s
    = replaceFrom re repl (prevAt prev s k) true O (drop k s).
Proof.
  induction k as [|k IH]; intros s prev Hk.
  - by rewrite prevAt_0, drop_0.
  - destruct s as [|c s]; [cbn in Hk; lia|].
    cbn [replaceFrom]. rewrite IH by (cbn in Hk; lia). done.
Qed.

Lemma atBoundary_head po c s s' :
  atBoundary po (c :: s) = atBoundary po (c :: s').
Proof. reflexivity. Qed.

Lemma anchored_match rj pt t n :
  anchored rj -> matchHere rj pt t = Some n ->
  atBoundary pt t = true /\ atBoundary (prevAt pt t n) (drop n t) = true.
Proof.
  intros [mid ->]. cbn [matchHere].
  destruct (atBoundary pt t); [|discriminate].
  intros Hn. split; [done|]. by apply (matchHere_end mid).
Qed.

(** The text is a simulation of what the replacement makes of it. *)
Lemma Sim_replaceFrom wb rj b q :
  needsChar rj = true -> bracket b = true -> (wb = true -> anchored rj) ->
  forall t pt po am,
    po = pt \/ (wb = true -> atBoundary pt t = true) ->
    Sim wb po (replaceFrom rj (b :: q) pt am O t) pt t.
Proof.
  intros Hrj Hb Hwb. induction t as [|c t IH]; intros pt po am Hctx;
    cbn [replaceFrom].
  - rewrite (matchHere_nil _ _ Hrj). split; [|done].
    destruct Hctx as [-> | Hctx]; auto.
  - destruct (matchHere rj pt (c :: t)) as [[|n]|] eqn:Hm.
    + by apply matchHere_positive in Hm.
    + cbn [app]. split; [|by left].
      intros Hw _. by apply (anchored_match rj pt (c :: t) (S n)); auto.
    + split.
      * destruct Hctx as [-> | Hctx]; [|auto].
        intros _ H. by rewrite (atBoundary_head _ _ _ t) in H.
      * right. split; [done|]. apply IH. by left.
Qed.

Lemma Sim_marker wb e rest :
  bracket e = true ->
  forall q p, Sim wb p ((q ++ [e]) ++ rest)%list p (q ++ [e])%list.
Proof.
  intros He. induction q as [|c q IH]; intros p; cbn [app Sim].
  - split; [|by left]. intros _ H. by rewrite (atBoundary_head _ _ _ rest).
  - split; [|right; split; [done|apply IH]].
    intros _ H. by rewrite (atBoundary_head _ _ _ ((q ++ [e]) ++ rest)%list).
Qed.

(** A marker that the pattern does not match stays unmatched in front of
    any text: a match cannot cross the closing bracket. *)
Lemma quiet_marker ri b q e :
  needsChar ri = true -> bracketFree ri = true ->
  bracket b = true -> bracket e = true ->
  quiet ri (Some b) (q ++ [e])%list ->
  forall po rest,
    quiet ri (Some e) rest -> quiet ri po ((b :: q ++ [e]) ++ rest)%list.
Proof.
  intros Hri Hfree Hb He Hq po rest Hrest. cbn [app quiet].
  split; [by apply matchHere_bracket|].
  revert Hq. generalize (Some b). clear po b Hb.
  induction q as [|c q IH]; intros p Hq; cbn [app quiet].
  - split; [by apply matchHere_bracket|done].
  - destruct Hq as [Hhd Htl]. split; [|by apply IH].
    destruct (matchHere ri p (c :: (q ++ [e]) ++ rest)%list) eqn:Hm; [|done].
    assert (HS : is_Some (matchHere ri p ((c :: q) ++ [e])%list)).
    { apply (matchHere_Sim (usesBoundary ri) ri Hfree (fun H => H)
                           p (((c :: q) ++ [e]) ++ rest)%list);
        [by apply Sim_marker|]. cbn [app]. by rewrite Hm. }
    cbn [app] in HS. rewrite Hhd in HS. by destruct HS.
Qed.

Lemma quietWhere_drop rj ri :
  forall k t pt, quietWhere rj ri pt t -> quietWhere rj ri (prevAt pt t k) (drop k t).
Proof.
  induction k as [|k IH]; intros t pt Hg.
  - by rewrite prevAt_0, drop_0.
  - destruct t as [|c t]; [done|]. destruct Hg as [_ Hg]. by apply IH.
Qed.

Lemma quietWhere_refl re : forall t pt, quietWhere re re pt t.
Proof. induction t as [|c t IH]; intros pt; cbn [quietWhere]; auto. Qed.

Lemma quietWhere_quiet rj ri : forall t pt, quiet ri pt t -> quietWhere rj ri pt t.
Proof.
  induction t as [|c t IH]; intros pt [Hhd Htl]; cbn [quietWhere]; auto.
Qed.

(** Replacing the matches of [rj] by a marker gives [ri] no match, when it
    had none where [rj] had none. *)
Lemma replaceFrom_keeps_quiet wb ri rj b q e :
  needsChar ri = true -> needsChar rj = true -> bracketFree ri = true ->
  (usesBoundary ri = true -> wb = true) -> (wb = true -> anchored rj) ->
  bracket b = true -> bracket e = true ->
  quiet ri (Some b) (q ++ [e])%list ->
  forall m t pt po am,
    (length t <= m)%nat ->
    po = pt \/ (wb = true -> atBoundary pt t = true) ->
    quietWhere rj ri pt t ->
    quiet ri po (replaceFrom rj (b :: q ++ [e]) pt am O t).
Proof.
  intros Hri Hrj Hfree Hwb Hanch Hb He Hq.
  induction m as [|m IH]; intros t pt po am Hlen Hctx Hg.
  { destruct t; [|cbn in Hlen; lia]. cbn [replaceFrom].
    rewrite (matchHere_nil _ _ Hrj). cbn [quiet].
    by rewrite (matchHere_nil _ _ Hri). }
  pose proof (Sim_replaceFrom wb rj b (q ++ [e])%list Hrj Hb Hanch
                              t pt po am Hctx) as HS.
  destruct t as [|c t]; cbn [replaceFrom] in *.
  { rewrite (matchHere_nil _ _ Hrj). cbn [quiet].
    by rewrite (matchHere_nil _ _ Hri). }
  destruct (matchHere rj pt (c :: t)) as [[|n]|] eqn:Hm.
  - by apply matchHere_positive in Hm.
  - pose proof (matchHere_length _ _ _ _ Hm) as Hn. cbn [length] in Hn, Hlen.
    rewrite replaceFrom_skip by lia.
    apply (quiet_marker ri b q e); try done.
    apply IH.
    + rewrite length_drop. lia.
    + right. intros Hw.
      by apply (anchored_match rj pt (c :: t) (S n)); auto.
    + by apply (quietWhere_drop rj ri (S n) (c :: t) pt).
  - destruct Hg as [Hhd Hg]. cbn [quiet]. split.
    + destruct (matchHere ri po (c :: replaceFrom rj (b :: q ++ [e]) (Some c) false O t)) eqn:Hmi; [|done].
      assert (HS' : is_Some (matchHere ri pt (c :: t))).
      { apply (matchHere_Sim wb ri Hfree Hwb _ _ _ _ HS). by rewrite Hmi. }
      rewrite (Hhd Hm) in HS'. by destruct HS'.
    + apply IH; [cbn in Hlen; lia|by left|done].
Qed.

End RegexpReplacement.

Section DesensitizerTheorems.
Import regexp utils.desensitizer.

Lemma NewDesensitizer_rules (name : string) (p : patternInfo) :
  patterns NewDesensitizer !! name = Some p -> (name, p) ∈ rules.
Proof.
  unfold NewDesensitizer, AddPattern. cbn [patterns]. intros Hp.
  repeat (apply lookup_insert_Some in Hp as [[<- <-]|[_ Hp]];
          [unfold rules; repeat constructor|]).
  by rewrite lookup_empty in Hp.
Qed.

(** No rule changes a marker. *)
Lemma rules_keep_markers :
  Forall (fun r : string * patternInfo =>
            Forall (fun m => regexp.ReplaceAllString (regex (snd r)) m
                               (replacement (snd r)) = m)
                   markers)
         rules.
Proof.
  unfold rules, markers.
  repeat (apply Forall_cons; split;
          [repeat (apply Forall_cons; split; [vm_compute; reflexivity|]);
           apply Forall_nil_2|]).
  apply Forall_nil_2.
Qed.

Lemma applyPattern_marker (m name : string) :
  m ∈ markers -> applyPattern NewDesensitizer m name = m.
Proof.
  intros Hm. unfold applyPattern.
  destruct (patterns NewDesensitizer !! name) as [p|] eqn:Hp; [|done].
  apply NewDesensitizer_rules in Hp.
  pose proof rules_keep_markers as Hall.
  rewrite Forall_forall in Hall. specialize (Hall _ Hp). cbn in Hall.
  rewrite Forall_forall in Hall. by apply Hall.
Qed.

(** Each replacement marker is a fixed point of every rule, so
    [Desensitize] returns a marker unchanged whatever the order in which
    the rules are applied. *)
Lemma markers_are_fixed_points :
  Forall (fun m => forall order : list string,
              Desensitize order m NewDesensitizer = m)
         markers.
Proof.
  apply Forall_forall. intros m Hm order. unfold Desensitize.
  destruct (decide (m = "")); [done|].
  induction order as [|name order IH]; [done|].
  cbn [fold_left]. by rewrite applyPattern_marker.
Qed.

Lemma ReplaceAllString_NoMatch re text repl :
  NoMatch re text -> ReplaceAllString re text repl = text.
Proof.
  unfold NoMatch, ReplaceAllString. intros H.
  rewrite replaceFrom_quiet by done. apply string_of_list_ascii_of_string.
Qed.

Lemma ReplaceAllString_keeps wb ri rj repl text :
  needsChar ri = true -> needsChar rj = true -> bracketFree ri = true ->
  (usesBoundary ri = true -> wb = true) -> (wb = true -> anchored rj) ->
  inertMarker ri repl ->
  quietWhere rj ri None (list_ascii_of_string text) ->
  NoMatch ri (ReplaceAllString rj text repl).
Proof.
  intros Hri Hrj Hfree Hwb Hanch (q & Hrepl & Hq) Hg.
  unfold NoMatch, ReplaceAllString.
  rewrite list_ascii_of_string_of_list_ascii, Hrepl.
  by eapply (replaceFrom_keeps_quiet wb ri rj "["%char q "]"%char);
    [..|left|].
Qed.

Lemma inertMarker_closed ri repl :
  (let l := list_ascii_of_string repl in
   let q := removelast (tl l) in
   l = ("["%char :: q ++ ["]"%char])%list
   /\ quiet ri (Some "["%char) (q ++ ["]"%char])%list) ->
  inertMarker ri repl.
Proof. intros H. by eexists. Qed.

Lemma anchored_closed re :
  re = WordBoundary :: (removelast (tl re) ++ [WordBoundary])%list ->
  anchored re.
Proof. intros H. by eexists. Qed.

Lemma rules_tame name p :
  (name, p) ∈ rules ->
  needsChar (regex p) = true
  /\ bracketFree (regex p) = true
  /\ (name <> "uuid" -> anchored (regex p))
  /\ (name = "uuid" -> usesBoundary (regex p) = false)
  /\ Forall (fun r' => inertMarker (regex p) (replacement (snd r'))) rules.
Proof.
  unfold rules at 1. intros H.
  repeat (apply elem_of_cons in H as [H|H];
          [injection H as -> ->; cbn [regex];
           split; [reflexivity|]; split; [reflexivity|];
           split; [intros Hn; try done;
                   apply anchored_closed; reflexivity|];
           split; [intros Hn; try done|];
           unfold rules;
           repeat (apply Forall_cons; split;
                   [apply inertMarker_closed; vm_compute;
                    repeat split; reflexivity|]);
           apply Forall_nil_2|]).
  by apply elem_of_nil in H.
Qed.


(** A rule finds no match in its own output. *)
Lemma applyPattern_self name p text :
  patterns NewDesensitizer !! name = Some p ->
  NoMatch (regex p) (applyPattern NewDesensitizer text name).
Proof.
  intros Hp. unfold applyPattern. rewrite Hp.
  pose proof (NewDesensitizer_rules _ _ Hp) as Hin.
  destruct (rules_tame _ _ Hin) as (Hneeds & Hfree & Hanch & Huuid & Hinert).
  apply (ReplaceAllString_keeps (usesBoundary (regex p))); try done.
  - intros Hwb. apply Hanch. intros ->. by rewrite Huuid in Hwb.
  - rewrite Forall_forall in Hinert. apply (Hinert _ Hin).
  - apply quietWhere_refl.
Qed.

(** An anchored rule gives no other rule a match. *)
Lemma applyPattern_keeps name' p' name text :
  patterns NewDesensitizer !! name' = Some p' ->
  name <> "uuid" ->
  NoMatch (regex p') text ->
  NoMatch (regex p') (applyPattern NewDesensitizer text name).
Proof.
  intros Hp' Hname Hq. unfold applyPattern.
  destruct (patterns NewDesensitizer !! name) as [p|] eqn:Hp; [|done].
  pose proof (NewDesensitizer_rules _ _ Hp) as Hin.
  pose proof (NewDesensitizer_rules _ _ Hp') as Hin'.
  destruct (rules_tame _ _ Hin) as (Hneeds & _ & Hanch & _ & _).
  destruct (rules_tame _ _ Hin') as (Hneeds' & Hfree' & _ & _ & Hinert').
  apply (ReplaceAllString_keeps true); auto.
  - rewrite Forall_forall in Hinert'. apply (Hinert' _ Hin).
  - by apply quietWhere_quiet.
Qed.

Lemma applyPattern_NoMatch name p text :
  patterns NewDesensitizer !! name = Some p ->
  NoMatch (regex p) text ->
  applyPattern NewDesensitizer text name = text.
Proof.
  intros Hp Hq. unfold applyPattern. rewrite Hp.
  by apply ReplaceAllString_NoMatch.
Qed.

Lemma uuid_rule :
  patterns NewDesensitizer !! "uuid" = Some (mkPattern uuid "[UUID]").
Proof. vm_compute. reflexivity. Qed.

(** One rule of a pass, on a text without a UUID match: the text still has
    none, the rule finds no match in its output, and every rule that found
    none before finds none after. *)
Lemma applyPattern_settled name text :
  NoMatch uuid text ->
  NoMatch uuid (applyPattern NewDesensitizer text name)
  /\ (forall p, patterns NewDesensitizer !! name = Some p ->
                NoMatch (regex p) (applyPattern NewDesensitizer text name))
  /\ (forall name' p', patterns NewDesensitizer !! name' = Some p' ->
                       NoMatch (regex p') text ->
                       NoMatch (regex p')
                               (applyPattern NewDesensitizer text name)).
Proof.
  intros Hu. destruct (decide (name = "uuid")) as [-> | Hname].
  - rewrite (applyPattern_NoMatch _ _ _ uuid_rule Hu).
    split; [done|]. split; [|done].
    intros p Hp. rewrite uuid_rule in Hp. by injection Hp as <-.
  - split; [by apply (applyPattern_keeps _ _ _ _ uuid_rule)|].
    split; [intros p Hp; by apply applyPattern_self|].
    intros name' p' Hp' Hq. by apply (applyPattern_keeps name').
Qed.

(** A pass over anchored rules: each of them finds no match in the
    result. *)
Lemma pass_anchored pre :
  "uuid" ∉ pre ->
  forall text name p,
    name ∈ pre -> patterns NewDesensitizer !! name = Some p ->
    NoMatch (regex p) (fold_left (applyPattern NewDesensitizer) pre text).
Proof.
  induction pre as [|x pre IH] using rev_ind; intros Hpre text name p Hin Hp.
  - by apply elem_of_nil in Hin.
  - rewrite fold_left_app. cbn [fold_left].
    apply not_elem_of_app in Hpre as [Hpre Hx].
    rewrite list_elem_of_singleton in Hx.
    apply elem_of_app in Hin as [Hin|Hin].
    + apply (applyPattern_keeps name); [done|congruence|by apply (IH Hpre _ name)].
    + apply list_elem_of_singleton in Hin as ->. by apply applyPattern_self.
Qed.

(** A pass on a text without a UUID match. *)
Lemma pass_settled order :
  forall text (seen : list string),
    NoMatch uuid text ->
    (forall name p, name ∈ seen ->
                    patterns NewDesensitizer !! name = Some p ->
                    NoMatch (regex p) text) ->
    forall name p,
      name ∈ seen \/ name ∈ order ->
      patterns NewDesensitizer !! name = Some p ->
      NoMatch (regex p) (fold_left (applyPattern NewDesensitizer) order text).
Proof.
  induction order as [|x order IH]; intros text seen Hu Hseen name p Hin Hp.
  - destruct Hin as [Hin|Hin]; [by apply (Hseen name)|by apply elem_of_nil in Hin].
  - cbn [fold_left].
    destruct (applyPattern_settled x text Hu) as (Hu' & Hself & Hkeep).
    assert (Hseen' : forall name' p',
               name' ∈ x :: seen ->
               patterns NewDesensitizer !! name' = Some p' ->
               NoMatch (regex p') (applyPattern NewDesensitizer text x)).
    { intros name' p' [-> | Hin']%elem_of_cons Hp'; [by apply Hself|].
      apply (Hkeep name'); [done|by apply (Hseen name')]. }
    apply (IH _ (x :: seen) Hu' Hseen' name); [|done].
    rewrite !elem_of_cons in *. tauto.
Qed.

(** A second pass changes nothing when its rules find no match. *)
Lemma pass_NoMatch again :
  forall text,
    (forall name p, name ∈ again ->
                    patterns NewDesensitizer !! name = Some p ->
                    NoMatch (regex p) text) ->
    fold_left (applyPattern NewDesensitizer) again text = text.
Proof.
  induction again as [|x again IH]; intros text Hq; [done|].
  cbn [fold_left].
  assert (Hx : applyPattern NewDesensitizer text x = text).
  { destruct (patterns NewDesensitizer !! x) as [p|] eqn:Hp.
    - apply (applyPattern_NoMatch _ p); [done|].
      apply (Hq x); [apply elem_of_cons; by left|done].
    - unfold applyPattern. by rewrite Hp. }
  rewrite Hx. apply IH. intros name p Hin. apply Hq, elem_of_cons. by right.
Qed.

(** C9, as the code has it: a second pass of [Desensitize] changes nothing
    whenever the UUID rule, the only one of the six that is not anchored by
    [\b], either is the first rule of the first pass or finds no match in
    the text it is applied to (the text that the rules [pre] before it
    leave; with [pre] empty, the input itself).  This holds for every
    input, for every order of the rules in the first pass and for every
    order in the second pass over rules of the first.  The replacement
    markers are fixed points of every rule. *)
Theorem C9_idempotent_unless_the_uuid_rule_uncovers_a_match :
  (forall (text : string) (order again : list string),
      again ⊆ order ->
      (exists rest, order = "uuid" :: rest)
      \/ (exists pre rest,
             order = (pre ++ rest)%list /\ ("uuid" ∉ pre)
             /\ NoMatch uuid (Desensitize pre text NewDesensitizer)) ->
      Desensitize again (Desensitize order text NewDesensitizer)
                  NewDesensitizer
      = Desensitize order text NewDesensitizer)
  /\ Forall (fun m => forall name,
                 applyPattern NewDesensitizer m name = m) markers.
Proof.
  split; [|apply Forall_forall; intros m Hm name;
           by apply applyPattern_marker].
  intros text order again Hsub Horder. unfold Desensitize.
  destruct (decide (text = "")) as [-> | Htext]; [done|].
  destruct (decide (fold_left _ order text = "")); [done|].
  apply pass_NoMatch. intros name p Hin%Hsub Hp.
  destruct Horder as [[rest ->] | (pre & rest & -> & Hpre & Hu)].
  - cbn [fold_left].
    apply (pass_settled rest _ ["uuid"] (applyPattern_self _ _ _ uuid_rule))
      with (name := name); [| |done].
    + intros name' p' ->%list_elem_of_singleton Hp'.
      by apply applyPattern_self.
    + rewrite elem_of_cons in Hin. rewrite list_elem_of_singleton. tauto.
  - rewrite fold_left_app. unfold Desensitize in Hu.
    rewrite decide_False in Hu by done.
    apply (pass_settled rest _ pre Hu) with (name := name);
      [|by apply elem_of_app|done].
    intros name' p' Hin' Hp'. by apply (pass_anchored pre Hpre _ name').
Qed.

Lemma C9_idempotent_unless_the_uuid_rule_uncovers_a_match_witness :
  Desensitize scenario.registrationOrder
              (Desensitize scenario.uuidFirst scenario.gluedText
                           NewDesensitizer)
              NewDesensitizer
  = Desensitize scenario.uuidFirst scenario.gluedText NewDesensitizer
  /\ Desensitize scenario.uuidFirst
                 (Desensitize scenario.registrationOrder
                              "call 13912345678 from 10.0.0.1"
                              NewDesensitizer)
                 NewDesensitizer
     = Desensitize scenario.registrationOrder
                   "call 13912345678 from 10.0.0.1" NewDesensitizer.
Proof.
  split.
  - apply (proj1 C9_idempotent_unless_the_uuid_rule_uncovers_a_match).
    + apply (bool_decide_unpack _). vm_compute. exact I.
    + left. by eexists.
  - apply (proj1 C9_idempotent_unless_the_uuid_rule_uncovers_a_match).
    + apply (bool_decide_unpack _). vm_compute. exact I.
    + right. exists [], scenario.registrationOrder.
      split; [reflexivity|]. split; [apply not_elem_of_nil|].
      vm_compute. repeat split; reflexivity.
Defined.

(** C9 as stated fails: eleven digits glued to a UUID.  With the rules in
    the order of their registration the first pass replaces the UUID only,
    which leaves the digits as a word of their own, and the second pass
    replaces them as a phone number.  With the UUID rule first one pass
    already gives that result. *)
Lemma C9_counterexample :
  rangeOrder (patterns NewDesensitizer) scenario.registrationOrder
  /\ Desensitize scenario.registrationOrder scenario.gluedText NewDesensitizer
     = "12345678901[UUID]"
  /\ Desensitize scenario.registrationOrder "12345678901[UUID]" NewDesensitizer
     = "[PHONE][UUID]"
  /\ Desensitize scenario.uuidFirst scenario.gluedText NewDesensitizer
     = "[PHONE][UUID]".
Proof.
  split; [|vm_compute; repeat split; reflexivity].
  unfold rangeOrder. apply (bool_decide_unpack _). vm_compute. exact I.
Qed.

End DesensitizerTheorems.

(** * Further properties of the code *)

(** ** The circuit breaker: transitions and invariants *)

Section BreakerTransitions.
Import breaker.

Implicit Types (ccb : clusterCircuitBreaker) (b : clusterBreaker).

Lemma UpdatePolicy_found now cid (p : Policy.t) ccb :
  exists b,
    UpdatePolicy now cid (Some p) ccb
    = (None, mkCCB (config ccb) (<[cid := b]> (clusters ccb))).
Proof. unfold UpdatePolicy. eauto. Qed.

(** X1: a circuit-break policy of severity at least 0.8 opens the breaker of
    its cluster at once, whatever the state before and without any recorded
    failure: the cluster is OPEN, to be retried one break duration after the
    update, its timeout and increment are those of the policy, its failure
    threshold is still the configured one, and [Allow] answers [false] up to
    the retry instant. *)
Theorem X1_severe_policy_opens_breaker :
  forall (now : time.Time) (cid : string) (p : Policy.t)
         (cbp : CircuitBreakPolicy.t) ccb,
    cid <> "" ->
    Policy.PolicyType p = PolicyTypeCircuitBreak ->
    Policy.CircuitBreak p = Some cbp ->
    PrimFloat.leb 0.8%float (Policy.Severity p) = true ->
    exists b,
      clusters (snd (UpdatePolicy now cid (Some p) ccb)) !! cid = Some b
      /\ State b = BreakerStateOpen
      /\ NextRetry b = now + CircuitBreakPolicy.BreakDuration cbp
      /\ Config b
         = BreakerConfig.mk (BreakerConfig.FailureThreshold (config ccb))
                            (CircuitBreakPolicy.BreakDuration cbp)
                            (CircuitBreakPolicy.RecoveryStep cbp)
      /\ forall t,
           t <= now + CircuitBreakPolicy.BreakDuration cbp ->
           fst (Allow t cid (snd (UpdatePolicy now cid (Some p) ccb))) = false.
Proof.
  intros now cid p cbp ccb Hne Hty Hcb Hsev.
  unfold UpdatePolicy. rewrite Hcb, Hsev. rewrite decide_True by done.
  cbn [snd clusters]. rewrite lookup_insert_eq.
  eexists. split; [reflexivity|]. cbn.
  repeat split.
  intros t Ht. erewrite Allow_found; [|done|apply lookup_insert_eq].
  cbn [fst]. unfold breaker_Allow. cbn. unfold time.After, time.Add.
  destruct (Z.ltb_spec (now + CircuitBreakPolicy.BreakDuration cbp) t);
    [lia | done].
Qed.

Lemma X1_severe_policy_opens_breaker_witness :
  exists b,
    clusters (snd (UpdatePolicy 5 "k" (Some scenario.breakPolicy)
                     scenario.registered)) !! "k" = Some b
    /\ State b = BreakerStateOpen
    /\ NextRetry b = 5 + 60000000000
    /\ Config b
       = BreakerConfig.mk
           (BreakerConfig.FailureThreshold (config scenario.registered))
           60000000000 0.2%float
    /\ forall t,
         t <= 5 + 60000000000 ->
         fst (Allow t "k" (snd (UpdatePolicy 5 "k" (Some scenario.breakPolicy)
                                  scenario.registered))) = false.
Proof.
  apply (X1_severe_policy_opens_breaker 5 "k" scenario.breakPolicy
           (CircuitBreakPolicy.mk 60000000000 0.2%float) scenario.registered).
  - done.
  - reflexivity.
  - reflexivity.
  - vm_compute. reflexivity.
Defined.

(** X2: a policy update never closes a breaker and never clears its
    counters: for a cluster that already has a breaker, the failure and
    success counters are kept, and the state is kept unless the update opens
    the breaker. *)
Theorem X2_policy_update_keeps_counters :
  forall (now : time.Time) (cid : string) (p : Policy.t) ccb b,
    clusters ccb !! cid = Some b ->
    exists b',
      clusters (snd (UpdatePolicy now cid (Some p) ccb)) !! cid = Some b'
      /\ FailureCount b' = FailureCount b
      /\ SuccessCount b' = SuccessCount b
      /\ Policy b' = Some p
      /\ (State b' = State b \/ State b' = BreakerStateOpen).
Proof.
  intros now cid p ccb b Hb. unfold UpdatePolicy. rewrite Hb.
  cbn [snd clusters]. rewrite lookup_insert_eq. eexists.
  split; [reflexivity|].
  destruct (Policy.CircuitBreak p) as [cbp|]; [|cbn; auto].
  destruct (decide _); [|cbn; auto].
  destruct (PrimFloat.leb _ _); cbn; auto.
Qed.

Lemma X2_policy_update_keeps_counters_witness :
  exists b',
    clusters (snd (UpdatePolicy 9 "k" (Some scenario.rateLimitPolicy)
                     scenario.opened)) !! "k" = Some b'
    /\ FailureCount b' = FailureCount scenario.openBreaker
    /\ SuccessCount b' = SuccessCount scenario.openBreaker
    /\ Policy b' = Some scenario.rateLimitPolicy
    /\ (State b' = State scenario.openBreaker
        \/ State b' = BreakerStateOpen).
Proof.
  apply (X2_policy_update_keeps_counters 9 "k" scenario.rateLimitPolicy
           scenario.opened scenario.openBreaker).
  vm_compute. reflexivity.
Defined.

(** X3: any failure recorded while HALF_OPEN opens the breaker again, to be
    retried one recovery timeout later, and [Allow] answers [false] up to
    that instant. *)
Theorem X3_half_open_failure_reopens :
  forall (now : time.Time) (cid : string) ccb b,
    cid <> "" ->
    clusters ccb !! cid = Some b ->
    State b = BreakerStateHalfOpen ->
    exists b',
      clusters (snd (RecordFailure now cid ccb)) !! cid = Some b'
      /\ State b' = BreakerStateOpen
      /\ NextRetry b' = now + BreakerConfig.RecoveryTimeout (Config b)
      /\ FailureCount b' = wrap64 (FailureCount b + 1)
      /\ forall t,
           t <= now + BreakerConfig.RecoveryTimeout (Config b) ->
           fst (Allow t cid (snd (RecordFailure now cid ccb))) = false.
Proof.
  intros now cid ccb b Hne Hb Hs.
  rewrite (RecordFailure_found now cid ccb b) by done. cbn [snd clusters].
  rewrite lookup_insert_eq. eexists. split; [reflexivity|].
  unfold breaker_RecordFailure. cbn. rewrite Hs. cbn. repeat split.
  intros t Ht. erewrite Allow_found; [|done|apply lookup_insert_eq].
  cbn [fst]. unfold breaker_Allow. cbn.
  unfold time.After, time.Add.
  destruct (Z.ltb_spec (now + BreakerConfig.RecoveryTimeout (Config b)) t);
    [lia | done].
Qed.

Lemma X3_half_open_failure_reopens_witness :
  exists b',
    clusters (snd (RecordFailure 7 "k" scenario.halfOpen)) !! "k" = Some b'
    /\ State b' = BreakerStateOpen
    /\ NextRetry b'
       = 7 + BreakerConfig.RecoveryTimeout (Config scenario.halfOpenBreaker)
    /\ FailureCount b' = wrap64 (FailureCount scenario.halfOpenBreaker + 1)
    /\ forall t,
         t <= 7 + BreakerConfig.RecoveryTimeout
                    (Config scenario.halfOpenBreaker) ->
         fst (Allow t "k" (snd (RecordFailure 7 "k" scenario.halfOpen)))
         = false.
Proof.
  apply (X3_half_open_failure_reopens 7 "k" scenario.halfOpen
           scenario.halfOpenBreaker).
  - done.
  - vm_compute. reflexivity.
  - reflexivity.
Defined.

Lemma Allows_half_open times : forall cid ccb b,
  cid <> "" -> clusters ccb !! cid = Some b ->
  State b = BreakerStateHalfOpen ->
  exists b',
    clusters (execAll (map (fun t => CallAllow t cid) times) ccb) !! cid
    = Some b'
    /\ State b' = BreakerStateHalfOpen
    /\ FailureCount b' = FailureCount b
    /\ SuccessCount b' = SuccessCount b.
Proof.
  induction times as [|t times IH]; intros cid ccb b Hne Hb Hs; [by eauto|].
  cbn [map execAll fold_left exec].
  rewrite (Allow_found t cid ccb b) by done. cbn [snd].
  edestruct (IH cid
               (mkCCB (config ccb)
                      (<[cid := snd (breaker_Allow t b)]> (clusters ccb))))
    as (b' & Hb' & Hs' & Hf & Hc).
  - done.
  - cbn. apply lookup_insert_eq.
  - unfold breaker_Allow. cbn. by rewrite Hs.
  - exists b'. split; [exact Hb'|]. split; [done|].
    revert Hf Hc. unfold breaker_Allow. cbn. rewrite Hs. cbn. auto.
Qed.

(** X4: the first [Allow] later than the retry instant of an OPEN breaker is
    admitted and leaves the breaker HALF_OPEN; from then on every [Allow],
    at whatever instant and however many came before, is admitted as well,
    and the breaker stays HALF_OPEN with its counters as they were when it
    was open: the number of probes is not bounded. *)
Theorem X4_half_open_admits_every_request :
  forall (now : time.Time) (cid : string) ccb b,
    cid <> "" ->
    clusters ccb !! cid = Some b ->
    State b = BreakerStateOpen ->
    NextRetry b < now ->
    fst (Allow now cid ccb) = true
    /\ forall (times : list time.Time) (t : time.Time),
         let ccb' := execAll (map (fun t => CallAllow t cid) times)
                             (snd (Allow now cid ccb)) in
         fst (Allow t cid ccb') = true
         /\ exists b',
              clusters ccb' !! cid = Some b'
              /\ State b' = BreakerStateHalfOpen
              /\ FailureCount b' = FailureCount b
              /\ SuccessCount b' = SuccessCount b.
Proof.
  intros now cid ccb b Hne Hb Hs Hlt.
  rewrite (Allow_found now cid ccb b) by done. cbn [fst snd].
  assert (Hafter : time.After now (NextRetry b) = true)
    by (unfold time.After; by apply Z.ltb_lt).
  assert (Hb1 : breaker_Allow now b
                = (true, setState now BreakerStateHalfOpen
                           (with_Stats (recordRequest (Stats b)) b))).
  { unfold breaker_Allow. cbn. rewrite Hs. cbn in *. by rewrite Hafter. }
  rewrite Hb1. cbn [fst snd]. split; [done|]. intros times t.
  set (ccb' := execAll _ _).
  destruct (Allows_half_open times cid
              (mkCCB (config ccb)
                 (<[cid := setState now BreakerStateHalfOpen
                             (with_Stats (recordRequest (Stats b)) b)]>
                    (clusters ccb)))
              (setState now BreakerStateHalfOpen
                 (with_Stats (recordRequest (Stats b)) b)))
    as (b' & Hb' & Hs' & Hf & Hc);
    [done | cbn; apply lookup_insert_eq | done |].
  split.
  - rewrite (Allow_found t cid ccb' b') by done. cbn [fst].
    unfold breaker_Allow. cbn. by rewrite Hs'.
  - exists b'. by repeat split.
Qed.

Lemma X4_half_open_admits_every_request_witness :
  fst (Allow 1000000004 "k" scenario.opened) = true
  /\ forall (times : list time.Time) (t : time.Time),
       let ccb' := execAll (map (fun t => CallAllow t "k") times)
                           (snd (Allow 1000000004 "k" scenario.opened)) in
       fst (Allow t "k" ccb') = true
       /\ exists b',
            clusters ccb' !! "k" = Some b'
            /\ State b' = BreakerStateHalfOpen
            /\ FailureCount b' = FailureCount scenario.openBreaker
            /\ SuccessCount b' = SuccessCount scenario.openBreaker.
Proof.
  apply (X4_half_open_admits_every_request 1000000004 "k" scenario.opened
           scenario.openBreaker).
  - done.
  - vm_compute. reflexivity.
  - reflexivity.
  - vm_compute. reflexivity.
Defined.

Lemma wellFormed_insert cfg ccb cid b :
  wellFormed cfg ccb ->
  ClusterID b = cid ->
  BreakerConfig.FailureThreshold (Config b)
  = BreakerConfig.FailureThreshold cfg ->
  wellFormed cfg (mkCCB (config ccb) (<[cid := b]> (clusters ccb))).
Proof.
  intros [Hcfg Hall] Hid Hthr. split; [done|]. intros k b' Hk. cbn in Hk.
  apply lookup_insert_Some in Hk as [[<- <-]|[_ Hk]]; [done|by apply Hall].
Qed.

Lemma exec_wellFormed cfg c ccb :
  wellFormed cfg ccb -> wellFormed cfg (exec c ccb).
Proof.
  intros Hwf. pose proof Hwf as [Hcfg Hall].
  destruct c as [now k|now k|now k|k|now k p]; cbn.
  - unfold Allow. destruct (decide (k = "")); [done|].
    destruct (clusters ccb !! k) as [b|] eqn:Hb; [|done].
    destruct (Hall k b Hb) as [Hid Hthr].
    destruct (breaker_Allow now b) as [ok b'] eqn:Hb'. cbn.
    assert (ClusterID b' = ClusterID b /\ Config b' = Config b) as [Hi Hc].
    { revert Hb'. unfold breaker_Allow. cbn.
      destruct (State b); [|destruct (time.After _ _)|];
        intros [= _ <-]; done. }
    apply wellFormed_insert; [done|congruence|congruence].
  - unfold RecordSuccess. destruct (decide (k = "")); [done|].
    destruct (clusters ccb !! k) as [b|] eqn:Hb; [|done].
    destruct (Hall k b Hb) as [Hid Hthr]. cbn.
    apply wellFormed_insert; [done| |];
      unfold breaker_RecordSuccess; cbn;
      destruct (State b); [| |destruct (_ <=? _)| | |destruct (_ <=? _)];
      done.
  - unfold RecordFailure. destruct (decide (k = "")); [done|].
    destruct (clusters ccb !! k) as [b|] eqn:Hb; [|done].
    destruct (Hall k b Hb) as [Hid Hthr]. cbn.
    apply wellFormed_insert; [done| |];
      unfold breaker_RecordFailure; cbn;
      destruct (State b); [destruct (_ <=? _)| | |destruct (_ <=? _)| |];
      done.
  - done.
  - unfold UpdatePolicy. destruct p as [p|]; [|done]. cbn [snd].
    apply wellFormed_insert; [done| |].
    + destruct (clusters ccb !! k) as [b|] eqn:Hb;
        [destruct (Hall k b Hb) as [Hid _]|];
        (destruct (Policy.CircuitBreak p); [|done]);
        (destruct (decide _); [|done]);
        destruct (PrimFloat.leb _ _); done.
    + destruct (clusters ccb !! k) as [b|] eqn:Hb;
        [destruct (Hall k b Hb) as [_ Hthr]|];
        (destruct (Policy.CircuitBreak p); [|cbn; congruence]);
        (destruct (decide _); [|cbn; congruence]);
        destruct (PrimFloat.leb _ _); cbn; congruence.
Qed.

(** X5: whatever calls a breaker built by [NewClusterCircuitBreaker] has
    served, its configuration is the one it was built with, every entry is
    filed under the id its breaker carries, and every breaker's failure
    threshold is the configured one: a policy changes the timeout and the
    increment of a cluster, never its threshold. *)
Theorem X5_breaker_threshold_is_global :
  forall (cfg : BreakerConfig.t) (cs : list call),
    wellFormed cfg (execAll cs (NewClusterCircuitBreaker cfg)).
Proof.
  intros cfg cs.
  assert (H : forall ccb, wellFormed cfg ccb -> wellFormed cfg (execAll cs ccb)).
  { induction cs as [|c cs IH]; intros ccb Hwf; [done|].
    cbn. apply IH. by apply exec_wellFormed. }
  apply H. split; [done|]. intros k b Hk. cbn in Hk.
  by rewrite lookup_empty in Hk.
Qed.

(** X6: clusters are isolated: calls that name other clusters, however many
    and of whatever kind, leave the entry of a cluster as it was. *)
Theorem X6_clusters_are_isolated :
  forall (cs : list call) (cid : string) ccb,
    Forall (fun c => clusterOf c <> cid) cs ->
    clusters (execAll cs ccb) !! cid = clusters ccb !! cid.
Proof.
  induction cs as [|c cs IH]; intros cid ccb Hcs; [done|].
  inversion Hcs; subst. cbn. rewrite IH by done. by apply exec_other.
Qed.

Lemma X6_clusters_are_isolated_witness :
  clusters (execAll [CallRecordFailure 1 "other";
                     CallUpdatePolicy 2 "other" (Some scenario.breakPolicy);
                     CallAllow 3 "other"] scenario.halfOpen) !! "k"
  = clusters scenario.halfOpen !! "k".
Proof.
  apply (X6_clusters_are_isolated
           [CallRecordFailure 1 "other";
            CallUpdatePolicy 2 "other" (Some scenario.breakPolicy);
            CallAllow 3 "other"] "k" scenario.halfOpen).
  repeat constructor; done.
Defined.

Lemma failureCount_cons o outs :
  failureCount (o :: outs)
  = (if fst o then 0 else 1) + failureCount outs.
Proof.
  unfold failureCount. rewrite filter_cons.
  destruct o as [[] t]; cbn.
  - rewrite decide_False by done. lia.
  - rewrite decide_True by done. cbn [length]. lia.
Qed.

Lemma failureCount_nonneg outs : 0 <= failureCount outs.
Proof. unfold failureCount. lia. Qed.

Lemma records_open outs : forall cid ccb b,
  cid <> "" -> clusters ccb !! cid = Some b ->
  State b = BreakerStateOpen ->
  GetState cid (execAll (map (recordCall cid) outs) ccb) = BreakerStateOpen.
Proof.
  induction outs as [|[ok t] outs IH]; intros cid ccb b Hne Hb Hs.
  - cbn. by rewrite (GetState_found cid ccb b).
  - cbn [map execAll fold_left]. unfold recordCall at 2. cbn [fst snd].
    destruct ok; cbn [exec].
    + rewrite (RecordSuccess_found t cid ccb b) by done. cbn [snd].
      eapply IH; [done|cbn; apply lookup_insert_eq|].
      unfold breaker_RecordSuccess. cbn. by rewrite Hs.
    + rewrite (RecordFailure_found t cid ccb b) by done. cbn [snd].
      eapply IH; [done|cbn; apply lookup_insert_eq|].
      unfold breaker_RecordFailure. cbn. by rewrite Hs.
Qed.

(** X7: a success recorded while CLOSED does not clear the failure counter:
    after any sequence of recorded outcomes on a CLOSED breaker, the cluster
    is OPEN exactly when the failures among them, added to those counted
    before, reach the failure threshold, however many successes came in
    between. *)
Theorem X7_successes_do_not_clear_failures :
  forall (outs : list (bool * time.Time)) (cid : string) ccb b,
    cid <> "" ->
    clusters ccb !! cid = Some b ->
    State b = BreakerStateClosed ->
    0 <= FailureCount b ->
    FailureCount b < BreakerConfig.FailureThreshold (Config b) ->
    BreakerConfig.FailureThreshold (Config b) <= max_int64 ->
    GetState cid (execAll (map (recordCall cid) outs) ccb)
    = if BreakerConfig.FailureThreshold (Config b)
         <=? FailureCount b + failureCount outs
      then BreakerStateOpen else BreakerStateClosed.
Proof.
  induction outs as [|[ok t] outs IH]; intros cid ccb b Hne Hb Hs H0 Hlt Hmax.
  - cbn. rewrite (GetState_found cid ccb b) by done.
    unfold failureCount. cbn. rewrite Hs.
    destruct (Z.leb_spec (BreakerConfig.FailureThreshold (Config b))
                         (FailureCount b + Z.of_nat 0)); [lia|done].
  - rewrite failureCount_cons. cbn [fst].
    cbn [map execAll fold_left]. unfold recordCall at 2. cbn [fst snd].
    destruct ok; cbn [exec].
    + rewrite (RecordSuccess_found t cid ccb b) by done. cbn [snd].
      assert (Hb' : State (breaker_RecordSuccess t b) = BreakerStateClosed
                    /\ FailureCount (breaker_RecordSuccess t b)
                       = FailureCount b
                    /\ Config (breaker_RecordSuccess t b) = Config b).
      { unfold breaker_RecordSuccess. cbn. by rewrite Hs. }
      destruct Hb' as (Hs' & Hf' & Hc').
      erewrite (IH cid _ (breaker_RecordSuccess t b));
        [|done|cbn; apply lookup_insert_eq|done|lia|rewrite Hf', Hc'; lia
         |rewrite Hc'; lia].
      rewrite Hf', Hc'. by rewrite Z.add_0_l.
    + rewrite (RecordFailure_found t cid ccb b) by done. cbn [snd].
      pose proof (failureCount_nonneg outs) as Hn.
      destruct (decide (FailureCount b + 1
                        = BreakerConfig.FailureThreshold (Config b)))
        as [Heq|Hneq].
      * destruct (breaker_RecordFailure_reach t b Hs H0 Heq Hmax) as [Hs' _].
        erewrite (records_open outs cid _ (breaker_RecordFailure t b));
          [|done|cbn; apply lookup_insert_eq|done].
        destruct (Z.leb_spec (BreakerConfig.FailureThreshold (Config b))
                    (FailureCount b + (1 + failureCount outs)));
          [done|lia].
      * destruct (breaker_RecordFailure_below t b Hs H0 ltac:(lia) Hmax)
          as (Hs' & Hf' & Hc').
        erewrite (IH cid _ (breaker_RecordFailure t b));
          [|done|cbn; apply lookup_insert_eq|done|lia|rewrite Hf', Hc'; lia
           |rewrite Hc'; lia].
        rewrite Hf', Hc'. by rewrite Z.add_assoc.
Qed.

Lemma X7_successes_do_not_clear_failures_witness :
  GetState "k"
    (execAll (map (recordCall "k")
                [(false, 1); (true, 2); (false, 3); (true, 4); (false, 5)])
       scenario.registered)
  = if BreakerConfig.FailureThreshold (Config scenario.closedBreaker)
       <=? FailureCount scenario.closedBreaker
           + failureCount
               [(false, 1); (true, 2); (false, 3); (true, 4); (false, 5)]
    then BreakerStateOpen else BreakerStateClosed.
Proof.
  apply (X7_successes_do_not_clear_failures
           [(false, 1); (true, 2); (false, 3); (true, 4); (false, 5)]
           "k" scenario.registered scenario.closedBreaker).
  - done.
  - vm_compute. reflexivity.
  - reflexivity.
  - vm_compute. discriminate.
  - vm_compute. reflexivity.
  - vm_compute. discriminate.
Defined.

End BreakerTransitions.

(** ** The TTL cache *)

Section CacheProperties.
Import utils.

(** X8: an entry stored with a positive TTL is served by [Get], and the
    cache is left as it is, at every instant up to [ttl] seconds after the
    [Set]; the first [Get] later than that misses and removes the entry. *)
Theorem X8_cache_entry_lives_for_its_ttl :
  forall (now t : time.Time) (key v : string) (ttl : Z) (c : cache),
    0 < ttl ->
    ttl * time.Second <= max_int64 ->
    (t <= now + ttl * time.Second ->
     Get t key (Set_ now key v ttl c) = (Some v, Set_ now key v ttl c))
    /\ (now + ttl * time.Second < t ->
        Get t key (Set_ now key v ttl c) = (None, delete key c)).
Proof.
  intros now t key v ttl c Hpos Hmax. unfold Get, Set_, cache in *.
  cbv zeta. rewrite lookup_insert_eq. cbn [expiredAt value].
  assert (Httl : (0 <? ttl) = true) by by apply Z.ltb_lt.
  rewrite Httl. unfold time.After, time.Add.
  rewrite wrap64_id
    by (unfold min_int64, max_int64, time.Second in *; lia).
  split; intros Ht.
  - destruct (Z.ltb_spec (now + ttl * time.Second) t); [lia|done].
  - destruct (Z.ltb_spec (now + ttl * time.Second) t); [|lia].
    by rewrite delete_insert_eq.
Qed.

Lemma X8_cache_entry_lives_for_its_ttl_witness :
  (300000000010 <= 10 + 300 * time.Second ->
   Get 300000000010 "sig" (Set_ 10 "sig" "k" 300 ∅)
   = (Some "k", Set_ 10 "sig" "k" 300 ∅))
  /\ (10 + 300 * time.Second < 300000000010 ->
      Get 300000000010 "sig" (Set_ 10 "sig" "k" 300 ∅)
      = (None, delete "sig" ∅)).
Proof.
  apply (X8_cache_entry_lives_for_its_ttl 10 300000000010 "sig" "k" 300 ∅).
  - lia.
  - vm_compute. discriminate.
Defined.

(** X9: an entry stored with a TTL of zero or less is given the zero instant
    as its expiry date, and [Get] takes that for a date that has passed: at
    every instant after the zero instant the entry is not served and the
    [Get] removes it.  [cleanupExpired], which spares the zero date, leaves
    the entry in the cache. *)
Theorem X9_cache_entry_without_ttl_is_never_served :
  forall (now t : time.Time) (key v : string) (ttl : Z) (c : cache),
    ttl <= 0 ->
    0 < t ->
    Get t key (Set_ now key v ttl c) = (None, delete key c)
    /\ cleanupExpired t (Set_ now key v ttl c) !! key = Some (mkItem v 0).
Proof.
  intros now t key v ttl c Httl Ht. unfold Get, Set_, cache in *.
  cbv zeta. rewrite lookup_insert_eq. cbn [expiredAt value].
  assert (Hno : (0 <? ttl) = false) by by apply Z.ltb_ge.
  rewrite Hno. unfold time.After.
  assert (Hafter : (0 <? t) = true) by by apply Z.ltb_lt.
  rewrite Hafter. split; [by rewrite delete_insert_eq|].
  unfold cleanupExpired. apply map_lookup_filter_Some_2.
  - apply lookup_insert_eq.
  - cbn. intros [Hne _]. by apply Hne.
Qed.

Lemma X9_cache_entry_without_ttl_is_never_served_witness :
  Get 20 "sig" (Set_ 10 "sig" "k" 0 ∅) = (None, delete "sig" ∅)
  /\ cleanupExpired 20 (Set_ 10 "sig" "k" 0 ∅) !! "sig"
     = Some (mkItem "k" 0).
Proof.
  apply (X9_cache_entry_without_ttl_is_never_served 10 20 "sig" "k" 0 ∅);
    lia.
Defined.

(** X10: [cleanupExpired] is invisible to readers: at the instant of the
    sweep, [Get] answers for every key what it would have answered without
    the sweep. *)
Theorem X10_cleanup_is_invisible_to_Get :
  forall (now : time.Time) (key : string) (c : cache),
    fst (Get now key (cleanupExpired now c)) = fst (Get now key c).
Proof.
  intros now key c. unfold Get, cleanupExpired, cache in *.
  destruct (c !! key) as [item|] eqn:Hk.
  - destruct (time.After now (expiredAt item)) eqn:Ha.
    + destruct (filter _ c !! key) as [item'|] eqn:Hk'; [|done].
      apply map_lookup_filter_Some in Hk' as [Hk' _].
      rewrite Hk in Hk'. injection Hk' as <-. by rewrite Ha.
    + erewrite map_lookup_filter_Some_2; [by rewrite Ha|done|].
      cbn. rewrite Ha. intros [_ H]. discriminate.
  - rewrite map_lookup_filter_None_2; [done|by left].
Qed.

End CacheProperties.

(** ** The vector agent and the circuit-breaker handler *)

Section AgentProperties.
Import vector.

Lemma Get_Set_live (now t : time.Time) (key v : string) (ttl : Z)
      (c : utils.cache) :
  0 < ttl -> ttl * time.Second <= max_int64 ->
  t <= now + ttl * time.Second ->
  utils.Get t key (utils.Set_ now key v ttl c)
  = (Some v, utils.Set_ now key v ttl c).
Proof.
  intros Hpos Hmax Ht. unfold utils.Get, utils.Set_, utils.cache in *.
  cbv zeta. rewrite lookup_insert_eq. cbn [utils.expiredAt utils.value].
  assert (Httl : (0 <? ttl) = true) by by apply Z.ltb_lt.
  rewrite Httl. unfold time.After, time.Add.
  rewrite wrap64_id
    by (unfold min_int64, max_int64, time.Second in *; lia).
  destruct (Z.ltb_spec (now + ttl * time.Second) t); [lia|done].
Qed.

Lemma agent_scan_sound va vector (order : list string) (l : list string) :
  forall best,
    (best = ("", 0%float)
     \/ (fst best ∈ order
         /\ similarityOf va vector (fst best) = Some (snd best)
         /\ PrimFloat.leb (similarityThreshold va) (snd best) = true)) ->
    (forall k, k ∈ l -> k ∈ order) ->
    fold_left (findStep va vector) l best = ("", 0%float)
    \/ (fst (fold_left (findStep va vector) l best) ∈ order
        /\ similarityOf va vector (fst (fold_left (findStep va vector) l best))
           = Some (snd (fold_left (findStep va vector) l best))
        /\ PrimFloat.leb (similarityThreshold va)
             (snd (fold_left (findStep va vector) l best)) = true).
Proof.
  induction l as [|k l IH]; intros best Hbest Hl; [done|].
  cbn [fold_left]. apply IH; [|intros k' Hk'; apply Hl; by right].
  rewrite agent_findStep_similarityOf.
  destruct (similarityOf va vector k) as [sim|] eqn:Hk; [|done].
  destruct (_ && _) eqn:Hupd; [|done].
  apply andb_true_iff in Hupd as [_ Hthr].
  right. cbn. repeat split; [apply Hl; by left|done|done].
Qed.

(** X11: the cluster the vector agent finds is never below the similarity
    threshold: a result other than the empty id is one of the ids the loop
    ranged over, it names a stored cluster with a centroid, and the cosine
    similarity of the vector to that centroid is at least the threshold. *)
Theorem X11_agent_match_meets_threshold :
  forall (order : list string) (vector : list float32) (va : vectorAgent),
    findMostSimilarCluster order vector va <> "" ->
    findMostSimilarCluster order vector va ∈ order
    /\ exists cluster,
         clusters va !! findMostSimilarCluster order vector va = Some cluster
         /\ Cluster.Centroid cluster <> []
         /\ PrimFloat.leb (similarityThreshold va)
              (utils.CosineSimilarity vector (Cluster.Centroid cluster))
            = true.
Proof.
  intros order vector va Hne. unfold findMostSimilarCluster in *.
  destruct (agent_scan_sound va vector order order ("", 0%float))
    as [Hinit|(Hin & Hsim & Hthr)]; [by left|done| |].
  - rewrite Hinit in Hne. done.
  - split; [done|]. unfold similarityOf in Hsim.
    destruct (clusters va !! _) as [cluster|]; [|done].
    exists cluster. split; [done|].
    destruct (Cluster.Centroid cluster) as [|x xs] eqn:Hc; [done|].
    cbn in Hsim. injection Hsim as Hsim. split; [done|].
    by rewrite Hsim.
Qed.

Lemma X11_agent_match_meets_threshold_witness :
  findMostSimilarCluster ["b"; "a"] scenario.e1 scenario.liveAgent ∈ ["b"; "a"]
  /\ exists cluster,
       clusters scenario.liveAgent
         !! findMostSimilarCluster ["b"; "a"] scenario.e1 scenario.liveAgent
       = Some cluster
       /\ Cluster.Centroid cluster <> []
       /\ PrimFloat.leb (similarityThreshold scenario.liveAgent)
            (utils.CosineSimilarity scenario.e1 (Cluster.Centroid cluster))
          = true.
Proof.
  apply (X11_agent_match_meets_threshold ["b"; "a"] scenario.e1
           scenario.liveAgent).
  vm_compute. discriminate.
Defined.

Lemma find_ignores_cache es es' cl (ca ca' : utils.cache) thr order vec :
  findMostSimilarCluster order vec (mkAgent es cl ca thr)
  = findMostSimilarCluster order vec (mkAgent es' cl ca' thr).
Proof.
  reflexivity.
Qed.

(** X12: an identified cluster is cached under the signature for 300
    seconds: after a lookup that missed the cache and found a cluster, every
    [IdentifyCluster] of the same signature up to 300 seconds later answers
    that cluster from the cache and leaves the agent as it is, without
    looking at the clusters or their order. *)
Theorem X12_identified_cluster_is_cached :
  forall (now : time.Time) (order : list string) (sig cid : string)
         (va : vectorAgent) (vec : list float32),
    sig <> "" ->
    fst (utils.Get now sig (cache va)) = None ->
    GenerateVector sig va = Ok vec ->
    findMostSimilarCluster order vec va = cid ->
    cid <> "" ->
    fst (IdentifyCluster now order sig va) = Ok cid
    /\ forall (t : time.Time) (order' : list string),
         t <= now + 300 * time.Second ->
         IdentifyCluster t order' sig (snd (IdentifyCluster now order sig va))
         = (Ok cid, snd (IdentifyCluster now order sig va)).
Proof.
  intros now order sig cid [es cl ca thr] vec Hsig Hget Hgen Hfind Hcid.
  cbn in Hget. destruct (utils.Get now sig ca) as [cached ca'] eqn:Hca.
  cbn in Hget. subst cached.
  assert (Hfirst : IdentifyCluster now order sig (mkAgent es cl ca thr)
                   = (Ok cid,
                      mkAgent es cl (utils.Set_ now sig cid 300 ca') thr)).
  { unfold IdentifyCluster. rewrite decide_False by done. cbn.
    rewrite Hca. unfold GenerateVector in *. cbn in *.
    destruct es as [es|]; [|done]. rewrite Hgen.
    rewrite (find_ignores_cache (Some es) (Some es) cl ca' ca), Hfind.
    by rewrite decide_False by done. }
  rewrite Hfirst. cbn [fst snd]. split; [done|]. intros t order' Ht.
  unfold IdentifyCluster. rewrite decide_False by done. cbn.
  rewrite Get_Set_live; [done|lia|vm_compute; discriminate|done].
Qed.

Lemma X12_identified_cluster_is_cached_witness :
  fst (IdentifyCluster 5 ["b"; "a"] "timeout" scenario.liveAgent) = Ok "a"
  /\ forall (t : time.Time) (order' : list string),
       t <= 5 + 300 * time.Second ->
       IdentifyCluster t order' "timeout"
         (snd (IdentifyCluster 5 ["b"; "a"] "timeout" scenario.liveAgent))
       = (Ok "a",
          snd (IdentifyCluster 5 ["b"; "a"] "timeout" scenario.liveAgent)).
Proof.
  apply (X12_identified_cluster_is_cached 5 ["b"; "a"] "timeout" "a"
           scenario.liveAgent scenario.e1).
  - done.
  - vm_compute. reflexivity.
  - reflexivity.
  - vm_compute. reflexivity.
  - done.
Defined.

Lemma clusterCopy_id (cluster : Cluster.t) : clusterCopy cluster = cluster.
Proof. by destruct cluster. Qed.

Lemma clusterCopy_fmap (m : gmap string Cluster.t) : clusterCopy <$> m = m.
Proof.
  apply map_eq. intros k. rewrite lookup_fmap.
  destruct (m !! k); cbn; [by rewrite clusterCopy_id|done].
Qed.

(** X13: a cluster update drops every cached answer: right after
    [UpdateClusters], the cluster of any signature is computed afresh from
    the new clusters, whatever the cache held before. *)
Theorem X13_cluster_update_drops_cached_answers :
  forall (now : time.Time) (order : list string) (sig : string)
         (newClusters : gmap string Cluster.t) (va : vectorAgent)
         (vec : list float32),
    sig <> "" ->
    GenerateVector sig va = Ok vec ->
    clusters (snd (UpdateClusters newClusters va)) = newClusters
    /\ fst (IdentifyCluster now order sig (snd (UpdateClusters newClusters va)))
       = Ok (findMostSimilarCluster order vec
               (mkAgent (embeddingService va) newClusters ∅
                        (similarityThreshold va))).
Proof.
  intros now order sig newClusters [es cl ca thr] vec Hsig Hgen.
  unfold UpdateClusters, utils.Clear. cbn [snd clusters embeddingService
                                           similarityThreshold].
  rewrite clusterCopy_fmap. split; [done|].
  unfold IdentifyCluster. rewrite decide_False by done.
  unfold utils.Get, utils.cache. cbn [cache]. rewrite lookup_empty. cbn.
  unfold GenerateVector in *. cbn in *. destruct es as [es|]; [|done].
  rewrite Hgen. unfold findMostSimilarCluster. cbn.
  by destruct (decide _).
Qed.

Lemma X13_cluster_update_drops_cached_answers_witness :
  clusters (snd (UpdateClusters {[ "b" := scenario.clusterAt "b" scenario.e1 ]}
                   (snd (IdentifyCluster 5 ["b"; "a"] "timeout"
                           scenario.liveAgent))))
  = {[ "b" := scenario.clusterAt "b" scenario.e1 ]}
  /\ fst (IdentifyCluster 6 ["b"] "timeout"
            (snd (UpdateClusters
                    {[ "b" := scenario.clusterAt "b" scenario.e1 ]}
                    (snd (IdentifyCluster 5 ["b"; "a"] "timeout"
                            scenario.liveAgent)))))
     = Ok (findMostSimilarCluster ["b"] scenario.e1
             (mkAgent
                (embeddingService
                   (snd (IdentifyCluster 5 ["b"; "a"] "timeout"
                           scenario.liveAgent)))
                {[ "b" := scenario.clusterAt "b" scenario.e1 ]} ∅
                (similarityThreshold
                   (snd (IdentifyCluster 5 ["b"; "a"] "timeout"
                           scenario.liveAgent))))).
Proof.
  apply (X13_cluster_update_drops_cached_answers 6 ["b"] "timeout"
           {[ "b" := scenario.clusterAt "b" scenario.e1 ]}
           (snd (IdentifyCluster 5 ["b"; "a"] "timeout" scenario.liveAgent))
           scenario.e1).
  - done.
  - reflexivity.
Defined.

End AgentProperties.

Section HandlerProperties.
Import middleware.

Lemma record_empty now status m : CircuitBreaker_record now "" status m = m.
Proof.
  destruct m as [[ccb|] va]; [|done]. unfold CircuitBreaker_record. cbn.
  unfold breaker.RecordFailure, breaker.RecordSuccess.
  rewrite !decide_True by done. by destruct (500 <=? status).
Qed.

Lemma CircuitBreaker_empty_id now order next now' c m ccb :
  circuitBreaker m = Some ccb ->
  identify now order c m = ("", vectorAgent m) ->
  CircuitBreaker now order next now' c m
  = (fst (next (mkCtx (ctx_error c) (Some ""))),
     snd (next (mkCtx (ctx_error c) (Some ""))), m).
Proof.
  intros Hcb Hid. unfold CircuitBreaker, CircuitBreaker_admit.
  rewrite Hcb, Hid. unfold breaker.Allow. rewrite decide_True by done.
  destruct (next _) as [status c'']. cbn [fst snd].
  rewrite record_empty. by destruct m; cbn in *; subst.
Qed.

(** X14: a request whose context holds nothing under ["error"] when it
    reaches the circuit-breaker handler is let through whatever the state of
    the breakers, and its outcome is recorded for no cluster: the rest of
    the chain runs with the empty cluster id in the context, its status is
    the response, and the middleware is left exactly as it was.  The only
    write of ["error"] is in [ErrorSampling], after the rest of the chain
    has returned. *)
Theorem X14_request_without_error_bypasses_breaker :
  forall (now : time.Time) (order : list string)
         (next : Context -> Z * Context) (now' : time.Time)
         (c : Context) (m : Middleware) ccb,
    circuitBreaker m = Some ccb ->
    ctx_error c = None ->
    CircuitBreaker now order next now' c m
    = (fst (next (mkCtx None (Some ""))),
       snd (next (mkCtx None (Some ""))), m).
Proof.
  intros now order next now' c m ccb Hcb He.
  rewrite (CircuitBreaker_empty_id now order next now' c m ccb Hcb).
  - by rewrite He.
  - unfold identify, ExtractErrorSignature. rewrite He.
    destruct (vectorAgent m); [|done]. by rewrite decide_True by done.
Qed.

Lemma X14_request_without_error_bypasses_breaker_witness :
  CircuitBreaker 4 []
    (ErrorSampling true (fun _ => "Internal Server Error")
       (fun c => (500, [], c)))
    5 (mkCtx None None) scenario.trippedMiddleware
  = (fst (ErrorSampling true (fun _ => "Internal Server Error")
            (fun c => (500, [], c)) (mkCtx None (Some ""))),
     snd (ErrorSampling true (fun _ => "Internal Server Error")
            (fun c => (500, [], c)) (mkCtx None (Some ""))),
     scenario.trippedMiddleware).
Proof.
  apply (X14_request_without_error_bypasses_breaker 4 []
           (ErrorSampling true (fun _ => "Internal Server Error")
              (fun c => (500, [], c)))
           5 (mkCtx None None) scenario.trippedMiddleware scenario.tripped).
  - reflexivity.
  - reflexivity.
Defined.

(** X15: with the vector agent that [NewGateway] builds, which has no
    embedding service and whose cache only [IdentifyCluster] writes, the
    handler never identifies a cluster: whatever error the context carries
    and whatever the breakers' states, the request is let through under the
    empty cluster id and the middleware, cache included, is left as it
    was. *)
Theorem X15_agent_without_embedding_never_breaks :
  forall (now : time.Time) (order : list string)
         (next : Context -> Z * Context) (now' : time.Time)
         (c : Context) (m : Middleware) ccb va,
    circuitBreaker m = Some ccb ->
    vectorAgent m = Some va ->
    vector.embeddingService va = None ->
    vector.cache va = ∅ ->
    CircuitBreaker now order next now' c m
    = (fst (next (mkCtx (ctx_error c) (Some ""))),
       snd (next (mkCtx (ctx_error c) (Some ""))), m).
Proof.
  intros now order next now' c m ccb [es cl ca thr] Hcb Hva Hes Hca.
  cbn in *. subst.
  apply (CircuitBreaker_empty_id now order next now' c m ccb Hcb).
  unfold identify. rewrite Hva.
  destruct (decide (ExtractErrorSignature c = "")) as [He|He]; [done|].
  unfold vector.IdentifyCluster. rewrite decide_False by done.
  unfold utils.Get, utils.cache. cbn [vector.cache]. by rewrite lookup_empty.
Qed.

Lemma X15_agent_without_embedding_never_breaks_witness :
  CircuitBreaker 4 ["k"] (fun c => (500, c)) 5 scenario.failingContext
                 scenario.openedMiddleware
  = (fst ((fun c => (500, c))
            (mkCtx (ctx_error scenario.failingContext) (Some ""))),
     snd ((fun c : Context => (500, c))
            (mkCtx (ctx_error scenario.failingContext) (Some ""))),
     scenario.openedMiddleware).
Proof.
  apply (X15_agent_without_embedding_never_breaks 4 ["k"] (fun c => (500, c))
           5 scenario.failingContext scenario.openedMiddleware
           scenario.opened scenario.agent).
  - reflexivity.
  - reflexivity.
  - reflexivity.
  - reflexivity.
Defined.

End HandlerProperties.

(** ** The clustering engine *)

Section ClusteringInvariants.
Import clustering.

Lemma wrap64_succ (z : Z) : wrap64 (wrap64 z + 1) = wrap64 (z + 1).
Proof.
  unfold wrap64. f_equal.
  replace ((z + 2 ^ 63) mod 2 ^ 64 - 2 ^ 63 + 1 + 2 ^ 63)
    with ((z + 2 ^ 63) mod 2 ^ 64 + 1) by lia.
  rewrite Zplus_mod_idemp_l. f_equal. lia.
Qed.

Lemma engine_scan_sound ce vector (order : list string) (l : list string) :
  forall best,
    (best = ("", 0%float)
     \/ (fst best ∈ order
         /\ similarityOf ce vector (fst best) = Some (snd best))) ->
    (forall k, k ∈ l -> k ∈ order) ->
    fold_left (findStep ce vector) l best = ("", 0%float)
    \/ (fst (fold_left (findStep ce vector) l best) ∈ order
        /\ similarityOf ce vector (fst (fold_left (findStep ce vector) l best))
           = Some (snd (fold_left (findStep ce vector) l best))).
Proof.
  induction l as [|k l IH]; intros best Hbest Hl; [done|].
  cbn [fold_left]. apply IH; [|intros k' Hk'; apply Hl; by right].
  rewrite engine_findStep_similarityOf.
  destruct (similarityOf ce vector k) as [sim|] eqn:Hk; [|done].
  destruct (PrimFloat.ltb _ _); [|done].
  right. cbn. split; [apply Hl; by left|done].
Qed.

(** What [ProcessErrorEvent] does, case by case. *)
Lemma process_cases now order newID dbErr event ce :
  (exists e,
      EmbeddingService.EmbedText (embeddingService ce)
        (buildErrorSignature event) = Err e
      /\ ProcessErrorEvent now order newID dbErr event ce
         = (Some ("failed to embed text: " +:+ e), event, ce))
  \/ (exists vec,
         EmbeddingService.EmbedText (embeddingService ce)
           (buildErrorSignature event) = Ok vec
         /\ ClusteringConfig.MaxClusters (config ce)
            <= Z.of_nat (size (clusters ce))
         /\ ProcessErrorEvent now order newID dbErr event ce
            = (Some ("failed to create new cluster: "
                     +:+ ("maximum number of clusters ("
                          +:+ pretty (ClusteringConfig.MaxClusters (config ce))
                          +:+ ") reached")),
               event, ce))
  \/ (exists vec,
         EmbeddingService.EmbedText (embeddingService ce)
           (buildErrorSignature event) = Ok vec
         /\ Z.of_nat (size (clusters ce))
            < ClusteringConfig.MaxClusters (config ce)
         /\ ProcessErrorEvent now order newID dbErr event ce
            = (None, set_ClusterID newID event,
               with_clusters
                 (<[newID := Cluster.mk newID vec [ErrorEvent.EventID event]
                               1 now now 0%float
                               (generateClusterDescription event)]>
                    (clusters ce))
                 (<[ErrorEvent.EventID event := newID]> (memberToCluster ce))
                 (AddVector dbErr (ErrorEvent.EventID event) vec (vectorDB ce))
                 ce))
  \/ (exists vec cid s cluster,
         EmbeddingService.EmbedText (embeddingService ce)
           (buildErrorSignature event) = Ok vec
         /\ cid <> ""
         /\ cid ∈ order
         /\ clusters ce !! cid = Some cluster
         /\ similarityOf ce vec cid = Some s
         /\ PrimFloat.ltb s (ClusteringConfig.SimilarityThreshold (config ce))
            = false
         /\ ProcessErrorEvent now order newID dbErr event ce
            = (None, set_ClusterID cid event,
               with_clusters
                 (<[cid := Cluster.mk (Cluster.ID cluster)
                             (updateCentroid
                                (Cluster.Members cluster
                                   ++ [ErrorEvent.EventID event])%list
                                (Cluster.Centroid cluster) vec)
                             (Cluster.Members cluster
                                ++ [ErrorEvent.EventID event])%list
                             (wrap64 (Cluster.ErrorCount cluster + 1))
                             (Cluster.CreateTime cluster) now
                             (Cluster.Severity cluster)
                             (Cluster.Description cluster)]>
                    (clusters ce))
                 (<[ErrorEvent.EventID event := cid]> (memberToCluster ce))
                 (AddVector dbErr (ErrorEvent.EventID event) vec (vectorDB ce))
                 ce)).
Proof.
  unfold ProcessErrorEvent.
  destruct (EmbeddingService.EmbedText _ _) as [vec|e]; [|left; eauto].
  right. unfold FindMostSimilarCluster.
  pose proof (engine_scan_sound ce vec order order ("", 0%float)
                ltac:(by left) ltac:(done)) as Hscan.
  destruct (fold_left (findStep ce vec) order ("", 0%float))
    as [cid sim] eqn:Hfold.
  destruct (bool_decide (cid = "") || PrimFloat.ltb sim _) eqn:Hnew.
  - unfold CreateNewCluster.
    destruct (Z.leb_spec (ClusteringConfig.MaxClusters (config ce))
                         (Z.of_nat (size (clusters ce)))).
    + left. exists vec. by repeat split.
    + right. left. exists vec. by repeat split.
  - right. right. apply orb_false_iff in Hnew as [Hcid Hsim].
    apply bool_decide_eq_false in Hcid.
    destruct Hscan as [[= -> _]|[Hin Hs]]; [done|]. cbn in Hin, Hs.
    pose proof Hs as Hs'. unfold similarityOf in Hs'.
    destruct (clusters ce !! cid) as [cluster|] eqn:Hc; [|done].
    exists vec, cid, sim, cluster. repeat split; try done.
    unfold addEventToCluster. by rewrite Hc.
Qed.

(** X16: [ProcessErrorEvent] fails for two reasons only, the embedding of
    the signature failed or a new cluster was needed and the table was full,
    and a failed call leaves both the engine and the event as they were.  It
    never fails on the cluster it found: the id the lookup returns is an id
    of the table. *)
Theorem X16_process_fails_without_effect :
  forall (now : time.Time) (order : list string) (newID : string)
         (dbErr : error) (event event' : ErrorEvent.t)
         (ce ce' : clusteringEngine) (msg : string),
    ProcessErrorEvent now order newID dbErr event ce = (Some msg, event', ce') ->
    event' = event /\ ce' = ce
    /\ ((exists e,
            EmbeddingService.EmbedText (embeddingService ce)
              (buildErrorSignature event) = Err e
            /\ msg = "failed to embed text: " +:+ e)
        \/ (ClusteringConfig.MaxClusters (config ce)
            <= Z.of_nat (size (clusters ce))
            /\ msg = "failed to create new cluster: "
                     +:+ ("maximum number of clusters ("
                          +:+ pretty (ClusteringConfig.MaxClusters (config ce))
                          +:+ ") reached"))).
Proof.
  intros now order newID dbErr event event' ce ce' msg H.
  destruct (process_cases now order newID dbErr event ce)
    as [(e & He & Hp)|[(vec & He & Hfull & Hp)|[(vec & He & Hroom & Hp)
        |(vec & cid & s & cluster & He & _ & _ & _ & _ & _ & Hp)]]];
    rewrite Hp in H; try discriminate; injection H as <- <- <-.
  - repeat split. left. eauto.
  - repeat split. right. eauto.
Qed.

Lemma X16_process_fails_without_effect_witness :
  scenario.event = scenario.event
  /\ scenario.fullEngine = scenario.fullEngine
  /\ ((exists e,
          EmbeddingService.EmbedText (embeddingService scenario.fullEngine)
            (buildErrorSignature scenario.event) = Err e
          /\ "failed to create new cluster: maximum number of clusters (1) reached"
             = "failed to embed text: " +:+ e)
      \/ (ClusteringConfig.MaxClusters (config scenario.fullEngine)
          <= Z.of_nat (size (clusters scenario.fullEngine))
          /\ "failed to create new cluster: maximum number of clusters (1) reached"
             = "failed to create new cluster: "
               +:+ ("maximum number of clusters ("
                    +:+ pretty (ClusteringConfig.MaxClusters
                                  (config scenario.fullEngine))
                    +:+ ") reached"))).
Proof.
  apply (X16_process_fails_without_effect 9 ["c1"] "c2" None scenario.event
           scenario.event scenario.fullEngine scenario.fullEngine
           "failed to create new cluster: maximum number of clusters (1) reached").
  vm_compute. reflexivity.
Defined.

(** X17: an event that [ProcessErrorEvent] accepts is filed: the event
    carries a cluster id, the engine maps the event's id to that cluster,
    and the cluster lists the event as its last member.  Either the cluster
    is a new one, with the event's vector as centroid and the event as its
    only member, or it is a cluster of the table whose similarity to the
    vector is not below the threshold, with one more member and one more
    error than before. *)
Theorem X17_accepted_event_is_filed :
  forall (now : time.Time) (order : list string) (newID : string)
         (dbErr : error) (event event' : ErrorEvent.t)
         (ce ce' : clusteringEngine),
    ProcessErrorEvent now order newID dbErr event ce = (None, event', ce') ->
    exists vec cluster',
      EmbeddingService.EmbedText (embeddingService ce)
        (buildErrorSignature event) = Ok vec
      /\ event' = set_ClusterID (ErrorEvent.ClusterID event') event
      /\ memberToCluster ce' !! ErrorEvent.EventID event
         = Some (ErrorEvent.ClusterID event')
      /\ clusters ce' !! ErrorEvent.ClusterID event' = Some cluster'
      /\ List.last (Cluster.Members cluster') "" = ErrorEvent.EventID event
      /\ ((ErrorEvent.ClusterID event' = newID
           /\ Cluster.Centroid cluster' = vec
           /\ Cluster.Members cluster' = [ErrorEvent.EventID event]
           /\ Cluster.ErrorCount cluster' = 1)
          \/ (exists cluster s,
                 clusters ce !! ErrorEvent.ClusterID event' = Some cluster
                 /\ similarityOf ce vec (ErrorEvent.ClusterID event') = Some s
                 /\ PrimFloat.ltb s
                      (ClusteringConfig.SimilarityThreshold (config ce))
                    = false
                 /\ Cluster.Members cluster'
                    = (Cluster.Members cluster
                         ++ [ErrorEvent.EventID event])%list
                 /\ Cluster.ErrorCount cluster'
                    = wrap64 (Cluster.ErrorCount cluster + 1))).
Proof.
  intros now order newID dbErr event event' ce ce' H.
  destruct (process_cases now order newID dbErr event ce)
    as [(e & He & Hp)|[(vec & He & Hfull & Hp)|[(vec & He & Hroom & Hp)
        |(vec & cid & s & cluster & He & Hne & Hin & Hc & Hs & Hthr & Hp)]]];
    rewrite Hp in H; try discriminate; injection H as <- <-.
  - exists vec. eexists. split; [done|]. cbn.
    split; [done|]. split; [apply lookup_insert_eq|].
    split; [apply lookup_insert_eq|]. cbn. split; [done|]. by left.
  - exists vec. eexists. split; [done|]. cbn.
    split; [done|]. split; [apply lookup_insert_eq|].
    split; [apply lookup_insert_eq|]. cbn. split; [apply last_last|].
    right. exists cluster, s. by repeat split.
Qed.

Lemma X17_accepted_event_is_filed_witness :
  exists vec cluster',
    EmbeddingService.EmbedText (embeddingService scenario.newEngine)
      (buildErrorSignature scenario.event) = Ok vec
    /\ set_ClusterID "c1" scenario.event
       = set_ClusterID
           (ErrorEvent.ClusterID (set_ClusterID "c1" scenario.event))
           scenario.event
    /\ memberToCluster
         (snd (ProcessErrorEvent 7 [] "c1" None scenario.event
                 scenario.newEngine))
         !! ErrorEvent.EventID scenario.event
       = Some (ErrorEvent.ClusterID (set_ClusterID "c1" scenario.event))
    /\ clusters
         (snd (ProcessErrorEvent 7 [] "c1" None scenario.event
                 scenario.newEngine))
         !! ErrorEvent.ClusterID (set_ClusterID "c1" scenario.event)
       = Some cluster'
    /\ List.last (Cluster.Members cluster') ""
       = ErrorEvent.EventID scenario.event
    /\ ((ErrorEvent.ClusterID (set_ClusterID "c1" scenario.event) = "c1"
         /\ Cluster.Centroid cluster' = vec
         /\ Cluster.Members cluster' = [ErrorEvent.EventID scenario.event]
         /\ Cluster.ErrorCount cluster' = 1)
        \/ (exists cluster s,
               clusters scenario.newEngine
                 !! ErrorEvent.ClusterID (set_ClusterID "c1" scenario.event)
               = Some cluster
               /\ similarityOf scenario.newEngine vec
                    (ErrorEvent.ClusterID (set_ClusterID "c1" scenario.event))
                  = Some s
               /\ PrimFloat.ltb s
                    (ClusteringConfig.SimilarityThreshold
                       (config scenario.newEngine))
                  = false
               /\ Cluster.Members cluster'
                  = (Cluster.Members cluster
                       ++ [ErrorEvent.EventID scenario.event])%list
               /\ Cluster.ErrorCount cluster'
                  = wrap64 (Cluster.ErrorCount cluster + 1))).
Proof.
  apply (X17_accepted_event_is_filed 7 [] "c1" None scenario.event
           (set_ClusterID "c1" scenario.event) scenario.newEngine
           (snd (ProcessErrorEvent 7 [] "c1" None scenario.event
                   scenario.newEngine))).
  vm_compute. reflexivity.
Defined.

Lemma process_config now order newID dbErr event ce :
  config (snd (ProcessErrorEvent now order newID dbErr event ce)) = config ce.
Proof.
  destruct (process_cases now order newID dbErr event ce)
    as [(e & He & Hp)|[(vec & He & Hfull & Hp)|[(vec & He & Hroom & Hp)
        |(vec & cid & s & cluster & He & Hne & Hin & Hc & Hs & Hthr & Hp)]]];
    by rewrite Hp.
Qed.

Lemma process_size now order newID dbErr event ce :
  Z.of_nat (size (clusters ce)) <= ClusteringConfig.MaxClusters (config ce) ->
  Z.of_nat (size (clusters (snd (ProcessErrorEvent now order newID dbErr
                                   event ce))))
  <= ClusteringConfig.MaxClusters (config ce).
Proof.
  intros Hle.
  destruct (process_cases now order newID dbErr event ce)
    as [(e & He & Hp)|[(vec & He & Hfull & Hp)|[(vec & He & Hroom & Hp)
        |(vec & cid & s & cluster & He & Hne & Hin & Hc & Hs & Hthr & Hp)]]];
    rewrite Hp; cbn [snd clusters with_clusters]; try done.
  - rewrite map_size_insert.
    destruct (clusters ce !! newID); unfold id; lia.
  - rewrite map_size_insert. by rewrite Hc.
Qed.

(** X18: the engine never holds more clusters than [MaxClusters]: starting
    from [NewClusteringEngine], after any sequence of events, whatever
    identifiers are drawn and whatever the store answers, the size of the
    cluster table is at most the configured maximum. *)
Theorem X18_cluster_count_is_bounded :
  forall (cfg : ClusteringConfig.t) (es : EmbeddingService.t)
         (db : gmap string (list float32)) (reqs : list request),
    0 <= ClusteringConfig.MaxClusters cfg ->
    Z.of_nat (size (clusters (processAll reqs (NewClusteringEngine cfg es db))))
    <= ClusteringConfig.MaxClusters cfg.
Proof.
  intros cfg es db reqs Hmax.
  assert (H : forall ce,
             config ce = cfg ->
             Z.of_nat (size (clusters ce)) <= ClusteringConfig.MaxClusters cfg ->
             Z.of_nat (size (clusters (processAll reqs ce)))
             <= ClusteringConfig.MaxClusters cfg).
  { induction reqs as [|r reqs IH]; intros ce Hcfg Hle; [done|].
    cbn. apply IH.
    - by rewrite process_config.
    - rewrite <- Hcfg. apply process_size. by rewrite Hcfg. }
  apply H; [done|]. cbn. by rewrite map_size_empty.
Qed.

Lemma X18_cluster_count_is_bounded_witness :
  Z.of_nat (size (clusters
                    (processAll scenario.twoRequests
                       (NewClusteringEngine
                          (ClusteringConfig.mk 0.82%float 3600000000000 2 1)
                          scenario.embedE2 ∅))))
  <= ClusteringConfig.MaxClusters
       (ClusteringConfig.mk 0.82%float 3600000000000 2 1).
Proof.
  apply (X18_cluster_count_is_bounded
           (ClusteringConfig.mk 0.82%float 3600000000000 2 1)
           scenario.embedE2 ∅ scenario.twoRequests).
  vm_compute. discriminate.
Defined.

Lemma process_keys now order newID dbErr event ce k :
  k <> newID ->
  clusters ce !! k = None ->
  clusters (snd (ProcessErrorEvent now order newID dbErr event ce)) !! k = None.
Proof.
  intros Hk Hnone.
  destruct (process_cases now order newID dbErr event ce)
    as [(e & He & Hp)|[(vec & He & Hfull & Hp)|[(vec & He & Hroom & Hp)
        |(vec & cid & s & cluster & He & Hne & Hin & Hc & Hs & Hthr & Hp)]]];
    rewrite Hp; cbn [snd clusters with_clusters]; try done.
  - by rewrite lookup_insert_ne.
  - rewrite lookup_insert_ne; [done|]. intros ->. by rewrite Hc in Hnone.
Qed.

Lemma process_consistent now order newID dbErr event ce :
  clusters ce !! newID = None ->
  consistent ce ->
  consistent (snd (ProcessErrorEvent now order newID dbErr event ce)).
Proof.
  intros Hfresh [Hcl Hm].
  destruct (process_cases now order newID dbErr event ce)
    as [(e & He & Hp)|[(vec & He & Hfull & Hp)|[(vec & He & Hroom & Hp)
        |(vec & cid & s & cluster & He & Hne & Hin & Hc & Hs & Hthr & Hp)]]];
    rewrite Hp; cbn [snd]; try done.
  - split; cbn [clusters memberToCluster with_clusters].
    + intros k c Hk. apply lookup_insert_Some in Hk as [[<- <-]|[_ Hk]];
        [done|by apply Hcl].
    + intros e k He'. apply lookup_insert_Some in He' as [[<- <-]|[_ He']].
      * eexists. split; [apply lookup_insert_eq|]. cbn. by left.
      * destruct (Hm e k He') as (c & Hk & Hin).
        exists c. split; [|done]. rewrite lookup_insert_ne; [done|].
        intros <-. by rewrite Hfresh in Hk.
  - destruct (Hcl cid cluster Hc) as [Hid Hcount].
    split; cbn [clusters memberToCluster with_clusters].
    + intros k c Hk. apply lookup_insert_Some in Hk as [[<- <-]|[_ Hk]];
        [|by apply Hcl].
      cbn. split; [done|]. rewrite Hcount, wrap64_succ.
      rewrite length_app. cbn [length]. f_equal. lia.
    + intros e k He'. apply lookup_insert_Some in He' as [[<- <-]|[_ He']].
      * eexists. split; [apply lookup_insert_eq|]. cbn.
        apply elem_of_app. right. by left.
      * destruct (Hm e k He') as (c & Hk & Hin').
        destruct (decide (k = cid)) as [->|Hkc].
        -- eexists. split; [apply lookup_insert_eq|]. cbn.
           rewrite Hc in Hk. injection Hk as <-.
           apply elem_of_app. by left.
        -- exists c. split; [|done]. by rewrite lookup_insert_ne.
Qed.

(** X19: the engine's book-keeping stays consistent: starting from
    [NewClusteringEngine], after any sequence of events for which distinct
    cluster identifiers are drawn, every cluster is filed under its own id
    and its error count is the number of its members, and every event id of
    the member map points to a cluster that lists it. *)
Theorem X19_engine_stays_consistent :
  forall (cfg : ClusteringConfig.t) (es : EmbeddingService.t)
         (db : gmap string (list float32)) (reqs : list request),
    NoDup (req_newID <$> reqs) ->
    consistent (processAll reqs (NewClusteringEngine cfg es db)).
Proof.
  intros cfg es db reqs Hnd.
  assert (H : forall ce,
             (forall r, r ∈ reqs -> clusters ce !! req_newID r = None) ->
             consistent ce -> consistent (processAll reqs ce)).
  { induction reqs as [|r reqs IH]; intros ce Hfresh Hc; [done|].
    apply NoDup_cons in Hnd as [Hr Hnd]. cbn. apply IH; [done| |].
    - intros r' Hr'. apply process_keys.
      + intros Heq. apply Hr. rewrite <- Heq. by apply list_elem_of_fmap_2.
      + apply Hfresh. by right.
    - apply process_consistent; [|done]. apply Hfresh. by left. }
  apply H.
  - intros r _. cbn. apply lookup_empty.
  - split; cbn; intros ? ? Hk; by rewrite lookup_empty in Hk.
Qed.

Lemma X19_engine_stays_consistent_witness :
  consistent (processAll scenario.twoRequests
                (NewClusteringEngine
                   (ClusteringConfig.mk 0.82%float 3600000000000 2 10)
                   scenario.embedE2 ∅)).
Proof.
  apply (X19_engine_stays_consistent
           (ClusteringConfig.mk 0.82%float 3600000000000 2 10)
           scenario.embedE2 ∅ scenario.twoRequests).
  apply (bool_decide_unpack _). vm_compute. exact I.
Defined.

End ClusteringInvariants.

(** ** The configuration watcher and the gateway's callbacks *)

Section WatcherProperties.
Import config.

Lemma substring_all (s : string) : String.substring 0 (String.length s) s = s.
Proof. induction s as [|c s IH]; simpl; [done|by rewrite IH]. Qed.

Lemma TrimPrefix_app (prefix s : string) : TrimPrefix (prefix +:+ s) prefix = s.
Proof.
  unfold TrimPrefix.
  assert (Hp : String.prefix prefix (prefix +:+ s) = true).
  { induction prefix as [|c prefix IH]; simpl; [by destruct s|].
    destruct (Ascii.ascii_dec c c); [exact IH|done]. }
  rewrite Hp. clear Hp.
  replace (String.length (prefix +:+ s) - String.length prefix)%nat
    with (String.length s).
  - induction prefix as [|c prefix IH]; simpl; [|exact IH].
    apply substring_all.
  - induction prefix as [|c prefix IH]; [|exact IH].
    change (String.length s = (String.length s - 0)%nat). lia.
Qed.

Lemma loadOne_handle (cw : configWatcher) (out : list Notification)
      (kv : KeyValue) :
  loadOne (cw, out) kv
  = (fst (handleConfigEvent (mkEvent EventTypePut kv) cw),
     (out ++ snd (handleConfigEvent (mkEvent EventTypePut kv) cw))%list).
Proof.
  unfold loadOne, handleConfigEvent. cbn.
  destruct (Value kv); cbn; [done|by rewrite app_nil_r].
Qed.

Lemma load_replay (kvs : list KeyValue) :
  forall (cw : configWatcher) (out : list Notification),
    fold_left loadOne kvs (cw, out)
    = fold_left (fun acc event =>
                   let '(cw', out) := handleConfigEvent event (fst acc) in
                   (cw', (snd acc ++ out)%list))
                (mkEvent EventTypePut <$> kvs) (cw, out).
Proof.
  induction kvs as [|kv kvs IH]; intros cw out; [done|].
  cbn [fold_left fmap list_fmap]. rewrite loadOne_handle, IH. cbn [fst snd].
  by destruct (handleConfigEvent (mkEvent EventTypePut kv) cw).
Qed.

(** X20: the initial load is a replay: loading the stored policies does to
    the watcher, and starts the same callbacks in the same order, as
    receiving one put event per stored entry would. *)
Theorem X20_initial_load_replays_puts :
  forall (kvs : list KeyValue) (cw : configWatcher),
    loadExistingPolicies (Ok kvs) cw
    = (None,
       fst (handleEvents (mkEvent EventTypePut <$> kvs) cw),
       snd (handleEvents (mkEvent EventTypePut <$> kvs) cw)).
Proof.
  intros kvs cw. unfold loadExistingPolicies, handleEvents.
  rewrite load_replay. by destruct (fold_left _ _ _).
Qed.

Lemma load_quiet (kvs : list KeyValue) :
  forall (cw : configWatcher) (out : list Notification),
    callbacks cw = [] ->
    callbacks (fst (fold_left loadOne kvs (cw, out))) = []
    /\ snd (fold_left loadOne kvs (cw, out)) = out.
Proof.
  induction kvs as [|kv kvs IH]; intros cw out Hcb; [done|].
  cbn [fold_left]. unfold loadOne at 2 4.
  destruct (Value kv) as [p|]; [|by apply IH].
  unfold notifyPolicyUpdate. cbn [callbacks]. rewrite Hcb. cbn [map].
  rewrite app_nil_r. by apply IH.
Qed.

(** X21: the policies that are in the store when the gateway starts reach
    no callback: [Gateway.Start] starts the watcher, whose initial load runs
    before the gateway has registered itself, so the load stores the
    policies in the watcher and notifies nobody.  The start does not fail
    either when the load fails: the watcher logs the error and returns
    [nil]. *)
Theorem X21_initial_policies_reach_no_callback :
  forall (resp : result (list KeyValue)) (cw : configWatcher),
    callbacks cw = [] ->
    gateway.Start None resp cw
    = (None,
       mkWatcher (policies (snd (fst (loadExistingPolicies resp cw))))
                 ["gateway"],
       []).
Proof.
  intros resp cw Hcb. unfold gateway.Start, Start, WatchPolicyUpdates.
  destruct resp as [kvs|e]; cbn.
  - destruct (load_quiet kvs cw [] Hcb) as [Hq Hout].
    destruct (fold_left loadOne kvs (cw, [])) as [cw' out]. cbn in *.
    subst out. unfold RegisterCallback. by rewrite Hq.
  - unfold RegisterCallback. by rewrite Hcb.
Qed.

Lemma X21_initial_policies_reach_no_callback_witness :
  gateway.Start None (Ok [scenario.expiredEntry]) NewConfigWatcher
  = (None,
     mkWatcher
       (policies (snd (fst (loadExistingPolicies (Ok [scenario.expiredEntry])
                              NewConfigWatcher))))
       ["gateway"],
     []).
Proof.
  apply (X21_initial_policies_reach_no_callback (Ok [scenario.expiredEntry])
           NewConfigWatcher).
  reflexivity.
Defined.

(** X22: a policy put under the key ["/policies/" ++ cid] is filed under
    [cid]: [GetPolicy] serves it for [cid] up to its expiry instant and
    hides it afterwards, the policies of other clusters are served as
    before, and after a delete event for the same key [GetPolicy] answers
    nothing for [cid] at any instant. *)
Theorem X22_watcher_serves_last_put_until_expiry :
  forall (cid : string) (p : Policy.t) (cw : configWatcher)
         (now : time.Time),
    let put := mkEvent EventTypePut (mkKV ("/policies/" +:+ cid) (Some p)) in
    let del := mkEvent EventTypeDelete (mkKV ("/policies/" +:+ cid) None) in
    GetPolicy now cid (fst (handleConfigEvent put cw))
    = (if Policy.ExpireTime p <? now then None else Some p)
    /\ (forall cid',
           cid' <> cid ->
           GetPolicy now cid' (fst (handleConfigEvent put cw))
           = GetPolicy now cid' cw)
    /\ GetPolicy now cid
         (fst (handleConfigEvent del (fst (handleConfigEvent put cw))))
       = None.
Proof.
  intros cid p cw now put del. subst put del.
  unfold handleConfigEvent, GetPolicy.
  cbn [Type_ Kv Key Value fst policies]. rewrite TrimPrefix_app.
  split; [|split].
  - by rewrite lookup_insert_eq.
  - intros cid' Hne. by rewrite lookup_insert_ne.
  - by rewrite lookup_delete_eq.
Qed.

End WatcherProperties.

Section GatewayProperties.
Import config.

(** X23: a policy outlives its deletion in the gateway: [OnPolicyDelete]
    does nothing, so after a severe circuit-break policy has been put and
    then deleted, the watcher no longer serves it, every callback has been
    told of both events, and the gateway's breaker for the cluster is still
    OPEN and refuses requests up to one break duration after the update. *)
Theorem X23_deleted_policy_stays_in_force :
  forall (L : Type) (upd : string -> Policy.t -> L -> error * L)
         (now t : time.Time) (cid : string) (p : Policy.t)
         (cbp : CircuitBreakPolicy.t) (cw : configWatcher)
         (g : gateway.Gateway L),
    cid <> "" ->
    callbacks cw = ["gateway"] ->
    Policy.PolicyType p = PolicyTypeCircuitBreak ->
    Policy.CircuitBreak p = Some cbp ->
    PrimFloat.leb 0.8%float (Policy.Severity p) = true ->
    t <= now + CircuitBreakPolicy.BreakDuration cbp ->
    let put := mkEvent EventTypePut (mkKV ("/policies/" +:+ cid) (Some p)) in
    let del := mkEvent EventTypeDelete (mkKV ("/policies/" +:+ cid) None) in
    let '(cw', out) := handleEvents [put; del] cw in
    let g' := gateway.deliverAll upd now out g in
    out = [OnPolicyUpdate "gateway" cid p; OnPolicyDelete "gateway" cid]
    /\ GetPolicy t cid cw' = None
    /\ breaker.GetState cid (gateway.circuitBreaker g') = BreakerStateOpen
    /\ fst (breaker.Allow t cid (gateway.circuitBreaker g')) = false.
Proof.
  intros L upd now t cid p cbp cw g Hne Hcb Hty Hp Hsev Ht put del.
  subst put del. unfold handleEvents, handleConfigEvent.
  cbn [fold_left Type_ Kv Key Value fst snd policies callbacks].
  rewrite TrimPrefix_app. unfold notifyPolicyUpdate, notifyPolicyDelete.
  cbn [callbacks]. rewrite Hcb. cbn [map app].
  split; [done|]. split.
  { unfold GetPolicy. cbn [policies]. by rewrite lookup_delete_eq. }
  unfold gateway.deliverAll. cbn [fold_left]. unfold gateway.deliver.
  unfold gateway.OnPolicyDelete. cbn [snd].
  unfold gateway.OnPolicyUpdate. destruct (upd cid p _) as [e l'].
  unfold breaker.UpdatePolicy. rewrite Hp, Hsev.
  rewrite decide_True by done. cbn [snd gateway.circuitBreaker].
  split.
  - by rewrite GetState_insert.
  - erewrite Allow_found; [|done|apply lookup_insert_eq].
    cbn [fst]. unfold breaker.breaker_Allow. cbn.
    unfold time.After, time.Add.
    destruct (Z.ltb_spec (now + CircuitBreakPolicy.BreakDuration cbp) t);
      [lia|done].
Qed.

Lemma X23_deleted_policy_stays_in_force_witness :
  let put := mkEvent EventTypePut
               (mkKV ("/policies/" +:+ "k") (Some scenario.breakPolicy)) in
  let del := mkEvent EventTypeDelete (mkKV ("/policies/" +:+ "k") None) in
  let '(cw', out) := handleEvents [put; del] scenario.watcher in
  let g' := gateway.deliverAll scenario.noLimiter 5 out
              scenario.plainGateway in
  out = [OnPolicyUpdate "gateway" "k" scenario.breakPolicy;
         OnPolicyDelete "gateway" "k"]
  /\ GetPolicy 9 "k" cw' = None
  /\ breaker.GetState "k" (gateway.circuitBreaker g') = BreakerStateOpen
  /\ fst (breaker.Allow 9 "k" (gateway.circuitBreaker g')) = false.
Proof.
  apply (X23_deleted_policy_stays_in_force unit scenario.noLimiter 5 9 "k"
           scenario.breakPolicy (CircuitBreakPolicy.mk 60000000000 0.2%float)
           scenario.watcher scenario.plainGateway).
  - done.
  - reflexivity.
  - reflexivity.
  - reflexivity.
  - vm_compute. reflexivity.
  - vm_compute. discriminate.
Defined.

End GatewayProperties.

(** ** The token bucket: further properties *)

Section BucketInvariants.
Import limiter.TokenBucket.

Lemma refill_bounds now tb :
  min_int64 <= tokens tb <= capacity tb ->
  capacity tb <= max_int64 ->
  capacity (refill now tb) = capacity tb
  /\ min_int64 <= tokens (refill now tb) <= capacity tb.
Proof.
  intros Htok Hcap. rewrite refill_unfold.
  destruct (PrimFloat.ltb _ _); cbn; [|done].
  pose proof (wrap64_range (tokens tb + tokensToAdd now tb)). split; lia.
Qed.

Lemma step_bounds (o : op) tb :
  legal o ->
  min_int64 <= tokens tb <= capacity tb ->
  capacity tb <= max_int64 ->
  min_int64 <= tokens (step o tb) <= capacity (step o tb)
  /\ capacity (step o tb) <= max_int64.
Proof.
  intros Hlegal Htok Hcap.
  destruct o as [now|now n|rate|now|now|now|now|c]; cbn in *;
    try (destruct (refill_bounds now tb Htok Hcap) as [Hc Ht]).
  - unfold Allow. destruct (Z.ltb_spec 0 (tokens (refill now tb))); cbn.
    + rewrite wrap64_id by (unfold min_int64, max_int64 in *; lia).
      rewrite Hc. unfold min_int64 in *. lia.
    + rewrite Hc. lia.
  - unfold AllowN. destruct (Z.leb_spec n (tokens (refill now tb))); cbn.
    + rewrite wrap64_id by (unfold min_int64, max_int64 in *; lia).
      rewrite Hc. unfold min_int64 in *. lia.
    + rewrite Hc. lia.
  - lia.
  - rewrite Hc. lia.
  - rewrite Hc. lia.
  - rewrite Hc. lia.
  - lia.
  - destruct (Z.ltb_spec c (tokens tb)); lia.
Qed.

(** X24: a bucket never holds more tokens than its capacity: starting from
    [NewTokenBucket], after any sequence of [Allow], [AllowN] with a
    non-negative argument, [SetRate], [GetTokens], [IsEmpty], [IsFull],
    [Reset] and [SetCapacity], at whatever instants and whatever the rate,
    the number of tokens is at most the capacity. *)
Theorem X24_tokens_never_exceed_capacity :
  forall (now : time.Time) (C : Z) (rate : float64) (ops : list op),
    min_int64 <= C <= max_int64 ->
    Forall legal ops ->
    tokens (steps ops (NewTokenBucket now C rate))
    <= capacity (steps ops (NewTokenBucket now C rate)).
Proof.
  intros now C rate ops HC Hops.
  assert (H : forall tb,
             min_int64 <= tokens tb <= capacity tb ->
             capacity tb <= max_int64 ->
             tokens (steps ops tb) <= capacity (steps ops tb)).
  { induction Hops as [|o ops Ho Hops IH]; intros tb Htok Hcap; [cbn; lia|].
    cbn. destruct (step_bounds o tb Ho Htok Hcap) as [Ht Hc].
    by apply IH. }
  apply H; cbn; lia.
Qed.

Lemma X24_tokens_never_exceed_capacity_witness :
  tokens (steps [OpAllow 1; OpAllowN 2000000000 2; OpSetCapacity 1;
                 OpGetTokens 9000000000; OpReset 9000000001]
            (NewTokenBucket 0 3 1%float))
  <= capacity (steps [OpAllow 1; OpAllowN 2000000000 2; OpSetCapacity 1;
                      OpGetTokens 9000000000; OpReset 9000000001]
                 (NewTokenBucket 0 3 1%float)).
Proof.
  apply (X24_tokens_never_exceed_capacity 0 3 1%float
           [OpAllow 1; OpAllowN 2000000000 2; OpSetCapacity 1;
            OpGetTokens 9000000000; OpReset 9000000001]).
  - vm_compute. split; discriminate.
  - repeat constructor; vm_compute; try discriminate.
Defined.

(** X25: [AllowN] does not check the sign of its argument: asked for a
    negative number of tokens it always answers [true] when the bucket
    holds no debt, and it adds the tokens to the bucket, which then holds
    more than it did and, when it was full, more than its capacity. *)
Theorem X25_negative_AllowN_mints_tokens :
  forall (now : time.Time) (n : Z) tb,
    n < 0 ->
    0 <= tokens (refill now tb) ->
    tokens (refill now tb) - n <= max_int64 ->
    fst (AllowN now n tb) = true
    /\ tokens (snd (AllowN now n tb)) = tokens (refill now tb) - n
    /\ (tokens (refill now tb) = capacity tb ->
        capacity (snd (AllowN now n tb)) < tokens (snd (AllowN now n tb))).
Proof.
  intros now n tb Hn Htok Hmax. unfold AllowN.
  destruct (Z.leb_spec n (tokens (refill now tb))); [|lia]. cbn.
  rewrite wrap64_id by (unfold min_int64; lia).
  split; [done|]. split; [done|]. intros Hfull.
  assert (Hcap : capacity (refill now tb) = capacity tb).
  { rewrite refill_unfold. by destruct (PrimFloat.ltb _ _). }
  lia.
Qed.

Lemma X25_negative_AllowN_mints_tokens_witness :
  fst (AllowN 0 (-5) scenario.fullBucket) = true
  /\ tokens (snd (AllowN 0 (-5) scenario.fullBucket))
     = tokens (refill 0 scenario.fullBucket) - -5
  /\ (tokens (refill 0 scenario.fullBucket) = capacity scenario.fullBucket ->
      capacity (snd (AllowN 0 (-5) scenario.fullBucket))
      < tokens (snd (AllowN 0 (-5) scenario.fullBucket))).
Proof.
  apply (X25_negative_AllowN_mints_tokens 0 (-5) scenario.fullBucket).
  - lia.
  - vm_compute. discriminate.
  - vm_compute. discriminate.
Defined.

Lemma refill_same_instant now tb : lastRefill tb = now -> refill now tb = tb.
Proof.
  intros <-. unfold refill, time.Sub. rewrite Z.sub_diag.
  replace (PrimFloat.ltb 0%float
             (time.Seconds
                (if 0 <? min_int64 then min_int64
                 else if max_int64 <? 0 then max_int64 else 0)))
    with false by (vm_compute; reflexivity).
  done.
Qed.

Lemma burst_at_one_instant (n : nat) : forall now C k rate,
  0 <= k <= max_int64 ->
  admitted (replicate n now) (mk C k rate now) = Z.min (Z.of_nat n) k.
Proof.
  induction n as [|n IH]; intros now C k rate Hk.
  - unfold admitted. cbn. lia.
  - cbn [replicate]. rewrite admitted_cons. unfold Allow.
    rewrite refill_same_instant by done. cbn [tokens].
    destruct (Z.ltb_spec 0 k).
    + cbn [fst snd capacity refillRate lastRefill].
      rewrite wrap64_id by (unfold min_int64, max_int64 in *; lia).
      rewrite IH by lia. lia.
    + cbn [fst snd]. rewrite IH by lia. lia.
Qed.

Lemma run_at_one_instant (n : nat) : forall now C k rate,
  0 <= k <= max_int64 ->
  fst (run (replicate n now) (mk C k rate now))
  = (replicate (Z.to_nat (Z.min (Z.of_nat n) k)) true
       ++ replicate (n - Z.to_nat k) false)%list.
Proof.
  induction n as [|n IH]; intros now C k rate Hk.
  { cbn. by rewrite Z.min_l by lia. }
  cbn [replicate]. rewrite run_cons. unfold Allow.
  rewrite refill_same_instant by done. cbn [tokens].
  destruct (Z.ltb_spec 0 k).
  - cbn [fst snd capacity refillRate lastRefill].
    rewrite wrap64_id by (unfold min_int64, max_int64 in *; lia).
    rewrite IH by lia.
    replace (Z.to_nat (Z.min (Z.of_nat (S n)) k))
      with (S (Z.to_nat (Z.min (Z.of_nat n) (k - 1)))) by lia.
    replace (S n - Z.to_nat k)%nat with (n - Z.to_nat (k - 1))%nat by lia.
    done.
  - cbn [fst snd]. rewrite IH by lia.
    replace k with 0 by lia.
    replace (Z.to_nat (Z.min (Z.of_nat (S n)) 0)) with 0%nat by lia.
    replace (Z.to_nat (Z.min (Z.of_nat n) 0)) with 0%nat by lia.
    cbn [replicate app Z.to_nat]. rewrite !Nat.sub_0_r. done.
Qed.

(** X26: a new bucket of capacity [C] serves a burst of exactly [C]
    requests: of [n] calls of [Allow] made at the instant the bucket was
    created, the first [C] are admitted and the others refused, whatever
    the refill rate. *)
Theorem X26_new_bucket_serves_burst_of_capacity :
  forall (now : time.Time) (C : Z) (rate : float64) (n : nat),
    0 <= C <= max_int64 ->
    admitted (replicate n now) (NewTokenBucket now C rate)
    = Z.min (Z.of_nat n) C
    /\ fst (run (replicate n now) (NewTokenBucket now C rate))
       = (replicate (Z.to_nat (Z.min (Z.of_nat n) C)) true
            ++ replicate (n - Z.to_nat C) false)%list.
Proof.
  intros now C rate n HC. split.
  - by apply burst_at_one_instant.
  - by apply run_at_one_instant.
Qed.

Lemma X26_new_bucket_serves_burst_of_capacity_witness :
  admitted (replicate 5 7) (NewTokenBucket 7 3 2%float) = Z.min (Z.of_nat 5) 3
  /\ fst (run (replicate 5 7) (NewTokenBucket 7 3 2%float))
     = (replicate (Z.to_nat (Z.min (Z.of_nat 5) 3)) true
          ++ replicate (5 - Z.to_nat 3) false)%list.
Proof.
  apply (X26_new_bucket_serves_burst_of_capacity 7 3 2%float 5).
  vm_compute. split; discriminate.
Defined.

End BucketInvariants.

(** ** Helpers of package [utils] *)

Section UtilsProperties.
Import utils.

Lemma agent_match_similarity (order : list string) (vector : list float32)
      (va : vector.vectorAgent) (cluster : Cluster.t) :
  vector.findMostSimilarCluster order vector va <> "" ->
  vector.clusters va !! vector.findMostSimilarCluster order vector va
  = Some cluster ->
  PrimFloat.leb (vector.similarityThreshold va)
    (CosineSimilarity vector (Cluster.Centroid cluster)) = true.
Proof.
  intros Hne Hc. unfold vector.findMostSimilarCluster in *.
  destruct (agent_scan_sound va vector order order ("", 0%float))
    as [Hinit|(Hin & Hsim & Hthr)]; [by left|done| |].
  - rewrite Hinit in Hne. done.
  - unfold vector.similarityOf in Hsim. rewrite Hc in Hsim.
    destruct (Nat.eqb _ _); [done|]. injection Hsim as Hsim.
    by rewrite Hsim.
Qed.

(** X27: [CosineSimilarity] answers 0 for vectors of different lengths, so
    an agent with a positive threshold never matches a cluster whose
    centroid has another dimension than the vector: the cluster it returns
    has a centroid as long as the vector. *)
Theorem X27_matched_centroid_has_the_vector_dimension :
  forall (order : list string) (vector : list float32)
         (va : vector.vectorAgent) (cluster : Cluster.t),
    PrimFloat.leb (vector.similarityThreshold va) 0%float = false ->
    vector.findMostSimilarCluster order vector va <> "" ->
    vector.clusters va !! vector.findMostSimilarCluster order vector va
    = Some cluster ->
    (forall a b : list float32,
        length a <> length b -> CosineSimilarity a b = 0%float)
    /\ length (Cluster.Centroid cluster) = length vector.
Proof.
  intros order vector va cluster Hthr Hne Hc.
  assert (Hlen : forall a b : list float32,
             length a <> length b -> CosineSimilarity a b = 0%float).
  { intros a b Hab. unfold CosineSimilarity.
    destruct (Nat.eqb_spec (length a) (length b)); done. }
  split; [exact Hlen|].
  destruct (decide (length (Cluster.Centroid cluster) = length vector))
    as [|Hneq]; [done|].
  pose proof (agent_match_similarity order vector va cluster Hne Hc) as Hsim.
  rewrite Hlen in Hsim by done. congruence.
Qed.

Lemma X27_matched_centroid_has_the_vector_dimension_witness :
  (forall a b : list float32,
      length a <> length b -> CosineSimilarity a b = 0%float)
  /\ length (Cluster.Centroid (scenario.clusterAt "a" scenario.e1))
     = length scenario.e1.
Proof.
  apply (X27_matched_centroid_has_the_vector_dimension ["w"; "a"] scenario.e1
           scenario.widerAgent (scenario.clusterAt "a" scenario.e1)).
  - vm_compute. reflexivity.
  - vm_compute. discriminate.
  - vm_compute. reflexivity.
Defined.





Lemma Split_nonempty (sep : ascii) (s : string) : Split sep s <> [].
Proof.
  induction s as [|c s IH]; simpl; [done|].
  destruct (Ascii.eqb c sep); [done|]. by destruct (Split sep s).
Qed.

Lemma Split_no_sep (sep : ascii) (s : string) :
  forall part, part ∈ Split sep s -> sep ∉ list_ascii_of_string part.
Proof.
  induction s as [|c s IH]; simpl; intros part Hin.
  - apply list_elem_of_singleton in Hin. subst part. simpl.
    apply not_elem_of_nil.
  - destruct (Ascii.eqb_spec c sep) as [->|Hne].
    + apply elem_of_cons in Hin as [->|Hin]; [|by apply IH].
      simpl. apply not_elem_of_nil.
    + destruct (Split sep s) as [|p ps] eqn:Hs.
      * apply list_elem_of_singleton in Hin. subst part. simpl.
        intros Hin. apply elem_of_cons in Hin as [Heq|Hin]; [by subst|].
        by apply elem_of_nil in Hin.
      * apply elem_of_cons in Hin as [->|Hin].
        -- simpl. intros Hin. apply elem_of_cons in Hin as [Heq|Hin];
             [by subst|].
           revert Hin. apply IH. by left.
        -- apply IH. by right.
Qed.

Lemma Split_segment (sep : ascii) (seg rest : string) :
  sep ∉ list_ascii_of_string seg ->
  Split sep (seg +:+ String sep rest) = seg :: Split sep rest.
Proof.
  induction seg as [|c seg IH]; simpl; intros Hno.
  - by rewrite Ascii.eqb_refl.
  - destruct (Ascii.eqb_spec c sep) as [->|Hne];
      [exfalso; apply Hno; by left|].
    rewrite IH; [done|]. intros Hin. apply Hno. by right.
Qed.

Lemma Split_last_segment (sep : ascii) (seg : string) :
  sep ∉ list_ascii_of_string seg -> Split sep seg = [seg].
Proof.
  induction seg as [|c seg IH]; simpl; intros Hno; [done|].
  destruct (Ascii.eqb_spec c sep) as [->|Hne];
    [exfalso; apply Hno; by left|].
  rewrite IH; [done|]. intros Hin. apply Hno. by right.
Qed.

Lemma unknown_no_slash : "/"%char ∉ list_ascii_of_string "unknown".
Proof. apply (bool_decide_unpack _). vm_compute. exact I. Qed.

(** X29: [ExtractServiceName] names the first segment of the path: for a
    path that starts with a slash followed by a non-empty segment, alone or
    followed by a slash and anything, it returns that segment; for every
    path its answer is neither empty nor contains a slash. *)
Theorem X29_service_name_is_first_segment :
  (forall path : string,
      ExtractServiceName path <> ""
      /\ "/"%char ∉ list_ascii_of_string (ExtractServiceName path))
  /\ (forall seg rest : string,
         seg <> "" ->
         "/"%char ∉ list_ascii_of_string seg ->
         ExtractServiceName ("/" +:+ seg) = seg
         /\ ExtractServiceName ("/" +:+ seg +:+ "/" +:+ rest) = seg).
Proof.
  split.
  - intros path. unfold ExtractServiceName.
    pose proof (Split_no_sep "/" path) as Hno.
    destruct (Split "/" path) as [|p0 [|part ps]];
      [split; [done|apply unknown_no_slash]
      |split; [done|apply unknown_no_slash]|].
    destruct (decide (part = "")) as [|Hne];
      [split; [done|apply unknown_no_slash]|].
    split; [done|]. apply Hno. right. by left.
  - intros seg rest Hne Hno. unfold ExtractServiceName.
    change ("/" +:+ seg +:+ "/" +:+ rest)
      with (String "/" (seg +:+ String "/" rest)).
    change ("/" +:+ seg) with (String "/" seg).
    cbn [Split Ascii.eqb Bool.eqb].
    rewrite Split_last_segment by done.
    rewrite (Split_segment "/" seg rest) by done.
    rewrite !decide_False by done. done.
Qed.

Lemma X29_service_name_is_first_segment_witness :
  ExtractServiceName ("/" +:+ "orders") = "orders"
  /\ ExtractServiceName ("/" +:+ "orders" +:+ "/" +:+ "42/items") = "orders".
Proof.
  apply (proj2 X29_service_name_is_first_segment "orders" "42/items").
  - done.
  - apply (bool_decide_unpack _). vm_compute. exact I.
Defined.

End UtilsProperties.

(** ** The desensitizer on text without word characters *)

Section DesensitizerPlainText.
Import regexp utils.desensitizer.

Lemma hex_isWordChar (c : ascii) : hex c = true -> isWordChar c = true.
Proof.
  destruct c as [b0 b1 b2 b3 b4 b5 b6 b7].
  destruct b0, b1, b2, b3, b4, b5, b6, b7; vm_compute; congruence.
Qed.

Lemma atBoundary_plain (prev : option ascii) (s : list ascii) :
  match prev with Some c => isWordChar c = false | None => True end ->
  Forall (fun c => isWordChar c = false) s ->
  atBoundary prev s = false.
Proof.
  intros Hprev Hs. unfold atBoundary.
  assert (H1 : match prev with Some c => isWordChar c | None => false end
               = false) by (destruct prev; done).
  assert (H2 : match s with c :: _ => isWordChar c | [] => false end = false).
  { destruct s as [|c s]; [done|]. by inversion Hs. }
  by rewrite H1, H2.
Qed.

Lemma rule_needs_word_character (name : string) (p : patternInfo)
      (prev : option ascii) (s : list ascii) :
  (name, p) ∈ rules ->
  match prev with Some c => isWordChar c = false | None => True end ->
  Forall (fun c => isWordChar c = false) s ->
  matchHere (regex p) prev s = None.
Proof.
  intros Hin Hprev Hs. pose proof (atBoundary_plain prev s Hprev Hs) as Hb.
  unfold rules in Hin.
  repeat (apply elem_of_cons in Hin as [[= -> ->]|Hin];
          [cbn [regex phone email token ip creditcard matchHere];
           try (by rewrite Hb)|]).
  - unfold uuid. cbn [matchHere].
    destruct s as [|c s]; [done|]. cbn [repeat].
    inversion Hs as [|? ? Hc _]; subst.
    destruct (hex c) eqn:Hh; [|done].
    apply hex_isWordChar in Hh. congruence.
  - by apply elem_of_nil in Hin.
Qed.

Lemma replaceFrom_plain (re : Regexp) (repl : list ascii) (s : list ascii) :
  (forall prev s',
      match prev with Some c => isWordChar c = false | None => True end ->
      Forall (fun c => isWordChar c = false) s' ->
      matchHere re prev s' = None) ->
  forall prev,
    match prev with Some c => isWordChar c = false | None => True end ->
    Forall (fun c => isWordChar c = false) s ->
    replaceFrom re repl prev false O s = s.
Proof.
  intros Hre. induction s as [|c s IH]; intros prev Hprev Hs.
  - cbn. by rewrite Hre.
  - cbn [replaceFrom]. rewrite Hre by done. f_equal.
    inversion Hs; subst. by apply IH.
Qed.

(** X30: every default rule needs a letter, a digit or an underscore to
    match: a text that holds none of them is returned unchanged by
    [Desensitize], whatever the order in which the rules are applied. *)
Theorem X30_text_without_word_characters_is_kept :
  forall (order : list string) (text : string),
    Forall (fun c => isWordChar c = false) (list_ascii_of_string text) ->
    Desensitize order text NewDesensitizer = text.
Proof.
  intros order text Htext. unfold Desensitize.
  destruct (decide (text = "")); [done|].
  induction order as [|name order IH]; [done|].
  cbn [fold_left].
  assert (Hstep : applyPattern NewDesensitizer text name = text).
  { unfold applyPattern.
    destruct (patterns NewDesensitizer !! name) as [p|] eqn:Hp; [|done].
    apply NewDesensitizer_rules in Hp. unfold ReplaceAllString.
    rewrite replaceFrom_plain; [apply string_of_list_ascii_of_string| |done
                               |done].
    intros prev s' Hprev Hs'.
    by apply (rule_needs_word_character name). }
  by rewrite Hstep.
Qed.

Lemma X30_text_without_word_characters_is_kept_witness :
  Desensitize scenario.registrationOrder "--> (+/-) @ ... %" NewDesensitizer
  = "--> (+/-) @ ... %".
Proof.
  apply (X30_text_without_word_characters_is_kept scenario.registrationOrder
           "--> (+/-) @ ... %").
  apply (bool_decide_unpack _). vm_compute. exact I.
Defined.

End DesensitizerPlainText.
